(** * Starfield generator: a shallow embedding of [starfield.py]

    The development follows the class [StarfieldGenerator]:
    [parse_background], [generate_star_brightness], [draw_star],
    [draw_diffraction_spikes] and [generate]; and the command-line
    layer around it, [parse_size] and [main] from the parsed arguments
    on.

    Modelling conventions.
    - The methods are embedded twice.  In the first embedding a Python
      [float] is an exact rational ([Q]) and [int(f)] truncates toward
      zero: it carries what does not depend on rounding, the thresholds,
      the geometry of the rays, the order and the targets of the writes,
      the clamping.  The module [Double] embeds the same methods over
      IEEE binary64, every operation rounded to the nearest double: the
      values that the code stores are stated there.
    - The power operator [**] is a parameter of both embeddings and the
      real power function in the real-number model of the sampler.
    - A Python [int] is a [Z].
    - The PIL image and the numpy array [img_array] share one
      representation: a list of rows, each row a list of RGB triples;
      [img_array[py, px]] is row [py], column [px].
    - In-place mutation is explicit state passing; an exception leaves
      the buffer as mutated so far and is reported next to it. *)

From Stdlib Require Import ZArith QArith Qround Lia Lqa String Ascii.
From Stdlib Require Import Reals Lra.
From Stdlib Require Import Floats.
From stdpp Require Import base list.

Local Open Scope Z_scope.

(** A decimal float constant stands for the nearest double, as in
    Python. *)
Local Set Warnings "-inexact-float".

(** ** Numbers *)

Definition pyfloat := Q.

(** [int(f)] on a float: truncation toward zero. *)
Definition int_of_float (f : pyfloat) : Z := Z.quot (Qnum f) (Z.pos (Qden f)).

(** Comparisons [a <= b], [a < b] and [a > b] on floats. *)
Definition float_le (a b : pyfloat) : bool := Qle_bool a b.
Definition float_lt (a b : pyfloat) : bool := negb (Qle_bool b a).
Definition float_gt (a b : pyfloat) : bool := float_lt b a.

(** [float(n)] and the implicit conversion in [int * float]. *)
Definition float_of_int (n : Z) : pyfloat := inject_Z n.

(** [a / b] on two ints (true division, [b] nonzero). *)
Definition true_div (a b : Z) : pyfloat := (inject_Z a / inject_Z b)%Q.

(** Python's [a // b] on ints (floor division). *)
Definition floor_div (a b : Z) : Z := a / b.

(** Python's [round(f)]: nearest integer, ties to the even one. *)
Definition py_round (f : pyfloat) : Z :=
  let lo := Qfloor f in
  let frac := (f - inject_Z lo)%Q in
  match (frac ?= 1 # 2)%Q with
  | Lt => lo
  | Gt => lo + 1
  | Eq => if Z.even lo then lo else lo + 1
  end.

(** ** Pixel buffers *)

Definition pixel := (Z * Z * Z)%type.

Definition red (p : pixel) : Z := p.1.1.
Definition green (p : pixel) : Z := p.1.2.
Definition blue (p : pixel) : Z := p.2.

Definition grey (v : Z) : pixel := (v, v, v).

Abbreviation buffer := (list (list pixel)).

(** The pixel in row [r], column [c], if the buffer has one. *)
Definition pixel_at (a : buffer) (r c : nat) : option pixel :=
  row ← a !! r; row !! c.

(** [img_array[py, px]] for non-negative indices; [None] is numpy's
    [IndexError]. *)
Definition getitem (a : buffer) (py px : Z) : option pixel :=
  pixel_at a (Z.to_nat py) (Z.to_nat px).

(** [img_array[py, px] = p] for an index that [getitem] accepts. *)
Definition setitem (a : buffer) (py px : Z) (p : pixel) : buffer :=
  alter (λ row, <[Z.to_nat px := p]> row) (Z.to_nat py) a.

(** The array has [h] rows of [w] pixels. *)
Definition shape (a : buffer) (h w : Z) : Prop :=
  Z.of_nat (length a) = h ∧ Forall (λ row, Z.of_nat (length row) = w) a.

(** ** Statements over a mutable buffer *)

Inductive exn := IndexError | ValueError | OverflowError.

(** The outcome of a call that returns a value or raises. *)
Inductive result (A : Type) :=
  | Ok (v : A)
  | Raise (e : exn).
Arguments Ok {A} v.
Arguments Raise {A} e.

(** A statement maps the buffer to the buffer it leaves behind and says
    whether it raised. *)
Definition stmt := buffer → option exn * buffer.

Definition skip : stmt := λ a, (None, a).

Definition raise (e : exn) : stmt := λ a, (Some e, a).

Definition then_ (s1 s2 : stmt) : stmt := λ a,
  match s1 a with
  | (None, a') => s2 a'
  | (Some e, a') => (Some e, a')
  end.

Notation "s1 >> s2" := (then_ s1 s2) (at level 90, right associativity).

(** [for v in l: body v]. *)
Fixpoint for_each {A} (l : list A) (body : A → stmt) : stmt :=
  match l with
  | [] => skip
  | v :: l' => body v >> for_each l' body
  end.

(** [range(lo, hi)]. *)
Definition range (lo hi : Z) : list Z := seqZ lo (hi - lo).

(** ** The generator object *)

Record StarfieldGenerator := {
  width : Z;
  height : Z;
  density : pyfloat;
  background : string
}.

(** ** [draw_diffraction_spikes] *)

Section Spikes.

Variable self : StarfieldGenerator.

Definition spike_intensity (brightness : pyfloat) : pyfloat :=
  ((brightness - 9) / 1)%Q.

Definition base_intensity (brightness : pyfloat) : Z :=
  int_of_float ((brightness / 10) * 255)%Q.

Definition spike_length (brightness : pyfloat) : Z :=
  int_of_float (8 + (brightness - 9) * 12)%Q.

(** The value added at step [i] of a cardinal ray. *)
Definition cardinal_spike_val (brightness : pyfloat) (i : Z) : Z :=
  let fade := (1 - true_div i (spike_length brightness))%Q in
  int_of_float
    (float_of_int (base_intensity brightness) * spike_intensity brightness * fade)%Q.

(** The value added at step [i] of a diagonal ray. *)
Definition diagonal_spike_val (brightness : pyfloat) (i : Z) : Z :=
  let fade := (1 - true_div i (floor_div (spike_length brightness) 2))%Q in
  int_of_float
    (float_of_int (base_intensity brightness) * spike_intensity brightness * fade
     * 0.5)%Q.

(** The body shared by both inner loops, with [px], [py] and
    [spike_val] already computed. *)
Definition brighten (px py spike_val : Z) : stmt := λ a,
  if bool_decide (0 ≤ px < width self) && bool_decide (0 ≤ py < height self) then
    match getitem a py px with
    | None => (Some IndexError, a)
    | Some current =>
        let new_val := Z.min 255 (red current + spike_val) in
        (None, setitem a py px (new_val, new_val, new_val))
    end
  else (None, a).

Definition cardinal_dirs : list (Z * Z) := [(1, 0); (-1, 0); (0, 1); (0, -1)].
Definition diagonal_dirs : list (Z * Z) := [(1, 1); (-1, 1); (1, -1); (-1, -1)].

Definition cardinal_pass (x y : Z) (brightness : pyfloat) : stmt :=
  for_each cardinal_dirs (λ d,
    for_each (range 1 (spike_length brightness)) (λ i,
      brighten (x + d.1 * i) (y + d.2 * i) (cardinal_spike_val brightness i))).

Definition diagonal_pass (x y : Z) (brightness : pyfloat) : stmt :=
  for_each diagonal_dirs (λ d,
    for_each (range 1 (floor_div (spike_length brightness) 2)) (λ i,
      brighten (x + d.1 * i) (y + d.2 * i) (diagonal_spike_val brightness i))).

Definition draw_diffraction_spikes (x y : Z) (brightness : pyfloat) : stmt :=
  if float_le brightness 9%Q then skip
  else
    cardinal_pass x y brightness >>
    (if float_gt brightness 9.5%Q then diagonal_pass x y brightness else skip).

End Spikes.


(** ** [draw_star]

    [ImageDraw] belongs to Pillow, not to this repository.  Its ellipse
    rasteriser is a parameter: [ellipse_fill x0 y0 x1 y1 px py] tells
    whether a filled ellipse with bounding box [[x0, y0, x1, y1]] covers
    pixel [(px, py)], [ellipse_outline] the same for an outline of width
    one.  Drawing stores the fill colour with every channel clipped to a
    byte, and ignores pixels outside the image. *)

Definition clip8 (v : Z) : Z := Z.max 0 (Z.min 255 v).

Definition ink (color : pixel) : pixel :=
  (clip8 (red color), clip8 (green color), clip8 (blue color)).

(** Store [fill] in every pixel of the image that [mask] covers. *)
Definition paint (mask : Z → Z → bool) (fill : pixel) (img : buffer) : buffer :=
  imap (λ r row,
    imap (λ c p, if mask (Z.of_nat c) (Z.of_nat r) then ink fill else p) row) img.

(** [draw.point((x, y), fill=color)]. *)
Definition ImageDraw_point (img : buffer) (x y : Z) (fill : pixel) : buffer :=
  paint (λ px py, bool_decide (px = x ∧ py = y)) fill img.

Section Drawing.

Variable ellipse_fill : Z → Z → Z → Z → Z → Z → bool.
Variable ellipse_outline : Z → Z → Z → Z → Z → Z → bool.

(** [draw.ellipse([x0, y0, x1, y1], fill=color)]. *)
Definition ImageDraw_ellipse_fill (img : buffer) (x0 y0 x1 y1 : Z) (fill : pixel)
  : buffer :=
  paint (ellipse_fill x0 y0 x1 y1) fill img.

(** [draw.ellipse([x0, y0, x1, y1], outline=color)]. *)
Definition ImageDraw_ellipse_outline (img : buffer) (x0 y0 x1 y1 : Z)
    (outline : pixel) : buffer :=
  paint (ellipse_outline x0 y0 x1 y1) outline img.

Definition star_intensity (brightness : pyfloat) : Z :=
  int_of_float ((brightness / 10) * 255)%Q.

Definition star_radius (brightness : pyfloat) : Z :=
  int_of_float (brightness / 5)%Q.

Definition draw_star (draw : buffer) (x y : Z) (brightness : pyfloat) : buffer :=
  let intensity := star_intensity brightness in
  let color := (intensity, intensity, intensity) in
  if float_lt brightness 3%Q then
    ImageDraw_point draw x y color
  else if float_lt brightness 6%Q then
    ImageDraw_ellipse_fill draw (x - 1) (y - 1) (x + 1) (y + 1) color
  else
    let radius := star_radius brightness in
    let draw1 :=
      ImageDraw_ellipse_fill draw (x - radius) (y - radius) (x + radius) (y + radius)
        color in
    if float_gt brightness 8%Q then
      let glow_color := (floor_div intensity 2, floor_div intensity 2,
                         floor_div intensity 2) in
      ImageDraw_ellipse_outline draw1 (x - radius - 1) (y - radius - 1)
        (x + radius + 1) (y + radius + 1) glow_color
    else draw1.

End Drawing.

(** ** [parse_background] *)

Definition startswith (s p : string) : bool := String.prefix p s.

(** [s.lstrip(c)] for a one-character argument. *)
Fixpoint lstrip (c : ascii) (s : string) : string :=
  match s with
  | EmptyString => EmptyString
  | String c' s' => if Ascii.eqb c' c then lstrip c s' else s
  end.

(** [s[lo:hi]] for [0 <= lo <= hi]. *)
Definition slice (s : string) (lo hi : nat) : string := substring lo (hi - lo) s.

(** [c * n]: the character repeated. *)
Fixpoint repeat_char (c : ascii) (n : nat) : string :=
  match n with
  | O => EmptyString
  | S n' => String c (repeat_char c n')
  end.

(** *** [int(s, 16)] on strings of characters with a code below 256

    Surrounding whitespace is skipped, one sign and one [0x] prefix are
    accepted, and single underscores may separate digits.  [None] is
    [ValueError].

    The blanks that [int] skips are the six ASCII ones (tab, line feed,
    vertical tab, form feed, carriage return and space) and, of the
    codes from 127 on, the two that Unicode counts as whitespace (133
    and 160), which CPython turns into spaces before it parses; the
    separators 28 to 31 are left as they are and are no blanks. *)

Definition is_space (c : ascii) : bool :=
  let n := nat_of_ascii c in
  ((9 <=? n)%nat && (n <=? 13)%nat) || (n =? 32)%nat
  || (n =? 133)%nat || (n =? 160)%nat.

Definition hex_digit (c : ascii) : option Z :=
  let n := Z.of_nat (nat_of_ascii c) in
  if (48 <=? n) && (n <=? 57) then Some (n - 48)
  else if (97 <=? n) && (n <=? 102) then Some (n - 87)
  else if (65 <=? n) && (n <=? 70) then Some (n - 55)
  else None.

Fixpoint skip_spaces (l : list ascii) : list ascii :=
  match l with
  | c :: l' => if is_space c then skip_spaces l' else l
  | [] => []
  end.

(** The run of digits and underscores at the head of [l]: its value and
    what follows it. *)
Fixpoint scan_digits (acc : Z) (after_underscore : bool) (l : list ascii)
  : option (Z * list ascii) :=
  match l with
  | [] => if after_underscore then None else Some (acc, [])
  | c :: l' =>
      match hex_digit c with
      | Some d => scan_digits (16 * acc + d) false l'
      | None =>
          if after_underscore then None
          else if Ascii.eqb c "_" then scan_digits acc true l'
          else Some (acc, l)
      end
  end.

Definition int_base16 (s : string) : option Z :=
  let l := skip_spaces (list_ascii_of_string s) in
  let '(sign, l) :=
    match l with
    | "+"%char :: l' => (1, l')
    | "-"%char :: l' => (-1, l')
    | _ => (1, l)
    end in
  let l :=
    match l with
    | "0"%char :: c :: l' =>
        if Ascii.eqb c "x" || Ascii.eqb c "X" then
          match l' with
          | "_"%char :: l'' => l''
          | _ => l'
          end
        else l
    | _ => l
    end in
  match l with
  | c :: _ =>
      match hex_digit c with
      | Some _ =>
          match scan_digits 0 false l with
          | Some (v, rest) =>
              match skip_spaces rest with
              | [] => Some (sign * v)
              | _ :: _ => None
              end
          | None => None
          end
      | None => None
      end
  | [] => None
  end.

(** [Image.new('RGB', (w, h), color)]: Pillow refuses a negative size. *)
Definition Image_new (w h : Z) (color : pixel) : result buffer :=
  if (w <? 0) || (h <? 0) then Raise ValueError
  else Ok (replicate (Z.to_nat h) (replicate (Z.to_nat w) (ink color))).

Section Background.

(** The [try] block of the image branch: open the file, resize it to
    the requested size and convert it to RGB; [None] when any of it
    raises. *)
Variable load_image : string → Z → Z → option buffer.

Variable self : StarfieldGenerator.

Definition parse_background : result buffer :=
  if startswith (background self) "#" then
    let hex_color := lstrip "#" (background self) in
    if (String.length hex_color =? 6)%nat then
      match int_base16 (slice hex_color 0 2) with
      | None => Raise ValueError
      | Some r =>
          match int_base16 (slice hex_color 2 4) with
          | None => Raise ValueError
          | Some g =>
              match int_base16 (slice hex_color 4 6) with
              | None => Raise ValueError
              | Some b => Image_new (width self) (height self) (r, g, b)
              end
          end
      end
    else Raise ValueError
  else
    match load_image (background self) (width self) (height self) with
    | Some img => Ok img
    | None => Raise ValueError
    end.

End Background.

(** ** [generate_star_brightness] and [generate]

    The module [random] is a parameter: a generator state with its two
    draws.  So is the float power [**]. *)

Definition star := (Z * Z * pyfloat)%type.

Section Generate.

Variable rng : Type.
Variable random : rng → pyfloat * rng.
Variable randint : Z → Z → rng → Z * rng.
Variable pow : pyfloat → pyfloat → pyfloat.
Variable ellipse_fill : Z → Z → Z → Z → Z → Z → bool.
Variable ellipse_outline : Z → Z → Z → Z → Z → Z → bool.
Variable load_image : string → Z → Z → option buffer.

Variable self : StarfieldGenerator.

Definition generate_star_brightness (s : rng) : pyfloat * rng :=
  let '(u, s) := random s in
  let x_min := 1%Q in
  let x_max := 10%Q in
  let alpha := (5 / 2)%Q in
  let '(r, s) := random s in
  let brightness :=
    pow (pow x_min (- alpha + 1)
         + r * (pow x_max (- alpha + 1) - pow x_min (- alpha + 1)))%Q
        (1 / (- alpha + 1))%Q in
  (brightness, s).

(** [random.randint(a, b)] raises on an empty range. *)
Definition py_randint (a b : Z) (s : rng) : result Z * rng :=
  if b <? a then (Raise ValueError, s)
  else let '(v, s) := randint a b s in (Ok v, s).

(** The sampling loop, [n] iterations to go, [stars] collected so far. *)
Fixpoint sample_stars (n : nat) (stars : list star) (s : rng)
  : result (list star) * rng :=
  match n with
  | O => (Ok stars, s)
  | S n' =>
      match py_randint 0 (width self - 1) s with
      | (Raise e, s) => (Raise e, s)
      | (Ok x, s) =>
          match py_randint 0 (height self - 1) s with
          | (Raise e, s) => (Raise e, s)
          | (Ok y, s) =>
              let '(brightness, s) := generate_star_brightness s in
              sample_stars n' (stars ++ [(x, y, brightness)]) s
          end
      end
  end.

Definition num_stars : Z :=
  let total_pixels := width self * height self in
  int_of_float (float_of_int total_pixels * density self)%Q.

(** Pass 1: every star's glyph, in list order. *)
Definition glyph_pass (stars : list star) (img : buffer) : buffer :=
  foldl (λ draw '(x, y, brightness),
    draw_star ellipse_fill ellipse_outline draw x y brightness) img stars.

(** Pass 2: the spikes of the stars brighter than 8. *)
Definition spike_pass (stars : list star) : stmt :=
  for_each stars (λ '(x, y, brightness),
    if float_gt brightness 8%Q then draw_diffraction_spikes self x y brightness
    else skip).

Definition generate (s : rng) : result buffer * rng :=
  match parse_background load_image self with
  | Raise e => (Raise e, s)
  | Ok img =>
      match sample_stars (Z.to_nat num_stars) [] s with
      | (Raise e, s) => (Raise e, s)
      | (Ok stars, s) =>
          let img := glyph_pass stars img in
          match spike_pass stars img with
          | (Some e, _) => (Raise e, s)
          | (None, img_array) => (Ok img_array, s)
          end
      end
  end.

End Generate.

(** ** The sampler over the real numbers

    The same method with floats read as real numbers and [**] as the
    real power function, to state what the formula computes. *)

Module RealModel.

Section Sampler.

Variable rng : Type.
Variable random : rng → R * rng.

Definition generate_star_brightness (s : rng) : R * rng :=
  let '(u, s) := random s in
  let x_min := 1%R in
  let x_max := 10%R in
  let alpha := (5 / 2)%R in
  let '(r, s) := random s in
  let brightness :=
    Rpower (Rpower x_min (- alpha + 1)
            + r * (Rpower x_max (- alpha + 1) - Rpower x_min (- alpha + 1)))%R
           (1 / (- alpha + 1))%R in
  (brightness, s).

End Sampler.

(** The inverse CDF of the bounded Pareto distribution as the
    specification writes it. *)
Definition inverse_cdf (alpha x_min x_max r : R) : R :=
  Rpower (Rpower x_min (1 - alpha)
          + r * (Rpower x_max (1 - alpha) - Rpower x_min (1 - alpha)))%R
         (1 / (1 - alpha))%R.

End RealModel.

(** ** The methods in binary64

    The definitions so far read a float as an exact rational.  That
    keeps the comparisons with the thresholds, the geometry of the rays
    and the order of the writes, but not the values: Python computes
    them in IEEE binary64, every operation rounded to the nearest
    double, and [int] cuts the rounded result.  [Double] embeds the
    same methods with floats as doubles (the kernel's primitive floats,
    which are binary64 with that rounding).

    - An int that meets a float in an operation is converted to the
      nearest double first; [a / b] on two ints is the double nearest
      to the quotient.
    - [int(f)] raises [ValueError] on a NaN and [OverflowError] on an
      infinity.
    - [self.density] is passed next to [self], whose width, height and
      background are shared with the definitions above. *)

Module Double.

(** [float(n)] and the conversion of an int operand. *)
Definition float_of_int (n : Z) : float :=
  SF2Prim (binary_normalize prec emax n 0 false).

(** An int as an unrounded number [m * 2^0]. *)
Definition exact (n : Z) : spec_float :=
  match n with
  | Z0 => S754_zero false
  | Zpos m => S754_finite false m 0
  | Zneg m => S754_finite true m 0
  end.

(** [a / b] on two ints, [b] nonzero: the quotient, rounded once. *)
Definition true_div (a b : Z) : float := SF2Prim (SFdiv prec emax (exact a) (exact b)).

(** [int(f)]: the fraction is cut off. *)
Definition int_of_float (f : float) : result Z :=
  match Prim2SF f with
  | S754_zero _ => Ok 0
  | S754_infinity _ => Raise OverflowError
  | S754_nan => Raise ValueError
  | S754_finite s m e =>
      let magnitude := if 0 <=? e then Z.pos m * 2 ^ e else Z.pos m / 2 ^ (- e) in
      Ok (if s then - magnitude else magnitude)
  end.

(** Neither a NaN nor an infinity. *)
Definition finite (f : float) : bool :=
  match Prim2SF f with
  | S754_zero _ | S754_finite _ _ _ => true
  | S754_infinity _ | S754_nan => false
  end.

(** The number that a finite double stands for. *)
Definition value (f : float) : Q :=
  match Prim2SF f with
  | S754_finite s m e =>
      let q := if 0 <=? e then inject_Z (Z.pos m * 2 ^ e)
               else Z.pos m # Pos.pow 2 (Z.to_pos (- e)) in
      if s then (- q)%Q else q
  | _ => 0%Q
  end.

(** *** [draw_diffraction_spikes] *)

Definition spike_intensity (brightness : float) : float :=
  ((brightness - 9) / 1)%float.

Definition base_intensity (brightness : float) : result Z :=
  int_of_float ((brightness / 10) * 255)%float.

Definition spike_length (brightness : float) : result Z :=
  int_of_float (8 + (brightness - 9) * 12)%float.

(** [spike_val] at step [i] of a cardinal ray. *)
Definition cardinal_spike_val (brightness : float) (base_intensity spike_length i : Z)
  : result Z :=
  let fade := (1 - true_div i spike_length)%float in
  int_of_float
    (float_of_int base_intensity * spike_intensity brightness * fade)%float.

(** [spike_val] at step [i] of a diagonal ray. *)
Definition diagonal_spike_val (brightness : float) (base_intensity spike_length i : Z)
  : result Z :=
  let fade := (1 - true_div i (floor_div spike_length 2))%float in
  int_of_float
    (float_of_int base_intensity * spike_intensity brightness * fade * 0.5)%float.

Section Spikes.

Variable self : StarfieldGenerator.

(** The body of both inner loops: inside the bounds [spike_val] is
    computed, which may raise, before the array is read. *)
Definition brighten (px py : Z) (spike_val : result Z) : stmt := λ a,
  if bool_decide (0 ≤ px < width self) && bool_decide (0 ≤ py < height self) then
    match spike_val with
    | Raise e => (Some e, a)
    | Ok spike_val =>
        match getitem a py px with
        | None => (Some IndexError, a)
        | Some current =>
            let new_val := Z.min 255 (red current + spike_val) in
            (None, setitem a py px (new_val, new_val, new_val))
        end
    end
  else (None, a).

Definition cardinal_pass (x y : Z) (brightness : float)
    (base_intensity spike_length : Z) : stmt :=
  for_each cardinal_dirs (λ d,
    for_each (range 1 spike_length) (λ i,
      brighten (x + d.1 * i) (y + d.2 * i)
        (cardinal_spike_val brightness base_intensity spike_length i))).

Definition diagonal_pass (x y : Z) (brightness : float)
    (base_intensity spike_length : Z) : stmt :=
  for_each diagonal_dirs (λ d,
    for_each (range 1 (floor_div spike_length 2)) (λ i,
      brighten (x + d.1 * i) (y + d.2 * i)
        (diagonal_spike_val brightness base_intensity spike_length i))).

Definition draw_diffraction_spikes (x y : Z) (brightness : float) : stmt :=
  if (brightness <=? 9)%float then skip
  else
    match base_intensity brightness with
    | Raise e => raise e
    | Ok base_intensity =>
        match spike_length brightness with
        | Raise e => raise e
        | Ok spike_length =>
            cardinal_pass x y brightness base_intensity spike_length >>
            (if (9.5 <? brightness)%float
             then diagonal_pass x y brightness base_intensity spike_length
             else skip)
        end
    end.

End Spikes.

(** *** [draw_star] *)

Definition star_intensity (brightness : float) : result Z :=
  int_of_float ((brightness / 10) * 255)%float.

Definition star_radius (brightness : float) : result Z :=
  int_of_float (brightness / 5)%float.

Section Drawing.

Variable ellipse_fill : Z → Z → Z → Z → Z → Z → bool.
Variable ellipse_outline : Z → Z → Z → Z → Z → Z → bool.

Definition draw_star (x y : Z) (brightness : float) : stmt := λ draw,
  match star_intensity brightness with
  | Raise e => (Some e, draw)
  | Ok intensity =>
      let color := (intensity, intensity, intensity) in
      if (brightness <? 3)%float then
        (None, ImageDraw_point draw x y color)
      else if (brightness <? 6)%float then
        (None, ImageDraw_ellipse_fill ellipse_fill draw (x - 1) (y - 1) (x + 1)
                 (y + 1) color)
      else
        match star_radius brightness with
        | Raise e => (Some e, draw)
        | Ok radius =>
            let draw1 :=
              ImageDraw_ellipse_fill ellipse_fill draw (x - radius) (y - radius)
                (x + radius) (y + radius) color in
            if (8 <? brightness)%float then
              let glow_color := (floor_div intensity 2, floor_div intensity 2,
                                 floor_div intensity 2) in
              (None, ImageDraw_ellipse_outline ellipse_outline draw1
                       (x - radius - 1) (y - radius - 1) (x + radius + 1)
                       (y + radius + 1) glow_color)
            else (None, draw1)
        end
  end.

End Drawing.

(** *** [generate_star_brightness] and [generate] *)

Definition star := (Z * Z * float)%type.

Section Generate.

Variable rng : Type.
Variable random : rng → float * rng.
Variable randint : Z → Z → rng → Z * rng.
Variable pow : float → float → float.
Variable ellipse_fill : Z → Z → Z → Z → Z → Z → bool.
Variable ellipse_outline : Z → Z → Z → Z → Z → Z → bool.
Variable load_image : string → Z → Z → option buffer.

Variable self : StarfieldGenerator.

Definition generate_star_brightness (s : rng) : float * rng :=
  let '(u, s) := random s in
  let x_min := 1%float in
  let x_max := 10%float in
  let alpha := true_div 5 2 in
  let '(r, s) := random s in
  let brightness :=
    pow (pow x_min (- alpha + 1)
         + r * (pow x_max (- alpha + 1) - pow x_min (- alpha + 1)))%float
        (1 / (- alpha + 1))%float in
  (brightness, s).

(** The sampling loop, [n] iterations to go, [stars] collected so far. *)
Fixpoint sample_stars (n : nat) (stars : list star) (s : rng)
  : result (list star) * rng :=
  match n with
  | O => (Ok stars, s)
  | S n' =>
      match py_randint rng randint 0 (width self - 1) s with
      | (Raise e, s) => (Raise e, s)
      | (Ok x, s) =>
          match py_randint rng randint 0 (height self - 1) s with
          | (Raise e, s) => (Raise e, s)
          | (Ok y, s) =>
              let '(brightness, s) := generate_star_brightness s in
              sample_stars n' (stars ++ [(x, y, brightness)]) s
          end
      end
  end.

(** [int(total_pixels * self.density)]: converting [total_pixels]
    raises when it is too large for a double. *)
Definition num_stars (density : float) : result Z :=
  let total_pixels := width self * height self in
  if finite (float_of_int total_pixels) then
    int_of_float (float_of_int total_pixels * density)%float
  else Raise OverflowError.

(** Pass 1: every star's glyph, in list order. *)
Definition glyph_pass (stars : list star) : stmt :=
  for_each stars (λ '(x, y, brightness),
    draw_star ellipse_fill ellipse_outline x y brightness).

(** Pass 2: the spikes of the stars brighter than 8. *)
Definition spike_pass (stars : list star) : stmt :=
  for_each stars (λ '(x, y, brightness),
    if (8 <? brightness)%float then draw_diffraction_spikes self x y brightness
    else skip).

Definition generate (density : float) (s : rng) : result buffer * rng :=
  match parse_background load_image self with
  | Raise e => (Raise e, s)
  | Ok img =>
      match num_stars density with
      | Raise e => (Raise e, s)
      | Ok num_stars =>
          match sample_stars (Z.to_nat num_stars) [] s with
          | (Raise e, s) => (Raise e, s)
          | (Ok stars, s) =>
              match glyph_pass stars img with
              | (Some e, _) => (Raise e, s)
              | (None, img) =>
                  match spike_pass stars img with
                  | (Some e, _) => (Raise e, s)
                  | (None, img_array) => (Ok img_array, s)
                  end
              end
          end
      end
  end.

End Generate.

End Double.

(** ** [parse_size] and [main]

    A string is a sequence of characters with a code below 256; among
    these the class [\d] of the pattern holds the ten digits only. *)

Inductive main_exn :=
  | ArgumentTypeError
  | Exn (e : exn)
  | SystemExit (code : Z)
  | SaveError.

(** The outcome of a call of the command-line layer. *)
Inductive outcome (A : Type) :=
  | Return (v : A)
  | Throw (e : main_exn).
Arguments Return {A} v.
Arguments Throw {A} e.

Definition is_digit (c : ascii) : bool :=
  let n := nat_of_ascii c in (48 <=? n)%nat && (n <=? 57)%nat.

(** The longest run of digits at the head of [l], and what follows. *)
Fixpoint span_digits (l : list ascii) : list ascii * list ascii :=
  match l with
  | c :: l' =>
      if is_digit c then
        let '(ds, rest) := span_digits l' in (c :: ds, rest)
      else ([], l)
  | [] => ([], [])
  end.

(** [re.match(r'(\d+)[x:](\d+)', s)]: the two groups of the match at the
    start of [s].  Both groups are greedy, and giving back a digit never
    helps, since the character after a shorter group is a digit. *)
Definition re_match_size (s : string) : option (list ascii * list ascii) :=
  let '(group1, rest) := span_digits (list_ascii_of_string s) in
  match group1, rest with
  | _ :: _, sep :: rest' =>
      if Ascii.eqb sep "x" || Ascii.eqb sep ":" then
        let '(group2, _) := span_digits rest' in
        match group2 with
        | _ :: _ => Some (group1, group2)
        | [] => None
        end
      else None
  | _, _ => None
  end.

Definition digit_value (c : ascii) : Z := Z.of_nat (nat_of_ascii c) - 48.

(** The number that a string of digits writes in base ten. *)
Definition int_decimal (ds : list ascii) : Z :=
  foldl (λ acc c, 10 * acc + digit_value c) 0 ds.

Module argparse.

(** The result of [parser.parse_args()]. *)
Record Namespace := {
  size : string;
  density : pyfloat;
  background : string;
  output : string
}.

End argparse.

(** What [main] does to the outside, in order: the two messages on
    standard output, the file it saves, and what [parser.error] writes
    to standard error (the usage line and the message). *)
Inductive event :=
  | print_generating (width height : Z) (density : pyfloat)
  | save (path : string) (img : buffer)
  | print_saved (path : string)
  | parser_error (message : string).

Section CommandLine.

(** The interpreter's limit on the digits of a string that [int]
    converts ([sys.int_max_str_digits]; 0 is no limit). *)
Variable int_max_str_digits : nat.

Variable rng : Type.
Variable random : rng → pyfloat * rng.
Variable randint : Z → Z → rng → Z * rng.
Variable pow : pyfloat → pyfloat → pyfloat.
Variable ellipse_fill : Z → Z → Z → Z → Z → Z → bool.
Variable ellipse_outline : Z → Z → Z → Z → Z → Z → bool.
Variable load_image : string → Z → Z → option buffer.

(** [img.save(path)]: whether Pillow writes the file, or raises. *)
Variable Image_save : string → buffer → bool.

(** [int(s)] on a string of digits. *)
Definition int_of_digits (ds : list ascii) : outcome Z :=
  if (0 <? int_max_str_digits)%nat && (int_max_str_digits <? length ds)%nat
  then Throw (Exn ValueError)
  else Return (int_decimal ds).

Definition parse_size (size_str : string) : outcome (Z * Z) :=
  match re_match_size size_str with
  | None => Throw ArgumentTypeError
  | Some (group1, group2) =>
      match int_of_digits group1 with
      | Throw e => Throw e
      | Return width =>
          match int_of_digits group2 with
          | Throw e => Throw e
          | Return height => Return (width, height)
          end
      end
  end.

(** [main] from the parsed arguments on: the events, how the call ends,
    and the state of the random generator. *)
Definition main (args : argparse.Namespace) (s : rng)
  : list event * outcome unit * rng :=
  match parse_size (argparse.size args) with
  | Throw e => ([], Throw e, s)
  | Return (width, height) =>
      if negb (float_le 0%Q (argparse.density args)
               && float_le (argparse.density args) 1%Q)
      then ([parser_error "Density must be between 0.0 and 1.0"],
            Throw (SystemExit 2), s)
      else
        let generator :=
          {| width := width; height := height;
             density := argparse.density args;
             background := argparse.background args |} in
        let printed := [print_generating width height (argparse.density args)] in
        match generate rng random randint pow ellipse_fill ellipse_outline
                load_image generator s with
        | (Raise e, s) => (printed, Throw (Exn e), s)
        | (Ok img, s) =>
            if Image_save (argparse.output args) img then
              (printed ++ [save (argparse.output args) img;
                           print_saved (argparse.output args)],
               Return tt, s)
            else (printed, Throw SaveError, s)
        end
  end.

End CommandLine.

(** ** Vocabulary of the statements *)

Definition byte_range (v : Z) : Prop := 0 ≤ v ≤ 255.

Definition pixel_in_range (p : pixel) : Prop :=
  byte_range (red p) ∧ byte_range (green p) ∧ byte_range (blue p).

(** Every channel of every pixel is a byte. *)
Definition channels_in_range (a : buffer) : Prop :=
  Forall (Forall pixel_in_range) a.

(** The red channel of every pixel is at most 255. *)
Definition red_bounded (a : buffer) : Prop :=
  Forall (Forall (λ p, red p ≤ 255)) a.

Definition achromatic (p : pixel) : Prop := green p = red p ∧ blue p = red p.

(** What one call may do to a pixel: leave it, or make it grey and no
    darker than its red channel was. *)
Definition brightened (p p' : pixel) : Prop :=
  red p ≤ red p' ∧ (p' = p ∨ achromatic p').

(** [(px, py)] lies on the canvas of [self]. *)
Definition on_canvas (self : StarfieldGenerator) (px py : Z) : Prop :=
  0 ≤ px < width self ∧ 0 ≤ py < height self.

(** The state a call keeps: red stays bounded, and every pixel of the
    buffer the call started from is still there, [brightened]. *)
Definition brightened_from (a0 a : buffer) : Prop :=
  red_bounded a
  ∧ ∀ r c p, pixel_at a0 r c = Some p →
      ∃ p', pixel_at a r c = Some p' ∧ brightened p p'.

(** The writes of one ray, in the order of the inner loop: target
    column, target row and value added. *)
Definition ray (x y len : Z) (val : Z → Z) (d : Z * Z) : list (Z * Z * Z) :=
  (λ i, (x + d.1 * i, y + d.2 * i, val i)) <$> range 1 len.

(** The writes of the rays along [dirs], in the order of the two loops. *)
Definition rays (x y len : Z) (val : Z → Z) (dirs : list (Z * Z))
  : list (Z * Z * Z) :=
  dirs ≫= ray x y len val.

(** All writes of one call with brightness above 9. *)
Definition spike_steps (x y : Z) (b : pyfloat) : list (Z * Z * Z) :=
  rays x y (spike_length b) (cardinal_spike_val b) cardinal_dirs
  ++ (if float_gt b 9.5%Q
      then rays x y (floor_div (spike_length b) 2) (diagonal_spike_val b)
             diagonal_dirs
      else []).

(** One write. *)
Definition step (self : StarfieldGenerator) (t : Z * Z * Z) : stmt :=
  brighten self t.1.1 t.1.2 t.2.

(** The row and column of the array that a write on the canvas hits. *)
Definition cell (t : Z * Z * Z) : nat * nat := (Z.to_nat t.1.2, Z.to_nat t.1.1).

(** The pixels one ray aims at. *)
Definition ray_targets (x y len : Z) (d : Z * Z) : list (Z * Z) :=
  (λ i, (x + d.1 * i, y + d.2 * i)) <$> range 1 len.

Definition eight_dirs : list (Z * Z) := cardinal_dirs ++ diagonal_dirs.

(** The pixels a glyph may touch: the point, the disc, or the disc and
    the ring around it. *)
Definition star_footprint (ellipse_fill ellipse_outline : Z → Z → Z → Z → Z → Z → bool)
    (x y : Z) (b : pyfloat) (px py : Z) : bool :=
  if float_lt b 3%Q then bool_decide (px = x ∧ py = y)
  else if float_lt b 6%Q then ellipse_fill (x - 1) (y - 1) (x + 1) (y + 1) px py
  else
    let radius := star_radius b in
    ellipse_fill (x - radius) (y - radius) (x + radius) (y + radius) px py
    || (float_gt b 8%Q
        && ellipse_outline (x - radius - 1) (y - radius - 1)
             (x + radius + 1) (y + radius + 1) px py).

(** A rasteriser that stays inside the bounding box it is given. *)
Definition inside_bbox (mask : Z → Z → Z → Z → Z → Z → bool) : Prop :=
  ∀ x0 y0 x1 y1 px py,
    mask x0 y0 x1 y1 px py = true → x0 ≤ px ≤ x1 ∧ y0 ≤ py ≤ y1.

(** [(px, py)] is at most [n] pixels away from [(x, y)] on both axes. *)
Definition within (n x y px py : Z) : Prop :=
  x - n ≤ px ≤ x + n ∧ y - n ≤ py ≤ y + n.

(** A generator whose [randint] stays in the range it is given. *)
Definition randint_in_range {rng : Type} (randint : Z → Z → rng → Z * rng) : Prop :=
  ∀ a b s, a ≤ b → a ≤ (randint a b s).1 ≤ b.

(** A star of [generate]: on the canvas, with a brightness that the
    sampler returned from some state of the generator. *)
Definition sampled_star {rng : Type} (random : rng → pyfloat * rng)
    (pow : pyfloat → pyfloat → pyfloat) (self : StarfieldGenerator)
    (st : star) : Prop :=
  0 ≤ st.1.1 < width self ∧ 0 ≤ st.1.2 < height self
  ∧ ∃ s0, st.2 = (generate_star_brightness rng random pow s0).1.

(** The characters that [hex_digit] accepts. *)
Definition hex_chars : list ascii :=
  list_ascii_of_string "0123456789abcdefABCDEF".

(** A string of six characters. *)
Definition six (c1 c2 c3 c4 c5 c6 : ascii) : string :=
  String c1 (String c2 (String c3 (String c4 (String c5 (String c6 ""))))).

(** The distribution function of the power law with density proportional
    to [x^(- alpha)] on [[x_min, x_max]]. *)
Definition power_law_cdf (alpha x_min x_max x : R) : R :=
  ((Rpower x_min (1 - alpha) - Rpower x (1 - alpha))
   / (Rpower x_min (1 - alpha) - Rpower x_max (1 - alpha)))%R.

(** All writes of pass 2 for a list of stars, in the order of the pass:
    only a star brighter than 9 writes anything. *)
Definition pass_steps (stars : list star) : list (Z * Z * Z) :=
  stars ≫= (λ st : star,
    if float_gt st.2 9%Q then spike_steps st.1.1 st.1.2 st.2 else []).

(** The values of the writes among [ops] that land on the canvas in row
    [r], column [c]. *)
Definition hits (self : StarfieldGenerator) (ops : list (Z * Z * Z))
    (r c : nat) : list Z :=
  (filter (λ t : Z * Z * Z,
     (0 ≤ t.1.1 < width self ∧ 0 ≤ t.1.2 < height self) ∧ cell t = (r, c))
     ops).*2.

Definition sum_list (vs : list Z) : Z := foldr Z.add 0 vs.

(** A pixel after the writes with values [vs] landed on it: untouched
    when there is none, else grey, the sum added to its red channel and
    clamped. *)
Definition composite (vs : list Z) (p : pixel) : pixel :=
  match vs with
  | [] => p
  | _ :: _ => grey (Z.min 255 (red p + sum_list vs))
  end.

(** The generator that [main] builds from the parsed size and the
    arguments. *)
Definition generator_of (w h : Z) (args : argparse.Namespace)
  : StarfieldGenerator :=
  {| width := w; height := h; density := argparse.density args;
     background := argparse.background args |}.

(** A string of digits. *)
Definition digits (ds : list ascii) : Prop := Forall (λ c, is_digit c = true) ds.

(** [l] starts with the digits [g1], an 'x' or a ':', and the digits
    [g2]: the pattern of [parse_size] matches at the start of [l] with
    these two groups. *)
Definition size_prefix (l g1 g2 : list ascii) : Prop :=
  ∃ sep rest,
    l = g1 ++ sep :: g2 ++ rest ∧ g1 ≠ [] ∧ g2 ≠ [] ∧ digits g1 ∧ digits g2
    ∧ (sep = "x"%char ∨ sep = ":"%char).

(** [l] does not go on with a digit. *)
Definition no_digit_ahead (l : list ascii) : Prop :=
  ∀ c l', l = c :: l' → is_digit c = false.

(** [int] converts a string of this length. *)
Definition within_digit_limit (limit : nat) (ds : list ascii) : Prop :=
  limit = 0%nat ∨ (length ds ≤ limit)%nat.

(** Characters with a code below 128, and the list of them. *)
Definition is_ascii (c : ascii) : Prop := (nat_of_ascii c < 128)%nat.

Definition ascii_chars : list ascii := ascii_of_nat <$> seq 0 128.

(** The value of a colour pair: two hexadecimal digits; one digit after
    a sign or a blank; or one digit before a blank.  A blank is a
    character that [is_space] accepts. *)
Definition pair_channel (c1 c2 : ascii) : option Z :=
  match hex_digit c1, hex_digit c2 with
  | Some d1, Some d2 => Some (16 * d1 + d2)
  | None, Some d2 =>
      if Ascii.eqb c1 "-" then Some (- d2)
      else if Ascii.eqb c1 "+" || is_space c1 then Some d2
      else None
  | Some d1, None => if is_space c2 then Some d1 else None
  | None, None => None
  end.

(** The channel stored for a digit [d] behind the character [p]: a
    negative value is clipped to 0. *)
Definition signed_channel (p : ascii) (d : Z) : Z :=
  if Ascii.eqb p "-" then 0 else d.

Definition option_Z_eqb (a b : option Z) : bool :=
  match a, b with
  | Some x, Some y => x =? y
  | None, None => true
  | _, _ => false
  end.

(** *** Vocabulary of the statements in binary64 *)

(** A call that returned a value. *)
Definition defined {A} (r : result A) : Prop := ∃ v, r = Ok v.

Definition is_ok {A} (r : result A) : bool :=
  match r with
  | Ok _ => true
  | Raise _ => false
  end.

(** The value of a call that returned one. *)
Definition value_or_zero (r : result Z) : Z :=
  match r with
  | Ok v => v
  | Raise _ => 0
  end.

(** No [int(...)] inside the two loops of a call raises: every product
    is a finite double. *)
Definition spikes_defined (b : float) (B L : Z) : Prop :=
  (∀ i, 1 ≤ i < L → defined (Double.cardinal_spike_val b B L i))
  ∧ ((9.5 <? b)%float = true →
     ∀ i, 1 ≤ i < floor_div L 2 → defined (Double.diagonal_spike_val b B L i)).

(** All writes of one call in binary64, with base intensity [B] and
    spike length [L], in the order of the loops. *)
Definition double_spike_steps (x y : Z) (b : float) (B L : Z)
  : list (Z * Z * Z) :=
  rays x y L (λ i, value_or_zero (Double.cardinal_spike_val b B L i))
    cardinal_dirs
  ++ (if (9.5 <? b)%float
      then rays x y (floor_div L 2)
             (λ i, value_or_zero (Double.diagonal_spike_val b B L i))
             diagonal_dirs
      else []).

(** A star of [generate] in binary64: on the canvas, with a brightness
    that the sampler returned from some state of the generator. *)
Definition double_sampled_star {rng : Type} (random : rng → float * rng)
    (pow : float → float → float) (self : StarfieldGenerator)
    (st : Double.star) : Prop :=
  0 ≤ st.1.1 < width self ∧ 0 ≤ st.1.2 < height self
  ∧ ∃ s0, st.2 = (Double.generate_star_brightness rng random pow s0).1.

(** ** Sample inputs *)

(** Two backgrounds: green behind two '#', and five digits only. *)
Definition green_canvas : StarfieldGenerator :=
  {| width := 3; height := 2; density := 0.05%Q; background := "##00ff00" |}.

Definition short_canvas : StarfieldGenerator :=
  {| width := 3; height := 2; density := 0.05%Q; background := "#12345" |}.

(** A background of three pairs that are not two digits each. *)
Definition signed_canvas : StarfieldGenerator :=
  {| width := 2; height := 1; density := 0.05%Q; background := "#+f-a 3" |}.



(** A sample generator: a linear congruential sequence on [Z]. *)
Definition lcg_next (s : Z) : Z := (1103515245 * s + 12345) mod 2147483648.

Definition lcg_random (s : Z) : pyfloat * Z :=
  (inject_Z (lcg_next s) / 2147483648, lcg_next s)%Q.

Definition lcg_randint (a b : Z) (s : Z) : Z * Z :=
  (a + lcg_next s mod (b - a + 1), lcg_next s).

(** A sample power: exact on integer exponents, the exponent cut to an
    integer otherwise. *)
Definition pow_int_exponent (x y : pyfloat) : pyfloat := (x ^ Qfloor y)%Q.

Definition no_image (path : string) (w h : Z) : option buffer := None.



(** Sample rasterisers: the pixels of the bounding box whose centre
    lies in the inscribed ellipse, and those of them with a neighbour
    outside it. *)
Definition disc_fill (x0 y0 x1 y1 px py : Z) : bool :=
  bool_decide (x0 ≤ px ≤ x1 ∧ y0 ≤ py ≤ y1)
  && ((2 * px - x0 - x1) ^ 2 * (y1 - y0) ^ 2
      + (2 * py - y0 - y1) ^ 2 * (x1 - x0) ^ 2
      <=? (x1 - x0) ^ 2 * (y1 - y0) ^ 2).

Definition disc_outline (x0 y0 x1 y1 px py : Z) : bool :=
  disc_fill x0 y0 x1 y1 px py
  && negb (disc_fill x0 y0 x1 y1 (px - 1) py && disc_fill x0 y0 x1 y1 (px + 1) py
           && disc_fill x0 y0 x1 y1 px (py - 1)
           && disc_fill x0 y0 x1 y1 px (py + 1)).



(** A canvas of three pixels in one row, on a green background. *)
Definition small_canvas : StarfieldGenerator :=
  {| width := 3; height := 1; density := 0.05%Q; background := "#00c800" |}.

Definition green_row : buffer := [[(0, 200, 0); (0, 200, 0); (0, 200, 0)]].

(** A canvas two pixels wider than [green_row]. *)
Definition wide_canvas : StarfieldGenerator :=
  {| width := 5; height := 1; density := 0.05%Q; background := "#00c800" |}.

(** A canvas of 20 by 20 pixels, all black. *)
Definition square_canvas : StarfieldGenerator :=
  {| width := 20; height := 20; density := 0.05%Q; background := "#000000" |}.

Definition black_square : buffer := replicate 20 (replicate 20 (0, 0, 0)).

(** Arguments for that canvas, and a [save] that always succeeds. *)
Definition square_args : argparse.Namespace :=
  {| argparse.size := "20x20"; argparse.density := 0.05%Q;
     argparse.background := "#000000"; argparse.output := "starfield.png" |}.

Definition save_ok (path : string) (img : buffer) : bool := true.

(** Arguments with a density above 1. *)
Definition dense_args : argparse.Namespace :=
  {| argparse.size := "20x20"; argparse.density := 1.5%Q;
     argparse.background := "#000000"; argparse.output := "starfield.png" |}.

(** A sample generator over the reals: every draw is one half. *)
Definition half_random (s : nat) : R * nat := ((1 / 2)%R, S s).

(** A sample generator of doubles, and a sample power: the reciprocal
    for a negative exponent, the base itself otherwise. *)
Definition lcg_random_double (s : Z) : float * Z :=
  ((Double.float_of_int (lcg_next s) / 2147483648)%float, lcg_next s).

Definition pow_sample (x y : float) : float :=
  if (y <? 0)%float then (1 / x)%float else x.

(** A canvas of three pixels in one row, black. *)
Definition third_canvas : StarfieldGenerator :=
  {| width := 3; height := 1; density := 0%Q; background := "#000000" |}.

(** * Properties *)

(** ** Truncation *)

Lemma int_of_float_nonneg (f : pyfloat) : (0 <= f)%Q → 0 ≤ int_of_float f.
Proof.
  destruct f as [n d]. unfold Qle, int_of_float. simpl. intros Hn.
  apply Z.quot_pos; lia.
Qed.

Lemma int_of_float_floor (f : pyfloat) : (0 <= f)%Q → int_of_float f = Qfloor f.
Proof.
  destruct f as [n d]. unfold Qle, int_of_float. simpl. intros Hn.
  apply Z.quot_div_nonneg; lia.
Qed.

Lemma int_of_float_mono (f g : pyfloat) :
  (0 <= f)%Q → (f <= g)%Q → int_of_float f ≤ int_of_float g.
Proof.
  intros Hf Hfg. rewrite !int_of_float_floor; [|Lqa.lra|Lqa.lra].
  by apply Qfloor_resp_le.
Qed.

Lemma int_of_float_inject (n : Z) : int_of_float (inject_Z n) = n.
Proof. unfold int_of_float. simpl. apply Z.quot_1_r. Qed.

Lemma float_le_true (a b : pyfloat) : float_le a b = true ↔ (a <= b)%Q.
Proof. apply Qle_bool_iff. Qed.

Lemma float_le_false (a b : pyfloat) : float_le a b = false ↔ (b < a)%Q.
Proof.
  unfold float_le. split.
  - intros H. apply Qnot_le_lt. intros Hle. apply Qle_bool_iff in Hle. congruence.
  - intros H. destruct (Qle_bool a b) eqn:E; [|done].
    apply Qle_bool_iff in E. Lqa.lra.
Qed.

Lemma float_gt_true (a b : pyfloat) : float_gt a b = true ↔ (b < a)%Q.
Proof.
  unfold float_gt, float_lt. rewrite negb_true_iff. apply float_le_false.
Qed.

Lemma float_gt_false (a b : pyfloat) : float_gt a b = false ↔ (a <= b)%Q.
Proof.
  unfold float_gt, float_lt. rewrite negb_false_iff. apply float_le_true.
Qed.

(** ** Reading and writing pixels *)

Lemma getitem_pixel_at (a : buffer) (py px : Z) :
  getitem a py px = pixel_at a (Z.to_nat py) (Z.to_nat px).
Proof. reflexivity. Qed.

Lemma pixel_at_setitem_eq (a : buffer) (py px : Z) (p : pixel) :
  is_Some (getitem a py px) →
  pixel_at (setitem a py px p) (Z.to_nat py) (Z.to_nat px) = Some p.
Proof.
  unfold getitem, setitem, pixel_at. intros [q Hq].
  rewrite list_lookup_alter_eq.
  destruct (a !! Z.to_nat py) as [row|] eqn:Hrow; simpl in *; [|done].
  apply list_lookup_insert_eq. by eapply lookup_lt_Some.
Qed.

Lemma pixel_at_setitem_ne (a : buffer) (py px : Z) (p : pixel) (r c : nat) :
  (r, c) ≠ (Z.to_nat py, Z.to_nat px) →
  pixel_at (setitem a py px p) r c = pixel_at a r c.
Proof.
  unfold setitem, pixel_at. intros Hne.
  destruct (decide (Z.to_nat py = r)) as [Hr|Hr].
  - subst r. rewrite list_lookup_alter_eq.
    destruct (a !! Z.to_nat py) as [row|]; simpl; [|reflexivity].
    apply list_lookup_insert_ne. intros Hc. apply Hne. by rewrite Hc.
  - by rewrite list_lookup_alter_ne.
Qed.

Lemma shape_setitem (a : buffer) (h w py px : Z) (p : pixel) :
  shape a h w → shape (setitem a py px p) h w.
Proof.
  unfold shape, setitem. intros [Hh Hw]. split.
  - by rewrite length_alter.
  - apply Forall_alter; [done|]. intros row _ Hrow. by rewrite length_insert.
Qed.

Lemma shape_getitem (a : buffer) (h w py px : Z) :
  shape a h w → 0 ≤ py < h → 0 ≤ px < w → is_Some (getitem a py px).
Proof.
  unfold shape, getitem, pixel_at. intros [Hh Hw] Hpy Hpx.
  destruct (lookup_lt_is_Some_2 a (Z.to_nat py)) as [row Hrow]; [lia|].
  rewrite Hrow. simpl. apply lookup_lt_is_Some_2.
  rewrite Forall_lookup in Hw. specialize (Hw _ _ Hrow). simpl in Hw. lia.
Qed.

Lemma pixel_at_shape (a : buffer) (h w : Z) (r c : nat) :
  shape a h w → is_Some (pixel_at a r c) → Z.of_nat r < h ∧ Z.of_nat c < w.
Proof.
  unfold shape, pixel_at. intros [Hh Hw] [p Hp].
  destruct (a !! r) as [row|] eqn:Hrow; simpl in Hp; [|done].
  rewrite Forall_lookup in Hw. specialize (Hw _ _ Hrow). simpl in Hw.
  apply lookup_lt_Some in Hrow, Hp. lia.
Qed.

(** ** Sequencing and loops *)

Lemma then_skip_l (s : stmt) (a : buffer) : (skip >> s) a = s a.
Proof. reflexivity. Qed.

Lemma for_each_app {A} (l1 l2 : list A) (body : A → stmt) (a : buffer) :
  for_each (l1 ++ l2) body a = (for_each l1 body >> for_each l2 body) a.
Proof.
  revert a. induction l1 as [|v l1 IH]; intros a; simpl; [reflexivity|].
  unfold then_ in *. destruct (body v a) as [[e|] a']; [reflexivity|].
  apply IH.
Qed.

(** A property of the buffer that every iteration preserves holds of
    the buffer the loop leaves behind, whether or not it raised. *)
Lemma for_each_preserves {A} (P : buffer → Prop) (l : list A) (body : A → stmt) :
  (∀ v a, v ∈ l → P a → P (body v a).2) →
  ∀ a, P a → P (for_each l body a).2.
Proof.
  induction l as [|v l IH]; intros Hbody a Ha; simpl; [done|].
  unfold then_. pose proof (Hbody v a ltac:(left) Ha) as Hv.
  destruct (body v a) as [[e|] a']; simpl in *; [done|].
  apply IH; [|done]. intros u b Hu. apply Hbody. by right.
Qed.

Lemma then_preserves (P : buffer → Prop) (s1 s2 : stmt) (a : buffer) :
  P (s1 a).2 → (∀ b, P b → P (s2 b).2) → P ((s1 >> s2) a).2.
Proof.
  unfold then_. intros H1 H2. destruct (s1 a) as [[e|] a']; simpl in *; auto.
Qed.

(** ** Arithmetic of the spike parameters *)

Lemma true_div_le_1 (i n : Z) : 0 < n → i ≤ n → (true_div i n <= 1)%Q.
Proof.
  intros Hn Hi. unfold true_div.
  apply Qle_shift_div_r.
  - replace 0%Q with (inject_Z 0) by reflexivity. by rewrite <- Zlt_Qlt.
  - rewrite Qmult_1_l. by rewrite <- Zle_Qle.
Qed.

Lemma base_intensity_nonneg (b : pyfloat) : (0 <= b)%Q → 0 ≤ base_intensity b.
Proof.
  intros Hb. apply int_of_float_nonneg.
  apply Qmult_le_0_compat; [|Lqa.lra].
  apply Qle_shift_div_l; Lqa.lra.
Qed.

Lemma spike_intensity_eq (b : pyfloat) : (spike_intensity b == b - 9)%Q.
Proof. unfold spike_intensity. field. Qed.

Lemma spike_product_nonneg (b fade : pyfloat) :
  (9 < b)%Q → (0 <= fade)%Q →
  (0 <= float_of_int (base_intensity b) * spike_intensity b * fade)%Q.
Proof.
  intros Hb Hfade.
  apply Qmult_le_0_compat; [|done].
  apply Qmult_le_0_compat.
  - unfold float_of_int. replace 0%Q with (inject_Z 0) by reflexivity.
    rewrite <- Zle_Qle. apply base_intensity_nonneg. Lqa.lra.
  - rewrite spike_intensity_eq. Lqa.lra.
Qed.

Lemma cardinal_spike_val_nonneg (b : pyfloat) (i : Z) :
  (9 < b)%Q → 1 ≤ i < spike_length b → 0 ≤ cardinal_spike_val b i.
Proof.
  intros Hb Hi. unfold cardinal_spike_val. apply int_of_float_nonneg.
  apply spike_product_nonneg; [done|].
  pose proof (true_div_le_1 i (spike_length b) ltac:(lia) ltac:(lia)). Lqa.lra.
Qed.

Lemma diagonal_spike_val_nonneg (b : pyfloat) (i : Z) :
  (9 < b)%Q → 1 ≤ i < floor_div (spike_length b) 2 →
  0 ≤ diagonal_spike_val b i.
Proof.
  intros Hb Hi. unfold diagonal_spike_val. apply int_of_float_nonneg.
  apply Qmult_le_0_compat; [|Lqa.lra].
  apply spike_product_nonneg; [done|].
  pose proof (true_div_le_1 i (floor_div (spike_length b) 2)
                ltac:(lia) ltac:(lia)). Lqa.lra.
Qed.

Lemma elem_of_range (lo hi i : Z) : i ∈ range lo hi ↔ lo ≤ i < hi.
Proof. unfold range. rewrite elem_of_seqZ. lia. Qed.

(** ** One step of a ray *)

Section SpikeProperties.

Variable self : StarfieldGenerator.

Lemma brighten_off_canvas (px py s : Z) (a : buffer) :
  ¬ on_canvas self px py → brighten self px py s a = (None, a).
Proof.
  unfold brighten, on_canvas. intros Hout.
  destruct (bool_decide_reflect (0 ≤ px < width self));
    destruct (bool_decide_reflect (0 ≤ py < height self)); simpl; tauto.
Qed.

Lemma brighten_on_canvas (px py s : Z) (a : buffer) (current : pixel) :
  on_canvas self px py → getitem a py px = Some current →
  brighten self px py s a
  = (None, setitem a py px (grey (Z.min 255 (red current + s)))).
Proof.
  unfold brighten, on_canvas. intros [Hx Hy] Hget.
  rewrite !bool_decide_eq_true_2 by done. simpl. by rewrite Hget.
Qed.

Lemma brighten_index_error (px py s : Z) (a : buffer) :
  on_canvas self px py → getitem a py px = None →
  brighten self px py s a = (Some IndexError, a).
Proof.
  unfold brighten, on_canvas. intros [Hx Hy] Hget.
  rewrite !bool_decide_eq_true_2 by done. simpl. by rewrite Hget.
Qed.

(** The three ways a step can go. *)
Lemma brighten_cases (px py s : Z) (a : buffer) :
  (brighten self px py s a).2 = a
  ∨ ∃ current, on_canvas self px py ∧ getitem a py px = Some current
      ∧ brighten self px py s a
        = (None, setitem a py px (grey (Z.min 255 (red current + s)))).
Proof.
  destruct (decide (on_canvas self px py)) as [Hin|Hout].
  - destruct (getitem a py px) as [current|] eqn:Hget.
    + right. exists current. eauto using brighten_on_canvas.
    + left. by rewrite brighten_index_error.
  - left. by rewrite brighten_off_canvas.
Qed.

(** A property kept by every step that adds a non-negative value is
    kept by the whole call. *)
Lemma spikes_preserve (P : buffer → Prop) (x y : Z) (b : pyfloat) :
  (∀ px py s a, 0 ≤ s → P a → P (brighten self px py s a).2) →
  ∀ a, P a → P (draw_diffraction_spikes self x y b a).2.
Proof.
  intros Hstep a Ha. unfold draw_diffraction_spikes.
  destruct (float_le b 9%Q) eqn:Hle; [done|].
  apply float_le_false in Hle.
  apply then_preserves.
  - unfold cardinal_pass. apply for_each_preserves; [|done].
    intros d a1 _ Ha1. apply for_each_preserves; [|done].
    intros i a2 Hi Ha2. apply Hstep; [|done].
    apply cardinal_spike_val_nonneg; [done|]. by apply elem_of_range.
  - intros a1 Ha1. destruct (float_gt b 9.5%Q); [|done].
    unfold diagonal_pass. apply for_each_preserves; [|done].
    intros d a2 _ Ha2. apply for_each_preserves; [|done].
    intros i a3 Hi Ha3. apply Hstep; [|done].
    apply diagonal_spike_val_nonneg; [done|]. by apply elem_of_range.
Qed.

End SpikeProperties.

Lemma channels_in_range_lookup (a : buffer) :
  channels_in_range a ↔ ∀ r c p, pixel_at a r c = Some p → pixel_in_range p.
Proof.
  unfold channels_in_range, pixel_at. rewrite Forall_lookup. split.
  - intros H r c p Hp.
    destruct (a !! r) as [row|] eqn:Hrow; simpl in Hp; [|done].
    specialize (H _ _ Hrow). rewrite Forall_lookup in H. eauto.
  - intros H r row Hrow. rewrite Forall_lookup. intros c p Hp.
    apply (H r c). by rewrite Hrow.
Qed.

Lemma red_bounded_lookup (a : buffer) :
  red_bounded a ↔ ∀ r c p, pixel_at a r c = Some p → red p ≤ 255.
Proof.
  unfold red_bounded, pixel_at. rewrite Forall_lookup. split.
  - intros H r c p Hp.
    destruct (a !! r) as [row|] eqn:Hrow; simpl in Hp; [|done].
    specialize (H _ _ Hrow). rewrite Forall_lookup in H. eauto.
  - intros H r row Hrow. rewrite Forall_lookup. intros c p Hp.
    apply (H r c). by rewrite Hrow.
Qed.

(** Reading any pixel after a write. *)
Lemma pixel_at_setitem (a : buffer) (py px : Z) (p : pixel) (r c : nat) :
  is_Some (getitem a py px) →
  pixel_at (setitem a py px p) r c
  = if decide ((r, c) = (Z.to_nat py, Z.to_nat px)) then Some p
    else pixel_at a r c.
Proof.
  intros Hsome. destruct (decide _) as [Heq|Hne].
  - inversion Heq; subst. by apply pixel_at_setitem_eq.
  - by apply pixel_at_setitem_ne.
Qed.

(** ** The compositor below its threshold *)

Lemma spikes_skip_le_9 (self : StarfieldGenerator) (x y : Z) (b : pyfloat)
    (a : buffer) :
  (b <= 9)%Q → draw_diffraction_spikes self x y b a = (None, a).
Proof.
  intros Hb. unfold draw_diffraction_spikes.
  apply float_le_true in Hb. by rewrite Hb.
Qed.

Lemma spike_pass_cons (self : StarfieldGenerator) (x y : Z) (b : pyfloat)
    (stars : list star) (a : buffer) :
  spike_pass self ((x, y, b) :: stars) a
  = ((if float_gt b 8%Q then draw_diffraction_spikes self x y b else skip)
     >> spike_pass self stars) a.
Proof. reflexivity. Qed.

(** Pass 2 is the pass over the stars brighter than 9 alone. *)
Lemma spike_pass_filter (self : StarfieldGenerator) (stars : list star)
    (a : buffer) :
  spike_pass self stars a
  = spike_pass self (List.filter (λ s : star, float_gt s.2 9%Q) stars) a.
Proof.
  revert a. induction stars as [|[[x y] b] stars IH]; intros a; [done|].
  cbn [List.filter snd]. destruct (float_gt b 9%Q) eqn:Hgt.
  - rewrite !spike_pass_cons. unfold then_.
    destruct (float_gt b 8%Q).
    + destruct (draw_diffraction_spikes self x y b a) as [[e|] a']; [done|].
      apply IH.
    + apply IH.
  - rewrite spike_pass_cons, <- IH. apply float_gt_false in Hgt.
    unfold then_. destruct (float_gt b 8%Q); [|done].
    by rewrite spikes_skip_le_9.
Qed.

(** C1: with brightness at most 9 the compositor returns the buffer as
    it got it, and pass 2 of [generate], which calls it for the stars
    brighter than 8, does exactly what it would do for the stars
    brighter than 9: a star with brightness in (8, 9] changes nothing. *)
Theorem spikes_noop_up_to_9 (self : StarfieldGenerator) (a : buffer) (x y : Z)
    (b : pyfloat) (stars : list star) (Hb : (b <= 9)%Q) :
  draw_diffraction_spikes self x y b a = (None, a)
  ∧ spike_pass self ((x, y, b) :: stars) a = spike_pass self stars a
  ∧ spike_pass self stars a
    = spike_pass self (List.filter (λ s : star, float_gt s.2 9%Q) stars) a.
Proof.
  split; [by apply spikes_skip_le_9|]. split; [|apply spike_pass_filter].
  rewrite spike_pass_cons. unfold then_.
  destruct (float_gt b 8%Q); [|done]. by rewrite spikes_skip_le_9.
Qed.

Lemma spikes_noop_up_to_9_witness :
  (8.5 <= 9)%Q
  ∧ draw_diffraction_spikes small_canvas 1 0 8.5%Q green_row = (None, green_row).
Proof.
  assert (H : (8.5 <= 9)%Q) by (vm_compute; discriminate).
  split; [exact H|].
  exact (proj1 (spikes_noop_up_to_9 small_canvas green_row 1 0 8.5%Q [] H)).
Defined.

(** ** Clamping *)

Lemma brighten_channels_in_range (self : StarfieldGenerator) (px py s : Z)
    (a : buffer) :
  0 ≤ s → channels_in_range a → channels_in_range (brighten self px py s a).2.
Proof.
  intros Hs Ha.
  destruct (brighten_cases self px py s a) as [->|(cur & _ & Hget & ->)]; [done|].
  simpl. rewrite channels_in_range_lookup in *. intros r c p.
  rewrite pixel_at_setitem by (by rewrite Hget).
  destruct (decide _) as [_|_]; [|by apply Ha].
  intros [= <-]. unfold getitem in Hget. apply Ha in Hget.
  destruct Hget as [[Hr0 Hr1] _].
  unfold pixel_in_range, byte_range, grey, red, green, blue in *. simpl. lia.
Qed.

(** C6: a buffer whose channels are bytes still has only bytes in it
    after the compositor ran, whatever the position and brightness. *)
Theorem spikes_keep_channels_in_range (self : StarfieldGenerator) (a : buffer)
    (x y : Z) (b : pyfloat) :
  channels_in_range a →
  channels_in_range (draw_diffraction_spikes self x y b a).2.
Proof.
  apply spikes_preserve. intros px py s a'. apply brighten_channels_in_range.
Qed.

Lemma green_row_in_range : channels_in_range green_row.
Proof.
  unfold channels_in_range, green_row.
  apply Forall_cons_2; [|apply Forall_nil_2].
  repeat (apply Forall_cons_2;
          [unfold pixel_in_range, byte_range, red, green, blue; simpl; lia|]).
  apply Forall_nil_2.
Defined.

Lemma spikes_keep_channels_in_range_witness :
  channels_in_range green_row
  ∧ channels_in_range (draw_diffraction_spikes small_canvas 0 0 9.5%Q green_row).2.
Proof.
  split; [exact green_row_in_range|].
  exact (spikes_keep_channels_in_range small_canvas green_row 0 0 9.5%Q
           green_row_in_range).
Defined.

(** ** Brightening *)

Lemma green_row_red_bounded : red_bounded green_row.
Proof.
  unfold red_bounded, green_row.
  apply Forall_cons_2; [|apply Forall_nil_2].
  repeat (apply Forall_cons_2; [unfold red; simpl; lia|]).
  apply Forall_nil_2.
Defined.

(** The claim C7 as it is written fails on a coloured buffer: a spike of
    a star of brightness 9.5 at (0, 0) reads the red channel 0 of the
    green pixel (0, 200, 0) next to it and stores (112, 112, 112), so the
    green channel drops from 200 to 112. *)
Lemma spikes_darken_green_channel :
  pixel_at green_row 0 1 = Some (0, 200, 0)
  ∧ pixel_at (draw_diffraction_spikes small_canvas 0 0 9.5%Q green_row).2 0 1
    = Some (112, 112, 112)
  ∧ ¬ (green (0, 200, 0) ≤ green (112, 112, 112)).
Proof.
  split; [reflexivity|]. split; [vm_compute; reflexivity|].
  unfold green. simpl. lia.
Qed.

Lemma brightened_from_refl (a : buffer) : red_bounded a → brightened_from a a.
Proof.
  intros Ha. split; [done|]. intros r c p Hp. exists p.
  split; [done|]. split; [lia|by left].
Qed.

Lemma brighten_brightened_from (self : StarfieldGenerator) (a0 : buffer)
    (px py s : Z) (a : buffer) :
  0 ≤ s → brightened_from a0 a →
  brightened_from a0 (brighten self px py s a).2.
Proof.
  intros Hs [Hred Hpix].
  destruct (brighten_cases self px py s a) as [->|(cur & _ & Hget & ->)];
    [done|].
  simpl. rewrite red_bounded_lookup in Hred.
  assert (Hcur : red cur ≤ 255) by (by eapply Hred).
  split.
  - rewrite red_bounded_lookup. intros r c p.
    rewrite pixel_at_setitem by (by rewrite Hget).
    destruct (decide _) as [_|_]; [|by apply Hred].
    intros [= <-]. unfold grey, red. simpl. lia.
  - intros r c p Hp. destruct (Hpix r c p Hp) as (p1 & Hp1 & Hle & _).
    rewrite pixel_at_setitem by (by rewrite Hget).
    destruct (decide _) as [Heq|_].
    + eexists. split; [done|]. inversion Heq; subst.
      unfold getitem in Hget. rewrite Hget in Hp1. injection Hp1 as <-.
      split; [unfold grey, red in *; simpl; lia|].
      right. by split.
    + exists p1. split; [done|]. by destruct (Hpix r c p Hp) as (? & ? & ?);
        simplify_eq.
Qed.

(** C7, amended: on a buffer whose red channels are at most 255 the
    compositor never lowers a red channel, and every pixel it changes
    becomes grey; so no channel of a pixel that was grey is lowered.
    The other channels of a coloured pixel may drop, as the
    counterexample shows. *)
Theorem spikes_brighten (self : StarfieldGenerator) (a : buffer) (x y : Z)
    (b : pyfloat) (r c : nat) (p : pixel) :
  red_bounded a → pixel_at a r c = Some p →
  ∃ p', pixel_at (draw_diffraction_spikes self x y b a).2 r c = Some p'
    ∧ red p ≤ red p'
    ∧ (p' = p ∨ achromatic p')
    ∧ (achromatic p → green p ≤ green p' ∧ blue p ≤ blue p').
Proof.
  intros Hred Hp.
  assert (H : brightened_from a (draw_diffraction_spikes self x y b a).2).
  { apply (spikes_preserve self (brightened_from a)).
    - intros px py s a'. apply brighten_brightened_from.
    - by apply brightened_from_refl. }
  destruct H as [_ H]. destruct (H r c p Hp) as (p' & Hp' & Hle & Hor).
  exists p'. repeat split; try done.
  - destruct Hor as [->|[Hg _]]; [lia|]. destruct H0 as [Hg0 _]. lia.
  - destruct Hor as [->|[_ Hb]]; [lia|]. destruct H0 as [_ Hb0]. lia.
Qed.

Lemma spikes_brighten_witness :
  red_bounded green_row ∧ pixel_at green_row 0 1 = Some (0, 200, 0)
  ∧ ∃ p', pixel_at (draw_diffraction_spikes small_canvas 0 0 9.5%Q green_row).2
            0 1 = Some p'
      ∧ red (0, 200, 0) ≤ red p'
      ∧ (p' = (0, 200, 0) ∨ achromatic p')
      ∧ (achromatic (0, 200, 0) →
         green (0, 200, 0) ≤ green p' ∧ blue (0, 200, 0) ≤ blue p').
Proof.
  split; [exact green_row_red_bounded|]. split; [reflexivity|].
  exact (spikes_brighten small_canvas green_row 0 0 9.5%Q 0 1 (0, 200, 0)
           green_row_red_bounded eq_refl).
Defined.

(** ** The rays as one list of writes *)

Lemma for_each_fmap {A B} (g : A → B) (l : list A) (body : B → stmt)
    (a : buffer) :
  for_each (g <$> l) body a = for_each l (λ v, body (g v)) a.
Proof.
  revert a. induction l as [|v l IH]; intros a; simpl; [done|].
  unfold then_. destruct (body (g v) a) as [[e|] a']; [done|]. apply IH.
Qed.

Lemma for_each_bind {A B} (f : A → list B) (l : list A) (body : B → stmt)
    (a : buffer) :
  for_each (l ≫= f) body a = for_each l (λ v, for_each (f v) body) a.
Proof.
  revert a. induction l as [|v l IH]; intros a; [done|].
  rewrite bind_cons, for_each_app. simpl. unfold then_.
  destruct (for_each (f v) body a) as [[e|] a']; [done|]. apply IH.
Qed.

Lemma for_each_ext {A} (l : list A) (body1 body2 : A → stmt) (a : buffer) :
  (∀ v a', body1 v a' = body2 v a') → for_each l body1 a = for_each l body2 a.
Proof.
  intros Hext. revert a. induction l as [|v l IH]; intros a; simpl; [done|].
  unfold then_. rewrite Hext. destruct (body2 v a) as [[e|] a']; [done|].
  apply IH.
Qed.

Lemma for_each_rays (self : StarfieldGenerator) (x y len : Z) (val : Z → Z)
    (dirs : list (Z * Z)) (a : buffer) :
  for_each dirs (λ d,
    for_each (range 1 len) (λ i,
      brighten self (x + d.1 * i) (y + d.2 * i) (val i))) a
  = for_each (rays x y len val dirs) (step self) a.
Proof.
  unfold rays. rewrite for_each_bind. apply for_each_ext. intros d a'.
  unfold ray. by rewrite for_each_fmap.
Qed.

Lemma spikes_as_steps (self : StarfieldGenerator) (x y : Z) (b : pyfloat)
    (a : buffer) :
  (9 < b)%Q →
  draw_diffraction_spikes self x y b a
  = for_each (spike_steps x y b) (step self) a.
Proof.
  intros Hb. unfold draw_diffraction_spikes, spike_steps.
  apply float_le_false in Hb. rewrite Hb.
  rewrite for_each_app. unfold then_, cardinal_pass, diagonal_pass.
  rewrite for_each_rays.
  destruct (for_each (rays _ _ _ _ _) _ a) as [[e|] a']; [done|].
  destruct (float_gt b 9.5%Q); [|done]. apply for_each_rays.
Qed.

(** ** Running a list of writes *)

Section Steps.

Variable self : StarfieldGenerator.

Lemma cell_inj (t t' : Z * Z * Z) :
  on_canvas self t.1.1 t.1.2 → on_canvas self t'.1.1 t'.1.2 →
  cell t = cell t' → t.1 = t'.1.
Proof.
  destruct t as [[px py] s], t' as [[px' py'] s']. unfold on_canvas, cell.
  simpl. intros [Hx Hy] [Hx' Hy'] [= Hr Hc]. f_equal; lia.
Qed.

Lemma step_off_canvas (t : Z * Z * Z) (a : buffer) :
  ¬ on_canvas self t.1.1 t.1.2 → step self t a = (None, a).
Proof. apply brighten_off_canvas. Qed.

Lemma step_on_canvas (t : Z * Z * Z) (a : buffer) :
  shape a (height self) (width self) → on_canvas self t.1.1 t.1.2 →
  ∃ current, getitem a t.1.2 t.1.1 = Some current
    ∧ step self t a
      = (None, setitem a t.1.2 t.1.1 (grey (Z.min 255 (red current + t.2)))).
Proof.
  intros Hshape Hin.
  destruct (shape_getitem a _ _ t.1.2 t.1.1 Hshape) as [cur Hcur];
    [apply Hin..|].
  exists cur. split; [done|]. by apply brighten_on_canvas.
Qed.

(** On an array of the canvas's shape no write raises. *)
Lemma steps_ok (ops : list (Z * Z * Z)) (a : buffer) :
  shape a (height self) (width self) →
  (for_each ops (step self) a).1 = None
  ∧ shape (for_each ops (step self) a).2 (height self) (width self).
Proof.
  revert a. induction ops as [|t ops IH]; intros a Hshape; [done|].
  simpl. unfold then_.
  destruct (decide (on_canvas self t.1.1 t.1.2)) as [Hin|Hout].
  - destruct (step_on_canvas t a Hshape Hin) as (cur & _ & ->).
    apply IH. by apply shape_setitem.
  - rewrite step_off_canvas by done. by apply IH.
Qed.

(** A pixel that no write aims at keeps its value. *)
Lemma steps_untouched (ops : list (Z * Z * Z)) (a : buffer) (r c : nat) :
  (∀ t, t ∈ ops → on_canvas self t.1.1 t.1.2 → cell t ≠ (r, c)) →
  pixel_at (for_each ops (step self) a).2 r c = pixel_at a r c.
Proof.
  intros Hops.
  apply (for_each_preserves (λ a', pixel_at a' r c = pixel_at a r c)); [|done].
  intros t a' Ht Ha'. unfold step.
  destruct (brighten_cases self t.1.1 t.1.2 t.2 a')
    as [->|(cur & Hin & Hget & ->)]; [done|].
  simpl. rewrite pixel_at_setitem_ne; [done|].
  intros Heq. by apply (Hops t Ht Hin).
Qed.

(** A pixel that exactly one write aims at gets that write's value added
    to the red channel it had before the call. *)
Lemma steps_once (ops : list (Z * Z * Z)) (a : buffer) (px py s : Z) :
  shape a (height self) (width self) → NoDup ops.*1 →
  (px, py, s) ∈ ops → on_canvas self px py →
  ∃ current, getitem a py px = Some current
    ∧ getitem (for_each ops (step self) a).2 py px
      = Some (grey (Z.min 255 (red current + s))).
Proof.
  revert a. induction ops as [|t ops IH]; intros a Hshape Hnodup Hin Hcanvas.
  { by apply elem_of_nil in Hin. }
  rewrite fmap_cons in Hnodup. apply NoDup_cons in Hnodup as [Hfresh Hnodup].
  simpl. unfold then_. apply elem_of_cons in Hin as [<-|Hin].
  - destruct (step_on_canvas (px, py, s) a Hshape Hcanvas) as (cur & Hcur & ->).
    simpl in *. exists cur. split; [done|]. unfold getitem.
    rewrite steps_untouched.
    + apply pixel_at_setitem_eq. by rewrite Hcur.
    + intros t Ht Htin Heq. apply Hfresh.
      apply (cell_inj t (px, py, s)) in Heq; [|done..].
      simpl in Heq. rewrite <- Heq. by apply list_elem_of_fmap_2.
  - destruct (decide (on_canvas self t.1.1 t.1.2)) as [Htin|Htout].
    + destruct (step_on_canvas t a Hshape Htin) as (cur & _ & ->).
      destruct (IH (setitem a t.1.2 t.1.1 (grey (Z.min 255 (red cur + t.2)))))
        as (cur' & Hcur' & Hres); [by apply shape_setitem|done..|].
      exists cur'. split; [|done].
      rewrite <- Hcur'. unfold getitem. symmetry. apply pixel_at_setitem_ne.
      intros Heq. apply Hfresh.
      apply (cell_inj (px, py, s) t) in Heq; [|done..].
      simpl in Heq. rewrite <- Heq.
      by apply (list_elem_of_fmap_2 fst _ (px, py, s)).
    + rewrite step_off_canvas by done. by apply IH.
Qed.

End Steps.

(** ** The rays do not cross *)

Ltac split_elem_of H :=
  repeat (apply elem_of_cons in H as [->|H]); try (by apply elem_of_nil in H).

Lemma ray_point_inj (x y : Z) (d d' : Z * Z) (i j : Z) :
  d ∈ eight_dirs → d' ∈ eight_dirs → 1 ≤ i → 1 ≤ j →
  (x + d.1 * i, y + d.2 * i) = (x + d'.1 * j, y + d'.2 * j) →
  d = d' ∧ i = j.
Proof.
  unfold eight_dirs, cardinal_dirs, diagonal_dirs. simpl.
  intros Hd Hd' Hi Hj [= Hx Hy].
  split_elem_of Hd; split_elem_of Hd'; simpl in *;
    first [split; [reflexivity|lia] | exfalso; lia].
Qed.

Lemma elem_of_ray_targets (x y len : Z) (d : Z * Z) (c : Z * Z) :
  c ∈ ray_targets x y len d
  ↔ ∃ i, 1 ≤ i < len ∧ c = (x + d.1 * i, y + d.2 * i).
Proof.
  unfold ray_targets. rewrite list_elem_of_fmap. split.
  - intros (i & -> & Hi). exists i. by rewrite <- elem_of_range.
  - intros (i & Hi & ->). exists i. by rewrite elem_of_range.
Qed.

Lemma elem_of_rays (x y len : Z) (val : Z → Z) (dirs : list (Z * Z))
    (t : Z * Z * Z) :
  t ∈ rays x y len val dirs
  ↔ ∃ d i, d ∈ dirs ∧ 1 ≤ i < len ∧ t = (x + d.1 * i, y + d.2 * i, val i).
Proof.
  unfold rays, ray. rewrite list_elem_of_bind. split.
  - intros (d & Ht & Hd). apply list_elem_of_fmap in Ht as (i & -> & Hi).
    exists d, i. by rewrite <- elem_of_range.
  - intros (d & i & Hd & Hi & ->). exists d. split; [|done].
    apply list_elem_of_fmap. exists i. by rewrite elem_of_range.
Qed.

Lemma rays_targets (x y len : Z) (val : Z → Z) (dirs : list (Z * Z)) :
  (rays x y len val dirs).*1 = dirs ≫= ray_targets x y len.
Proof.
  unfold rays. induction dirs as [|d dirs IH]; [done|].
  rewrite !bind_cons, fmap_app, IH. f_equal.
  unfold ray, ray_targets. by rewrite <- list_fmap_compose.
Qed.

Lemma elem_of_rays_targets (x y len : Z) (val : Z → Z) (dirs : list (Z * Z))
    (c : Z * Z) :
  c ∈ (rays x y len val dirs).*1
  ↔ ∃ d i, d ∈ dirs ∧ 1 ≤ i < len ∧ c = (x + d.1 * i, y + d.2 * i).
Proof.
  rewrite rays_targets, list_elem_of_bind. split.
  - intros (d & Hc & Hd). apply elem_of_ray_targets in Hc as (i & Hi & ->).
    by exists d, i.
  - intros (d & i & Hd & Hi & ->). exists d. split; [|done].
    apply elem_of_ray_targets. by exists i.
Qed.

Lemma NoDup_rays (x y len : Z) (val : Z → Z) (dirs : list (Z * Z)) :
  NoDup dirs → dirs ⊆ eight_dirs → NoDup (rays x y len val dirs).*1.
Proof.
  intros Hnodup Hsub. rewrite rays_targets. apply NoDup_bind; [| |done].
  - intros d d' c Hd Hd' Hc Hc'.
    apply elem_of_ray_targets in Hc as (i & Hi & ->).
    apply elem_of_ray_targets in Hc' as (j & Hj & Heq).
    by destruct (ray_point_inj x y d d' i j) as [? ?];
      [apply Hsub|apply Hsub|lia|lia|done|].
  - intros d Hd. unfold ray_targets. apply NoDup_fmap_2_strong.
    + intros i j Hi Hj Heq. apply elem_of_range in Hi, Hj.
      by destruct (ray_point_inj x y d d i j) as [? ?];
        [apply Hsub|apply Hsub|lia|lia|done|].
    + apply NoDup_seqZ.
Qed.

Lemma NoDup_eight_dirs : NoDup eight_dirs.
Proof.
  apply NoDup_ListNoDup. unfold eight_dirs, cardinal_dirs, diagonal_dirs.
  simpl. repeat constructor; simpl; intuition congruence.
Qed.

Lemma NoDup_spike_steps (x y : Z) (b : pyfloat) : NoDup (spike_steps x y b).*1.
Proof.
  pose proof NoDup_eight_dirs as Hnd.
  apply NoDup_app in Hnd as (Hcard & Hdisj & Hdiag).
  unfold spike_steps. rewrite fmap_app. apply NoDup_app. split; [|split].
  - apply NoDup_rays; [done|].
    intros d Hd. apply elem_of_app. by left.
  - intros c Hc Hc'. destruct (float_gt b 9.5%Q); [|by apply elem_of_nil in Hc'].
    apply elem_of_rays_targets in Hc as (d & i & Hd & Hi & ->).
    apply elem_of_rays_targets in Hc' as (d' & j & Hd' & Hj & Heq).
    apply (ray_point_inj x y d d' i j) in Heq as [<- _]; [| | |lia|lia].
    + by apply (Hdisj d).
    + apply elem_of_app. by left.
    + apply elem_of_app. by right.
  - destruct (float_gt b 9.5%Q); [|apply NoDup_nil_2].
    apply NoDup_rays; [done|].
    intros d Hd. apply elem_of_app. by right.
Qed.

(** ** The values the rays add *)

Lemma spike_length_floor (b : pyfloat) :
  (9 < b)%Q → spike_length b = Qfloor (8 + (b - 9) * 12)%Q.
Proof. intros Hb. apply int_of_float_floor. Lqa.lra. Qed.

Lemma cardinal_not_diagonal (d : Z * Z) :
  d ∈ cardinal_dirs → d ∈ diagonal_dirs → False.
Proof.
  pose proof NoDup_eight_dirs as Hnd.
  apply NoDup_app in Hnd as (_ & Hdisj & _). apply Hdisj.
Qed.

Lemma black_square_shape :
  shape black_square (height square_canvas) (width square_canvas).
Proof.
  split; [reflexivity|]. unfold black_square.
  apply Forall_replicate. reflexivity.
Defined.


(** ** Glyphs *)

Lemma pixel_at_paint (mask : Z → Z → bool) (fill : pixel) (img : buffer)
    (r c : nat) :
  pixel_at (paint mask fill img) r c
  = (λ p, if mask (Z.of_nat c) (Z.of_nat r) then ink fill else p)
    <$> pixel_at img r c.
Proof.
  unfold paint, pixel_at. rewrite list_lookup_imap.
  destruct (img !! r) as [row|]; simpl; [|done].
  by rewrite list_lookup_imap.
Qed.

Lemma pixel_at_paint_off (mask : Z → Z → bool) (fill : pixel) (img : buffer)
    (r c : nat) :
  mask (Z.of_nat c) (Z.of_nat r) = false →
  pixel_at (paint mask fill img) r c = pixel_at img r c.
Proof.
  intros Hoff. rewrite pixel_at_paint, Hoff. by destruct (pixel_at img r c).
Qed.

Lemma pixel_at_paint_on (mask : Z → Z → bool) (fill : pixel) (img : buffer)
    (r c : nat) :
  mask (Z.of_nat c) (Z.of_nat r) = true →
  pixel_at (paint mask fill img) r c = (λ _, ink fill) <$> pixel_at img r c.
Proof.
  intros Hon. rewrite pixel_at_paint, Hon. by destruct (pixel_at img r c).
Qed.

Lemma float_lt_true (a b : pyfloat) : float_lt a b = true ↔ (a < b)%Q.
Proof. apply (float_gt_true b a). Qed.

Lemma float_lt_false (a b : pyfloat) : float_lt a b = false ↔ (b <= a)%Q.
Proof. apply (float_gt_false b a). Qed.

Section Glyphs.

Variable ellipse_fill : Z → Z → Z → Z → Z → Z → bool.
Variable ellipse_outline : Z → Z → Z → Z → Z → Z → bool.

(** A pixel outside the footprint keeps its value. *)
Lemma draw_star_frame (img : buffer) (x y : Z) (b : pyfloat) (r c : nat) :
  star_footprint ellipse_fill ellipse_outline x y b (Z.of_nat c) (Z.of_nat r)
  = false →
  pixel_at (draw_star ellipse_fill ellipse_outline img x y b) r c
  = pixel_at img r c.
Proof.
  unfold star_footprint, draw_star.
  destruct (float_lt b 3%Q).
  { intros H. by apply pixel_at_paint_off. }
  destruct (float_lt b 6%Q).
  { intros H. by apply pixel_at_paint_off. }
  simpl. intros H. apply orb_false_iff in H as [Hdisc Hring].
  destruct (float_gt b 8%Q); simpl in Hring.
  - unfold ImageDraw_ellipse_outline, ImageDraw_ellipse_fill.
    by rewrite !pixel_at_paint_off.
  - by apply pixel_at_paint_off.
Qed.

End Glyphs.

Lemma star_radius_floor (b : pyfloat) :
  (0 <= b)%Q → star_radius b = Qfloor (b / 5)%Q.
Proof.
  intros Hb. apply int_of_float_floor. apply Qle_shift_div_l; Lqa.lra.
Qed.


Lemma disc_fill_inside : inside_bbox disc_fill.
Proof.
  intros x0 y0 x1 y1 px py H. unfold disc_fill in H.
  apply andb_true_iff in H as [H _]. by apply bool_decide_eq_true in H.
Qed.

Lemma disc_outline_inside : inside_bbox disc_outline.
Proof.
  intros x0 y0 x1 y1 px py H. unfold disc_outline in H.
  apply andb_true_iff in H as [H _]. by apply disc_fill_inside.
Qed.


(** ** Sampling *)

Section Sampling.

Variable rng : Type.
Variable random : rng → pyfloat * rng.
Variable randint : Z → Z → rng → Z * rng.
Variable pow : pyfloat → pyfloat → pyfloat.
Variable self : StarfieldGenerator.

Hypothesis width_pos : 0 < width self.
Hypothesis height_pos : 0 < height self.
Hypothesis randint_ok : randint_in_range randint.

Lemma py_randint_ok (hi : Z) (s : rng) :
  0 ≤ hi →
  ∃ v s', py_randint rng randint 0 hi s = (Ok v, s') ∧ 0 ≤ v ≤ hi.
Proof.
  intros Hhi. unfold py_randint.
  destruct (Z.ltb_spec hi 0) as [?|_]; [lia|].
  pose proof (randint_ok 0 hi s Hhi) as Hrange.
  destruct (randint 0 hi s) as [v s']. by exists v, s'.
Qed.

(** The loop runs to its end and appends one star per iteration. *)
Lemma sample_stars_spec (n : nat) (acc : list star) (s : rng) :
  ∃ stars s',
    sample_stars rng random randint pow self n acc s = (Ok (acc ++ stars), s')
    ∧ length stars = n
    ∧ Forall (sampled_star random pow self) stars.
Proof.
  revert acc s. induction n as [|n IH]; intros acc s.
  { exists [], s. by rewrite app_nil_r. }
  simpl.
  destruct (py_randint_ok (width self - 1) s) as (x & s1 & -> & Hx); [lia|].
  destruct (py_randint_ok (height self - 1) s1) as (y & s2 & -> & Hy); [lia|].
  destruct (generate_star_brightness rng random pow s2) as [b s3] eqn:Hb.
  destruct (IH (acc ++ [(x, y, b)]) s3) as (stars & s' & -> & Hlen & Hall).
  exists ((x, y, b) :: stars), s'. split; [|split].
  - by rewrite <- app_assoc.
  - simpl. by rewrite Hlen.
  - apply Forall_cons_2; [|done]. unfold sampled_star. simpl.
    split; [lia|]. split; [lia|]. exists s2. by rewrite Hb.
Qed.

End Sampling.

Lemma lcg_randint_in_range : randint_in_range lcg_randint.
Proof.
  intros a b s Hab. unfold lcg_randint. simpl.
  pose proof (Z.mod_pos_bound (lcg_next s) (b - a + 1) ltac:(lia)). lia.
Qed.


(** ** Backgrounds *)

Lemma hex_digit_chars (c : ascii) (d : Z) : hex_digit c = Some d → c ∈ hex_chars.
Proof.
  intros H. destruct c as [b0 b1 b2 b3 b4 b5 b6 b7].
  destruct b0, b1, b2, b3, b4, b5, b6, b7; vm_compute in H; try discriminate;
    unfold hex_chars; simpl;
    repeat first [apply list_elem_of_here | apply list_elem_of_further].
Qed.

Lemma hex_digit_range (c : ascii) (d : Z) : hex_digit c = Some d → 0 ≤ d ≤ 15.
Proof.
  unfold hex_digit. set (n := Z.of_nat (nat_of_ascii c)).
  repeat case_match; intros [= <-]; lia.
Qed.

Lemma int_base16_pair_chars (c1 c2 : ascii) :
  c1 ∈ hex_chars → c2 ∈ hex_chars →
  int_base16 (String c1 (String c2 ""))
  = (d1 ← hex_digit c1; d2 ← hex_digit c2; Some (16 * d1 + d2)).
Proof.
  unfold hex_chars. simpl. intros H1 H2.
  split_elem_of H1; split_elem_of H2; vm_compute; reflexivity.
Qed.

(** Two hexadecimal digits parse to their value. *)
Lemma int_base16_pair (c1 c2 : ascii) (d1 d2 : Z) :
  hex_digit c1 = Some d1 → hex_digit c2 = Some d2 →
  int_base16 (String c1 (String c2 "")) = Some (16 * d1 + d2).
Proof.
  intros H1 H2.
  rewrite int_base16_pair_chars by eauto using hex_digit_chars.
  by rewrite H1, H2.
Qed.

Lemma hex_digit_not_hash (c : ascii) (d : Z) :
  hex_digit c = Some d → Ascii.eqb c "#" = false.
Proof.
  intros H. apply hex_digit_chars in H. unfold hex_chars in H. simpl in H.
  split_elem_of H; reflexivity.
Qed.

Lemma lstrip_hashes (n : nat) (c : ascii) (s : string) :
  Ascii.eqb c "#" = false →
  lstrip "#" (repeat_char "#" n ++ String c s) = String c s.
Proof. intros Hc. induction n as [|n IH]; simpl; [by rewrite Hc|done]. Qed.

Lemma clip8_byte (v : Z) : 0 ≤ v ≤ 255 → clip8 v = v.
Proof. unfold clip8. lia. Qed.

(** C10: a background of one or more '#' followed by exactly six
    hexadecimal digits is accepted and gives the canvas of that colour,
    [height] rows of [width] pixels; a background that starts with '#'
    and has not exactly six characters after its leading '#'s raises
    [ValueError], and so does [generate], before it samples or draws
    anything. *)
Theorem parse_background_hashes (load_image : string → Z → Z → option buffer)
    (self : StarfieldGenerator) :
  (∀ (n : nat) (c1 c2 c3 c4 c5 c6 : ascii) (d1 d2 d3 d4 d5 d6 : Z),
     hex_digit c1 = Some d1 → hex_digit c2 = Some d2 →
     hex_digit c3 = Some d3 → hex_digit c4 = Some d4 →
     hex_digit c5 = Some d5 → hex_digit c6 = Some d6 →
     background self = (repeat_char "#" (S n) ++ six c1 c2 c3 c4 c5 c6)%string →
     0 ≤ width self → 0 ≤ height self →
     parse_background load_image self
     = Ok (replicate (Z.to_nat (height self))
             (replicate (Z.to_nat (width self))
                (16 * d1 + d2, 16 * d3 + d4, 16 * d5 + d6))))
  ∧ (startswith (background self) "#" = true →
     String.length (lstrip "#" (background self)) ≠ 6%nat →
     parse_background load_image self = Raise ValueError
     ∧ ∀ (rng : Type) (random : rng → pyfloat * rng)
         (randint : Z → Z → rng → Z * rng) (pow : pyfloat → pyfloat → pyfloat)
         (ellipse_fill ellipse_outline : Z → Z → Z → Z → Z → Z → bool)
         (s : rng),
         generate rng random randint pow ellipse_fill ellipse_outline
           load_image self s
         = (Raise ValueError, s)).
Proof.
  split.
  - intros n c1 c2 c3 c4 c5 c6 d1 d2 d3 d4 d5 d6 H1 H2 H3 H4 H5 H6 Hbg Hw Hh.
    unfold parse_background. rewrite Hbg.
    change (repeat_char "#" (S n) ++ six c1 c2 c3 c4 c5 c6)%string
      with (String "#" (repeat_char "#" n ++ six c1 c2 c3 c4 c5 c6)).
    assert (Hstart : ∀ s, startswith (String "#" s) "#" = true).
    { intros s. unfold startswith. simpl. by destruct s. }
    rewrite Hstart. cbn [lstrip]. rewrite Ascii.eqb_refl.
    unfold six at 1 2 3 4. rewrite lstrip_hashes
      by (by eapply hex_digit_not_hash).
    cbn [String.length Nat.eqb slice substring Nat.sub].
    rewrite (int_base16_pair c1 c2 d1 d2), (int_base16_pair c3 c4 d3 d4),
      (int_base16_pair c5 c6 d5 d6) by done.
    unfold Image_new.
    destruct (Z.ltb_spec (width self) 0) as [?|_]; [lia|].
    destruct (Z.ltb_spec (height self) 0) as [?|_]; [lia|].
    simpl. unfold ink, red, green, blue. simpl.
    apply hex_digit_range in H1, H2, H3, H4, H5, H6.
    by rewrite !clip8_byte by lia.
  - intros Hstart Hlen.
    assert (Hparse : parse_background load_image self = Raise ValueError).
    { unfold parse_background. rewrite Hstart.
      by destruct (Nat.eqb_spec (String.length (lstrip "#" (background self))) 6). }
    split; [done|]. intros. unfold generate. by rewrite Hparse.
Qed.

Lemma parse_background_hashes_witness :
  parse_background no_image green_canvas
  = Ok [[(0, 255, 0); (0, 255, 0); (0, 255, 0)];
        [(0, 255, 0); (0, 255, 0); (0, 255, 0)]]
  ∧ parse_background no_image short_canvas = Raise ValueError.
Proof.
  split.
  - exact (proj1 (parse_background_hashes no_image green_canvas)
             1%nat "0"%char "0"%char "f"%char "f"%char "0"%char "0"%char
             0 0 15 15 0 0
             eq_refl eq_refl eq_refl eq_refl eq_refl eq_refl eq_refl
             ltac:(simpl; lia) ltac:(simpl; lia)).
  - assert (Hlen : String.length (lstrip "#" (background short_canvas)) ≠ 6%nat)
      by (simpl; lia).
    exact (proj1 (proj2 (parse_background_hashes no_image short_canvas)
                    eq_refl Hlen)).
Defined.

(** ** The brightness sampler over the reals *)

Lemma ln_le_compat (x y : R) : (0 < x)%R → (x <= y)%R → (ln x <= ln y)%R.
Proof.
  intros Hx [Hlt | ->].
  - left. by apply ln_increasing.
  - right. reflexivity.
Qed.

Lemma exp_le_compat (x y : R) : (x <= y)%R → (exp x <= exp y)%R.
Proof.
  intros [Hlt | ->].
  - left. by apply exp_increasing.
  - right. reflexivity.
Qed.

Lemma Rpower_1_l (y : R) : Rpower 1 y = 1%R.
Proof. unfold Rpower. by rewrite ln_1, Rmult_0_r, exp_0. Qed.

Lemma Rpower_10_range : (0 < Rpower 10 (1 - 5 / 2) < 1)%R.
Proof.
  split; [apply exp_pos|].
  pose proof (Rpower_lt 10 (1 - 5 / 2) 0) as Hlt.
  rewrite Rpower_O in Hlt by Lra.lra. apply Hlt; Lra.lra.
Qed.

(** The inverse CDF maps [[0, 1)] into [[1, 10]]. *)
Lemma inverse_cdf_range (r : R) :
  (0 <= r < 1)%R → (1 <= RealModel.inverse_cdf (5 / 2) 1 10 r <= 10)%R.
Proof.
  intros Hr. unfold RealModel.inverse_cdf. rewrite Rpower_1_l.
  pose proof Rpower_10_range as HB.
  set (B := Rpower 10 (1 - 5 / 2)) in *.
  set (t := (1 + r * (B - 1))%R).
  assert (Ht : (B <= t <= 1)%R) by (unfold t; split; Lra.nra).
  assert (Hln1 : (ln t <= 0)%R).
  { rewrite <- ln_1. apply ln_le_compat; Lra.lra. }
  assert (HlnB : ((1 - 5 / 2) * ln 10 <= ln t)%R).
  { replace ((1 - 5 / 2) * ln 10)%R with (ln B)
      by (unfold B, Rpower; apply ln_exp).
    apply ln_le_compat; Lra.lra. }
  unfold Rpower at 1. fold t.
  set (e := (1 / (1 - 5 / 2))%R).
  assert (He : e = (- (2 / 3))%R) by (unfold e; field).
  split.
  - apply Rle_trans with (exp 0); [right; symmetry; apply exp_0|].
    apply exp_le_compat. rewrite He. Lra.lra.
  - apply Rle_trans with (exp (ln 10)); [|right; apply exp_ln; Lra.lra].
    apply exp_le_compat. rewrite He. Lra.lra.
Qed.

(** C3: over the real numbers, with [r] the draw the method uses (its
    second one) in [[0, 1)], the sampler returns
    [(x_min^(1 - alpha) + r * (x_max^(1 - alpha) - x_min^(1 - alpha)))^(1 / (1 - alpha))]
    for [alpha = 2.5], [x_min = 1], [x_max = 10], and that value lies
    in [[1, 10]]. *)
Theorem sampler_inverse_cdf (rng : Type) (random : rng → R * rng) (s : rng) :
  let r := (random (random s).2).1 in
  (0 <= r < 1)%R →
  (RealModel.generate_star_brightness rng random s).1
  = RealModel.inverse_cdf (5 / 2) 1 10 r
  ∧ (1 <= (RealModel.generate_star_brightness rng random s).1 <= 10)%R.
Proof.
  intros r Hr.
  assert (Heq : (RealModel.generate_star_brightness rng random s).1
                = RealModel.inverse_cdf (5 / 2) 1 10 r).
  { unfold RealModel.generate_star_brightness, RealModel.inverse_cdf.
    subst r. destruct (random s) as [u s1]. simpl.
    destruct (random s1) as [r s2]. simpl.
    by replace (- (5 / 2) + 1)%R with (1 - 5 / 2)%R by Lra.lra. }
  split; [done|]. rewrite Heq. by apply inverse_cdf_range.
Qed.

Lemma sampler_inverse_cdf_witness :
  (0 <= (half_random (half_random 0%nat).2).1 < 1)%R
  ∧ (1 <= (RealModel.generate_star_brightness nat half_random 0%nat).1 <= 10)%R.
Proof.
  assert (Hr : (0 <= (half_random (half_random 0%nat).2).1 < 1)%R)
    by (simpl; Lra.lra).
  split; [exact Hr|].
  exact (proj2 (sampler_inverse_cdf nat half_random 0%nat Hr)).
Defined.

(** * Further properties of the code *)

(** ** The compositor: where it writes *)

Lemma spike_length_range (b : pyfloat) :
  (9 < b)%Q → 8 ≤ spike_length b ∧ ((b <= 10)%Q → spike_length b ≤ 20).
Proof.
  intros Hb. rewrite spike_length_floor by done. split.
  - transitivity (Qfloor 8%Q); [done|]. apply Qfloor_resp_le. Lqa.lra.
  - intros Hb10. transitivity (Qfloor 20%Q); [|done].
    apply Qfloor_resp_le. Lqa.lra.
Qed.

(** Every write of a call aims at a pixel of one of the eight rays, at
    least one and less than [spike_length] steps from the star. *)
Lemma elem_of_spike_steps (x y : Z) (b : pyfloat) (t : Z * Z * Z) :
  (9 < b)%Q → t ∈ spike_steps x y b →
  ∃ d i, d ∈ eight_dirs ∧ 1 ≤ i < spike_length b
    ∧ t.1 = (x + d.1 * i, y + d.2 * i).
Proof.
  intros Hb Ht. unfold spike_steps in Ht. apply elem_of_app in Ht as [Ht|Ht].
  - apply elem_of_rays in Ht as (d & i & Hd & Hi & ->). exists d, i.
    split; [apply elem_of_app; by left|done].
  - destruct (float_gt b 9.5%Q); [|by apply elem_of_nil in Ht].
    apply elem_of_rays in Ht as (d & i & Hd & Hi & ->). exists d, i.
    split; [apply elem_of_app; by right|]. split; [|done].
    destruct (spike_length_range b Hb) as [Hlen _].
    assert (floor_div (spike_length b) 2 ≤ spike_length b)
      by (apply Z.div_le_upper_bound; lia).
    lia.
Qed.

Lemma spikes_ok (self : StarfieldGenerator) (x y : Z) (b : pyfloat) (a : buffer) :
  shape a (height self) (width self) →
  (draw_diffraction_spikes self x y b a).1 = None
  ∧ shape (draw_diffraction_spikes self x y b a).2 (height self) (width self).
Proof.
  intros Hshape. destruct (Qlt_le_dec 9 b) as [Hb|Hb].
  - rewrite spikes_as_steps by done. by apply steps_ok.
  - by rewrite spikes_skip_le_9.
Qed.

(** A call changes no pixel off the eight rays, and never the pixel of
    the star itself: every ray starts one step away from it. *)
Theorem spikes_leave_off_ray_pixels (self : StarfieldGenerator) (a : buffer)
    (x y : Z) (b : pyfloat) (r c : nat) :
  let px := Z.of_nat c in
  let py := Z.of_nat r in
  (px = x ∧ py = y) ∨ (px ≠ x ∧ py ≠ y ∧ Z.abs (px - x) ≠ Z.abs (py - y)) →
  pixel_at (draw_diffraction_spikes self x y b a).2 r c = pixel_at a r c.
Proof.
  intros px py Hoff. subst px py.
  destruct (Qlt_le_dec 9 b) as [Hb|Hb]; [|by rewrite spikes_skip_le_9].
  rewrite spikes_as_steps by done. apply steps_untouched.
  intros t Ht [Hx Hy] Hcell.
  apply elem_of_spike_steps in Ht as (d & i & Hd & Hi & Ht); [|done].
  destruct t as [[tx ty] s]. simpl in *. injection Ht as -> ->.
  unfold cell in Hcell. simpl in Hcell. injection Hcell as Hr Hc.
  unfold eight_dirs, cardinal_dirs, diagonal_dirs in Hd. simpl in Hd.
  split_elem_of Hd; simpl in *; lia.
Qed.

Lemma spikes_leave_off_ray_pixels_witness :
  pixel_at (draw_diffraction_spikes square_canvas 10 10 9.7%Q black_square).2
    10 10
  = pixel_at black_square 10 10.
Proof.
  exact (spikes_leave_off_ray_pixels square_canvas black_square 10 10 9.7%Q
           10 10 (or_introl (conj eq_refl eq_refl))).
Defined.



(** ** The compositor: how the added value fades *)

Lemma true_div_mono (i j n : Z) :
  0 < n → i ≤ j → (true_div i n <= true_div j n)%Q.
Proof.
  intros Hn Hij. unfold true_div, Qdiv. apply Qmult_le_compat_r.
  - by rewrite <- Zle_Qle.
  - apply Qinv_le_0_compat. replace 0%Q with (inject_Z 0) by reflexivity.
    rewrite <- Zle_Qle. lia.
Qed.

Lemma true_div_nonneg (i n : Z) : 0 < n → 0 ≤ i → (0 <= true_div i n)%Q.
Proof.
  intros Hn Hi. unfold true_div, Qdiv. apply Qmult_le_0_compat.
  - replace 0%Q with (inject_Z 0) by reflexivity. by rewrite <- Zle_Qle.
  - apply Qinv_le_0_compat. replace 0%Q with (inject_Z 0) by reflexivity.
    rewrite <- Zle_Qle. lia.
Qed.

Lemma base_intensity_le_255 (b : pyfloat) :
  (0 <= b)%Q → (b <= 10)%Q → base_intensity b ≤ 255.
Proof.
  intros Hb0 Hb10. unfold base_intensity.
  transitivity (int_of_float 255%Q); [|done]. apply int_of_float_mono.
  - apply Qmult_le_0_compat; [|Lqa.lra]. apply Qle_shift_div_l; Lqa.lra.
  - assert (H : (b / 10 <= 1)%Q) by (apply Qle_shift_div_r; Lqa.lra).
    Lqa.lra.
Qed.

(** The product [base_intensity * spike_intensity] of a call. *)
Lemma spike_scale_range (b : pyfloat) :
  (9 < b)%Q →
  (0 <= float_of_int (base_intensity b) * spike_intensity b)%Q
  ∧ ((b <= 10)%Q →
     (float_of_int (base_intensity b) * spike_intensity b
      <= inject_Z (base_intensity b))%Q).
Proof.
  intros Hb.
  assert (Hbase : (0 <= float_of_int (base_intensity b))%Q).
  { unfold float_of_int. replace 0%Q with (inject_Z 0) by reflexivity.
    rewrite <- Zle_Qle. apply base_intensity_nonneg. Lqa.lra. }
  pose proof (spike_intensity_eq b) as Hsi.
  split.
  - apply Qmult_le_0_compat; [done|]. rewrite Hsi. Lqa.lra.
  - intros Hb10. unfold float_of_int in *.
    assert (Hle : (spike_intensity b <= 1)%Q) by (rewrite Hsi; Lqa.lra).
    Lqa.nra.
Qed.

Lemma faded_product (P : pyfloat) (i j n : Z) :
  (0 <= P)%Q → 0 < n → 0 ≤ i ≤ j → j ≤ n →
  (0 <= P * (1 - true_div j n))%Q
  ∧ (P * (1 - true_div j n) <= P * (1 - true_div i n))%Q
  ∧ (P * (1 - true_div i n) <= P)%Q.
Proof.
  intros HP Hn Hij Hjn.
  pose proof (true_div_mono i j n Hn ltac:(lia)) as Hmono.
  pose proof (true_div_le_1 j n Hn Hjn) as Hle.
  pose proof (true_div_nonneg i n Hn ltac:(lia)) as Hnonneg.
  repeat split; Lqa.nra.
Qed.

(** Along a ray the added value never grows with the distance from the
    star and is never negative; up to brightness 10 a cardinal ray adds
    at most [base_intensity], which is at most 255, and a diagonal ray
    at most half of it. *)
Theorem spike_values_decay (b : pyfloat) (i j : Z) :
  (9 < b)%Q → 1 ≤ i ≤ j →
  (j < spike_length b →
     0 ≤ cardinal_spike_val b j ≤ cardinal_spike_val b i
     ∧ ((b <= 10)%Q → cardinal_spike_val b i ≤ base_intensity b ≤ 255))
  ∧ (j < floor_div (spike_length b) 2 →
     0 ≤ diagonal_spike_val b j ≤ diagonal_spike_val b i
     ∧ ((b <= 10)%Q → 2 * diagonal_spike_val b i ≤ base_intensity b)).
Proof.
  intros Hb Hij.
  destruct (spike_scale_range b Hb) as [HP HPle].
  set (P := (float_of_int (base_intensity b) * spike_intensity b)%Q) in *.
  split.
  - intros Hj.
    destruct (faded_product P i j (spike_length b) HP ltac:(lia) ltac:(lia)
                ltac:(lia)) as (H0 & Hmono & Hup).
    unfold cardinal_spike_val. cbv zeta. fold P. split.
    + split; [by apply int_of_float_nonneg|by apply int_of_float_mono].
    + intros Hb10. split; [|apply base_intensity_le_255; Lqa.lra].
      transitivity (int_of_float (inject_Z (base_intensity b)));
        [|by rewrite int_of_float_inject].
      apply int_of_float_mono; [Lqa.lra|]. specialize (HPle Hb10). Lqa.lra.
  - intros Hj. set (n := floor_div (spike_length b) 2) in *.
    destruct (faded_product P i j n HP ltac:(lia) ltac:(lia) ltac:(lia))
      as (H0 & Hmono & Hup).
    unfold diagonal_spike_val. cbv zeta. fold P n. split.
    + split; [apply int_of_float_nonneg|apply int_of_float_mono]; Lqa.lra.
    + intros Hb10. specialize (HPle Hb10).
      rewrite int_of_float_floor by Lqa.lra.
      pose proof (Qfloor_le (P * (1 - true_div i n) * 0.5)%Q) as Hfloor.
      rewrite Zle_Qle, inject_Z_mult.
      change (inject_Z 2) with 2%Q. Lqa.lra.
Qed.

Lemma spike_values_decay_witness :
  (9 < 9.7)%Q ∧ 1 ≤ 1 ≤ 2 ∧ 2 < spike_length 9.7%Q
  ∧ 0 ≤ cardinal_spike_val 9.7%Q 2 ≤ cardinal_spike_val 9.7%Q 1.
Proof.
  assert (Hb : (9 < 9.7)%Q) by reflexivity.
  assert (Hij : 1 ≤ 1 ≤ 2) by lia.
  assert (Hj : 2 < spike_length 9.7%Q) by reflexivity.
  split; [exact Hb|]. split; [exact Hij|]. split; [exact Hj|].
  exact (proj1 (proj1 (spike_values_decay 9.7%Q 1 2 Hb Hij) Hj)).
Defined.

(** ** The compositor: when it raises *)

Section StepErrors.

Variable self : StarfieldGenerator.

(** A write creates no pixel and removes none. *)
Lemma step_domain (t : Z * Z * Z) (a : buffer) (r c : nat) :
  pixel_at (step self t a).2 r c = None ↔ pixel_at a r c = None.
Proof.
  unfold step.
  destruct (brighten_cases self t.1.1 t.1.2 t.2 a)
    as [->|(cur & _ & Hget & ->)]; [done|].
  simpl. rewrite pixel_at_setitem by (by rewrite Hget).
  destruct (decide _) as [Heq|_]; [|done].
  inversion Heq; subst. unfold getitem in Hget. rewrite Hget.
  split; intros H; discriminate H.
Qed.

(** A write raises only [IndexError], and only when it aims at a pixel
    of the canvas that the array does not have. *)
Lemma step_raises (t : Z * Z * Z) (a : buffer) (e : exn) :
  (step self t a).1 = Some e ↔
  e = IndexError ∧ on_canvas self t.1.1 t.1.2 ∧ getitem a t.1.2 t.1.1 = None.
Proof.
  unfold step. destruct (decide (on_canvas self t.1.1 t.1.2)) as [Hin|Hout].
  - destruct (getitem a t.1.2 t.1.1) as [cur|] eqn:Hget.
    + rewrite (brighten_on_canvas self _ _ _ _ cur Hin Hget). simpl.
      split; [discriminate|]. by intros (_ & _ & ?).
    + rewrite brighten_index_error by done. simpl. split.
      * by intros [= <-].
      * by intros (-> & _).
  - rewrite brighten_off_canvas by done. simpl.
    split; [discriminate|]. by intros (_ & ? & _).
Qed.

Lemma steps_raise (ops : list (Z * Z * Z)) (a : buffer) (e : exn) :
  (for_each ops (step self) a).1 = Some e ↔
  e = IndexError
  ∧ ∃ t, t ∈ ops ∧ on_canvas self t.1.1 t.1.2 ∧ getitem a t.1.2 t.1.1 = None.
Proof.
  revert a. induction ops as [|t ops IH]; intros a.
  { simpl. split; [discriminate|]. intros (_ & t & Ht & _).
    by apply elem_of_nil in Ht. }
  simpl. unfold then_.
  pose proof (step_raises t a) as Hstep.
  pose proof (step_domain t a) as Hdom.
  destruct (step self t a) as [[e'|] a'] eqn:Hrun; simpl in *.
  - destruct (proj1 (Hstep e') eq_refl) as (-> & Hin & Hget). split.
    + intros [= <-]. split; [done|]. exists t. split; [left|done].
    + by intros (-> & _).
  - rewrite IH. split.
    + intros (-> & u & Hu & Hin & Hget). split; [done|]. exists u.
      split; [by right|]. split; [done|]. by apply Hdom.
    + intros (-> & u & Hu & Hin & Hget). split; [done|].
      apply elem_of_cons in Hu as [->|Hu].
      * discriminate (proj2 (Hstep IndexError) (conj eq_refl (conj Hin Hget))).
      * exists u. split; [done|]. split; [done|]. by apply Hdom.
Qed.

End StepErrors.



(** ** Glyphs: what [draw_star] keeps *)

Lemma shape_paint (mask : Z → Z → bool) (fill : pixel) (img : buffer) (h w : Z) :
  shape img h w → shape (paint mask fill img) h w.
Proof.
  unfold shape, paint. intros [Hh Hw]. split.
  - by rewrite length_imap.
  - rewrite Forall_lookup in *. intros r row Hrow.
    rewrite list_lookup_imap in Hrow.
    destruct (img !! r) as [row0|] eqn:Hr; simpl in Hrow; [|done].
    injection Hrow as <-. rewrite length_imap. by eapply Hw.
Qed.

Lemma paint_pixel (mask : Z → Z → bool) (fill : pixel) (img : buffer)
    (r c : nat) (p' : pixel) :
  pixel_at (paint mask fill img) r c = Some p' →
  ∃ p, pixel_at img r c = Some p ∧ (p' = p ∨ p' = ink fill).
Proof.
  rewrite pixel_at_paint. destruct (pixel_at img r c) as [p|]; simpl; [|done].
  intros [= <-]. exists p. split; [done|]. destruct (mask _ _); auto.
Qed.

Lemma clip8_range (v : Z) : 0 ≤ clip8 v ≤ 255.
Proof. unfold clip8. lia. Qed.

Lemma grey_clip8 (v : Z) :
  pixel_in_range (grey (clip8 v)) ∧ achromatic (grey (clip8 v)).
Proof.
  pose proof (clip8_range v).
  unfold pixel_in_range, achromatic, byte_range, grey, red, green, blue. simpl.
  lia.
Qed.

Section GlyphInvariants.

Variable ellipse_fill : Z → Z → Z → Z → Z → Z → bool.
Variable ellipse_outline : Z → Z → Z → Z → Z → Z → bool.

Lemma draw_star_shape (img : buffer) (x y : Z) (b : pyfloat) (h w : Z) :
  shape img h w → shape (draw_star ellipse_fill ellipse_outline img x y b) h w.
Proof.
  intros Hshape. unfold draw_star, ImageDraw_point, ImageDraw_ellipse_fill,
    ImageDraw_ellipse_outline.
  repeat case_match; repeat apply shape_paint; done.
Qed.

(** Every pixel after the call is the pixel before it or a grey byte. *)
Lemma draw_star_pixel (img : buffer) (x y : Z) (b : pyfloat) (r c : nat)
    (p' : pixel) :
  pixel_at (draw_star ellipse_fill ellipse_outline img x y b) r c = Some p' →
  ∃ p, pixel_at img r c = Some p ∧ (p' = p ∨ ∃ v, p' = grey (clip8 v)).
Proof.
  unfold draw_star, ImageDraw_point, ImageDraw_ellipse_fill,
    ImageDraw_ellipse_outline.
  repeat case_match; intros Hpix.
  - apply paint_pixel in Hpix as (p & Hp & [->| ->]); exists p; eauto.
  - apply paint_pixel in Hpix as (p & Hp & [->| ->]); exists p; eauto.
  - apply paint_pixel in Hpix as (p1 & Hp1 & Hor).
    apply paint_pixel in Hp1 as (p & Hp & Hor1). exists p. split; [done|].
    destruct Hor as [->| ->]; [|eauto]. destruct Hor1 as [->| ->]; eauto.
  - apply paint_pixel in Hpix as (p & Hp & [->| ->]); exists p; eauto.
Qed.

Lemma draw_star_channels (img : buffer) (x y : Z) (b : pyfloat) :
  channels_in_range img →
  channels_in_range (draw_star ellipse_fill ellipse_outline img x y b).
Proof.
  rewrite !channels_in_range_lookup. intros Himg r c p' Hp'.
  apply draw_star_pixel in Hp' as (p & Hp & [->|[v ->]]); [by eapply Himg|].
  apply grey_clip8.
Qed.

(** Pass 1 keeps the shape of the image and the range of its channels. *)
Lemma glyph_pass_keeps (stars : list star) (img : buffer) (h w : Z) :
  shape img h w → channels_in_range img →
  shape (glyph_pass ellipse_fill ellipse_outline stars img) h w
  ∧ channels_in_range (glyph_pass ellipse_fill ellipse_outline stars img).
Proof.
  revert img. induction stars as [|[[x y] b] stars IH]; intros img Hs Hc; [done|].
  unfold glyph_pass. simpl. apply IH.
  - by apply draw_star_shape.
  - by apply draw_star_channels.
Qed.

End GlyphInvariants.

(** Whatever the position and the brightness, [draw_star] keeps the size
    of the image, and every pixel after the call is either the pixel
    that was there or a grey pixel ([R = G = B]) with a value in
    [[0, 255]]; so an image of bytes stays an image of bytes. *)
Theorem draw_star_keeps_canvas
    (ellipse_fill ellipse_outline : Z → Z → Z → Z → Z → Z → bool)
    (img : buffer) (x y : Z) (b : pyfloat) (h w : Z) :
  let img' := draw_star ellipse_fill ellipse_outline img x y b in
  (shape img h w → shape img' h w)
  ∧ (∀ r c p', pixel_at img' r c = Some p' →
       ∃ p, pixel_at img r c = Some p
         ∧ (p' = p ∨ (achromatic p' ∧ pixel_in_range p')))
  ∧ (channels_in_range img → channels_in_range img').
Proof.
  intros img'. subst img'. split; [apply draw_star_shape|]. split.
  - intros r c p' Hp'.
    apply draw_star_pixel in Hp' as (p & Hp & Hor). exists p. split; [done|].
    destruct Hor as [->|[v ->]]; [by left|]. right.
    split; apply grey_clip8.
  - apply draw_star_channels.
Qed.

Lemma draw_star_keeps_canvas_witness :
  shape black_square 20 20
  ∧ shape (draw_star disc_fill disc_outline black_square 10 10 9.2%Q) 20 20.
Proof.
  split; [exact black_square_shape|].
  exact (proj1 (draw_star_keeps_canvas disc_fill disc_outline black_square
                  10 10 9.2%Q 20 20) black_square_shape).
Defined.

(** ** Glyphs: the colours and the radius *)

Lemma Qfloor_between (q : Q) (n : Z) :
  (inject_Z n <= q)%Q → (q < inject_Z (n + 1))%Q → Qfloor q = n.
Proof.
  intros Hlo Hhi.
  pose proof (Qfloor_resp_le _ _ Hlo) as H1. rewrite Qfloor_Z in H1.
  pose proof (Qfloor_le q) as H2.
  assert (H3 : (inject_Z (Qfloor q) < inject_Z (n + 1))%Q)
    by (eapply Qle_lt_trans; eauto).
  rewrite <- Zlt_Qlt in H3. lia.
Qed.

Lemma ink_grey_byte (v : Z) : 0 ≤ v ≤ 255 → ink (v, v, v) = grey v.
Proof.
  intros Hv. unfold ink, grey, red, green, blue. simpl.
  by rewrite clip8_byte.
Qed.

Lemma star_radius_5_10 (b : pyfloat) :
  (5 <= b)%Q → (b < 10)%Q → star_radius b = 1.
Proof.
  intros Hlo Hhi. rewrite star_radius_floor by Lqa.lra.
  apply Qfloor_between.
  - apply Qle_shift_div_l; [reflexivity|]. change (inject_Z 1) with 1%Q.
    Lqa.lra.
  - apply Qlt_shift_div_r; [reflexivity|]. change (inject_Z (1 + 1)) with 2%Q.
    Lqa.lra.
Qed.



(** ** Backgrounds: what [int(_, 16)] lets through *)

Lemma int_base16_pair_table :
  forallb (λ c1,
    forallb (λ c2,
      option_Z_eqb (int_base16 (String c1 (String c2 ""))) (pair_channel c1 c2))
      ascii_chars) ascii_chars
  = true.
Proof. vm_compute. reflexivity. Qed.

Lemma elem_of_ascii_chars (c : ascii) : is_ascii c → c ∈ ascii_chars.
Proof.
  unfold is_ascii, ascii_chars. intros Hc.
  rewrite <- (ascii_nat_embedding c). apply list_elem_of_fmap_2.
  apply elem_of_seq. lia.
Qed.

Lemma option_Z_eqb_eq (a b : option Z) : option_Z_eqb a b = true → a = b.
Proof.
  destruct a as [x|], b as [y|]; simpl; try done.
  intros H. apply Z.eqb_eq in H. by subst.
Qed.

(** On two characters [int(_, 16)] is [pair_channel]. *)
Lemma int_base16_pair_channel (c1 c2 : ascii) :
  is_ascii c1 → is_ascii c2 →
  int_base16 (String c1 (String c2 "")) = pair_channel c1 c2.
Proof.
  intros H1 H2. apply elem_of_ascii_chars, list_elem_of_In in H1, H2.
  pose proof int_base16_pair_table as Htable.
  rewrite forallb_forall in Htable. specialize (Htable c1 H1).
  rewrite forallb_forall in Htable. specialize (Htable c2 H2).
  by apply option_Z_eqb_eq.
Qed.

Lemma parse_background_six (load_image : string → Z → Z → option buffer)
    (self : StarfieldGenerator) (n : nat) (c1 c2 c3 c4 c5 c6 : ascii) :
  background self = (repeat_char "#" (S n) ++ six c1 c2 c3 c4 c5 c6)%string →
  Ascii.eqb c1 "#" = false →
  Forall is_ascii [c1; c2; c3; c4; c5; c6] →
  parse_background load_image self
  = match pair_channel c1 c2, pair_channel c3 c4, pair_channel c5 c6 with
    | Some r, Some g, Some b => Image_new (width self) (height self) (r, g, b)
    | _, _, _ => Raise ValueError
    end.
Proof.
  intros Hbg Hc1 Hascii.
  repeat (apply Forall_cons in Hascii as [? Hascii]).
  unfold parse_background. rewrite Hbg.
  change (repeat_char "#" (S n) ++ six c1 c2 c3 c4 c5 c6)%string
    with (String "#" (repeat_char "#" n ++ six c1 c2 c3 c4 c5 c6)).
  assert (Hstart : ∀ s, startswith (String "#" s) "#" = true).
  { intros s. unfold startswith. simpl. by destruct s. }
  rewrite Hstart. cbn [lstrip]. rewrite Ascii.eqb_refl.
  unfold six at 1 2 3 4. rewrite lstrip_hashes by done.
  cbn [String.length Nat.eqb slice substring Nat.sub].
  rewrite !int_base16_pair_channel by done.
  by repeat case_match.
Qed.

Lemma ink_in_range (color : pixel) : pixel_in_range (ink color).
Proof.
  unfold pixel_in_range, byte_range, ink. cbn [red green blue fst snd].
  pose proof (clip8_range (red color)). pose proof (clip8_range (green color)).
  pose proof (clip8_range (blue color)). lia.
Qed.

Lemma shape_replicate (h w : Z) (p : pixel) :
  0 ≤ w → 0 ≤ h →
  shape (replicate (Z.to_nat h) (replicate (Z.to_nat w) p)) h w.
Proof.
  intros Hw Hh. split.
  - rewrite length_replicate. lia.
  - apply Forall_replicate. rewrite length_replicate. lia.
Qed.

Lemma channels_in_range_replicate (h w : nat) (p : pixel) :
  pixel_in_range p → channels_in_range (replicate h (replicate w p)).
Proof. intros Hp. by do 2 apply Forall_replicate. Qed.

Lemma Image_new_Ok (w h : Z) (color : pixel) (img : buffer) :
  Image_new w h color = Ok img →
  0 ≤ w ∧ 0 ≤ h
  ∧ img = replicate (Z.to_nat h) (replicate (Z.to_nat w) (ink color)).
Proof.
  unfold Image_new.
  destruct (Z.ltb_spec w 0), (Z.ltb_spec h 0); simpl; try discriminate.
  intros [= <-]. done.
Qed.

Lemma Image_new_Raise (w h : Z) (color : pixel) (e : exn) :
  Image_new w h color = Raise e → e = ValueError.
Proof. unfold Image_new. case_match; [by intros [= <-]|discriminate]. Qed.

(** [parse_background] raises nothing but [ValueError].  What it
    returns for a background that starts with '#' is a canvas of one
    colour, [height] rows of [width] pixels, with every channel in
    [[0, 255]]; the size is then not negative. *)
Theorem parse_background_result (load_image : string → Z → Z → option buffer)
    (self : StarfieldGenerator) :
  (∀ e, parse_background load_image self = Raise e → e = ValueError)
  ∧ (∀ img,
       startswith (background self) "#" = true →
       parse_background load_image self = Ok img →
       0 ≤ width self ∧ 0 ≤ height self
       ∧ shape img (height self) (width self)
       ∧ ∃ p, pixel_in_range p
           ∧ img = replicate (Z.to_nat (height self))
                     (replicate (Z.to_nat (width self)) p)).
Proof.
  split.
  - intros e. unfold parse_background.
    repeat case_match; try (by intros [= <-]); try discriminate.
    apply Image_new_Raise.
  - intros img Hstart. unfold parse_background. rewrite Hstart.
    repeat case_match; try discriminate.
    intros (Hw & Hh & ->)%Image_new_Ok.
    split; [done|]. split; [done|]. split; [by apply shape_replicate|].
    eexists. split; [apply ink_in_range|done].
Qed.

Lemma parse_background_result_witness :
  startswith (background green_canvas) "#" = true
  ∧ parse_background no_image green_canvas
    = Ok [[(0, 255, 0); (0, 255, 0); (0, 255, 0)];
          [(0, 255, 0); (0, 255, 0); (0, 255, 0)]]
  ∧ shape [[(0, 255, 0); (0, 255, 0); (0, 255, 0)];
           [(0, 255, 0); (0, 255, 0); (0, 255, 0)]]
      (height green_canvas) (width green_canvas).
Proof.
  assert (Hstart : startswith (background green_canvas) "#" = true)
    by reflexivity.
  assert (Hrun : parse_background no_image green_canvas
                 = Ok [[(0, 255, 0); (0, 255, 0); (0, 255, 0)];
                       [(0, 255, 0); (0, 255, 0); (0, 255, 0)]])
    by reflexivity.
  split; [exact Hstart|]. split; [exact Hrun|].
  exact (proj1 (proj2 (proj2 (proj2 (parse_background_result no_image
                                       green_canvas) _ Hstart Hrun)))).
Defined.

(** A background of '#'s followed by six ASCII characters is accepted
    exactly when the size is not negative and each of the three pairs is
    something [int(_, 16)] takes: two hexadecimal digits, a digit after
    a sign or a blank, or a digit before a blank. *)
Theorem parse_background_accepts_iff
    (load_image : string → Z → Z → option buffer) (self : StarfieldGenerator)
    (n : nat) (c1 c2 c3 c4 c5 c6 : ascii) :
  background self = (repeat_char "#" (S n) ++ six c1 c2 c3 c4 c5 c6)%string →
  Ascii.eqb c1 "#" = false →
  Forall is_ascii [c1; c2; c3; c4; c5; c6] →
  (∃ img, parse_background load_image self = Ok img)
  ↔ is_Some (pair_channel c1 c2) ∧ is_Some (pair_channel c3 c4)
    ∧ is_Some (pair_channel c5 c6) ∧ 0 ≤ width self ∧ 0 ≤ height self.
Proof.
  intros Hbg Hc1 Hascii.
  rewrite (parse_background_six load_image self n c1 c2 c3 c4 c5 c6)
    by done.
  destruct (pair_channel c1 c2) as [r|]; [|split].
  2: { by intros [img ?]. }
  2: { by intros ([? ?] & _). }
  destruct (pair_channel c3 c4) as [g|]; [|split].
  2: { by intros [img ?]. }
  2: { by intros (_ & [? ?] & _). }
  destruct (pair_channel c5 c6) as [b|]; [|split].
  2: { by intros [img ?]. }
  2: { by intros (_ & _ & [? ?] & _). }
  split.
  - intros [img (Hw & Hh & _)%Image_new_Ok]. eauto 10.
  - intros (_ & _ & _ & Hw & Hh). unfold Image_new.
    destruct (Z.ltb_spec (width self) 0) as [?|_]; [lia|].
    destruct (Z.ltb_spec (height self) 0) as [?|_]; [lia|]. simpl. eauto.
Qed.

Lemma signed_canvas_ascii :
  Forall is_ascii ["+"; "f"; "-"; "a"; " "; "3"]%char.
Proof. repeat (apply Forall_cons_2; [vm_compute; lia|]). apply Forall_nil_2. Defined.

Lemma parse_background_accepts_iff_witness :
  ∃ img, parse_background no_image signed_canvas = Ok img.
Proof.
  apply (proj2 (parse_background_accepts_iff no_image signed_canvas 0
                  "+" "f" "-" "a" " " "3" eq_refl eq_refl signed_canvas_ascii)).
  repeat split; try (by eexists); simpl; lia.
Defined.

Lemma hex_digit_ascii (c : ascii) (d : Z) : hex_digit c = Some d → is_ascii c.
Proof.
  intros H. apply hex_digit_chars in H. unfold hex_chars in H. simpl in H.
  split_elem_of H; vm_compute; lia.
Qed.

Lemma pair_channel_signed (p c : ascii) (d : Z) :
  p ∈ [" "; "+"; "-"]%char → hex_digit c = Some d →
  is_ascii p ∧ Ascii.eqb p "#" = false
  ∧ ∃ v, pair_channel p c = Some v ∧ clip8 v = signed_channel p d.
Proof.
  intros Hp Hc. pose proof (hex_digit_range c d Hc) as Hd.
  unfold pair_channel, signed_channel. rewrite Hc.
  split_elem_of Hp; (split; [vm_compute; lia|]); (split; [reflexivity|]);
    simpl; eexists; (split; [reflexivity|]); unfold clip8; lia.
Qed.

(** A colour need not be six digits: each pair may be a blank or a sign
    and one digit.  A pair with '+' or a blank gives the digit's value,
    a pair with '-' gives a negative value, which the fill clips to 0. *)
Theorem parse_background_signed_pairs
    (load_image : string → Z → Z → option buffer) (self : StarfieldGenerator)
    (n : nat) (p1 c1 p2 c2 p3 c3 : ascii) (d1 d2 d3 : Z) :
  p1 ∈ [" "; "+"; "-"]%char → p2 ∈ [" "; "+"; "-"]%char →
  p3 ∈ [" "; "+"; "-"]%char →
  hex_digit c1 = Some d1 → hex_digit c2 = Some d2 → hex_digit c3 = Some d3 →
  background self = (repeat_char "#" (S n) ++ six p1 c1 p2 c2 p3 c3)%string →
  0 ≤ width self → 0 ≤ height self →
  parse_background load_image self
  = Ok (replicate (Z.to_nat (height self))
          (replicate (Z.to_nat (width self))
             (signed_channel p1 d1, signed_channel p2 d2, signed_channel p3 d3))).
Proof.
  intros Hp1 Hp2 Hp3 Hc1 Hc2 Hc3 Hbg Hw Hh.
  destruct (pair_channel_signed p1 c1 d1 Hp1 Hc1)
    as (Ha1 & Hhash & v1 & Hv1 & <-).
  destruct (pair_channel_signed p2 c2 d2 Hp2 Hc2) as (Ha2 & _ & v2 & Hv2 & <-).
  destruct (pair_channel_signed p3 c3 d3 Hp3 Hc3) as (Ha3 & _ & v3 & Hv3 & <-).
  rewrite (parse_background_six load_image self n p1 c1 p2 c2 p3 c3);
    [|done|done|].
  - rewrite Hv1, Hv2, Hv3. unfold Image_new.
    destruct (Z.ltb_spec (width self) 0) as [?|_]; [lia|].
    destruct (Z.ltb_spec (height self) 0) as [?|_]; [lia|]. done.
  - repeat (apply Forall_cons_2; [by eauto using hex_digit_ascii|]).
    apply Forall_nil_2.
Qed.

Lemma parse_background_signed_pairs_witness :
  parse_background no_image signed_canvas = Ok [[(15, 0, 3); (15, 0, 3)]].
Proof.
  exact (parse_background_signed_pairs no_image signed_canvas 0
           "+" "f" "-" "a" " " "3" 15 10 3
           ltac:(repeat first [apply list_elem_of_here | apply list_elem_of_further])
           ltac:(repeat first [apply list_elem_of_here | apply list_elem_of_further])
           ltac:(repeat first [apply list_elem_of_here | apply list_elem_of_further])
           eq_refl eq_refl eq_refl eq_refl
           ltac:(simpl; lia) ltac:(simpl; lia)).
Defined.

(** ** [generate] from end to end *)

Lemma int_of_float_lt_1 (f : pyfloat) : (f < 1)%Q → int_of_float f ≤ 0.
Proof.
  destruct f as [n d]. unfold Qlt, int_of_float. simpl. intros Hn.
  destruct (Z.le_gt_cases 0 n) as [Hpos|Hneg].
  - rewrite Z.quot_small by lia. lia.
  - replace n with (- - n) by lia. rewrite Z.quot_opp_l by lia.
    pose proof (Z.quot_pos (- n) (Z.pos d) ltac:(lia) ltac:(lia)). lia.
Qed.

(** Pass 2 on an array of the canvas's shape: nothing is raised, the
    shape and the range of the channels are kept. *)
Lemma spike_pass_ok (self : StarfieldGenerator) (stars : list star) (a : buffer) :
  shape a (height self) (width self) → channels_in_range a →
  (spike_pass self stars a).1 = None
  ∧ shape (spike_pass self stars a).2 (height self) (width self)
  ∧ channels_in_range (spike_pass self stars a).2.
Proof.
  revert a. induction stars as [|[[x y] b] stars IH]; intros a Hs Hc; [done|].
  rewrite spike_pass_cons. unfold then_.
  destruct (float_gt b 8%Q); [|by apply IH].
  destruct (spikes_ok self x y b a Hs) as [Hnone Hs'].
  assert (Hc' : channels_in_range (draw_diffraction_spikes self x y b a).2).
  { apply spikes_preserve; [|done].
    intros px py s a'. apply brighten_channels_in_range. }
  destruct (draw_diffraction_spikes self x y b a) as [[e|] a']; simpl in *;
    [done|].
  by apply IH.
Qed.

(** The background that [parse_background] returns for a colour has
    the size of the canvas and bytes in its channels. *)
Lemma parse_background_canvas (load_image : string → Z → Z → option buffer)
    (self : StarfieldGenerator) (img0 : buffer) :
  parse_background load_image self = Ok img0 →
  (startswith (background self) "#" = false →
   shape img0 (height self) (width self) ∧ channels_in_range img0) →
  shape img0 (height self) (width self) ∧ channels_in_range img0.
Proof.
  intros Hparse Hloader.
  destruct (startswith (background self) "#") eqn:Hstart; [|by apply Hloader].
  revert Hparse. unfold parse_background. rewrite Hstart.
  repeat case_match; try discriminate.
  intros (Hw & Hh & ->)%Image_new_Ok.
  split; [by apply shape_replicate|].
  apply channels_in_range_replicate, ink_in_range.
Qed.

(** What [generate] returns has the shape and the range of the
    background it started from. *)
Lemma generate_Ok_canvas (rng : Type) (random : rng → pyfloat * rng)
    (randint : Z → Z → rng → Z * rng) (pow : pyfloat → pyfloat → pyfloat)
    (ellipse_fill ellipse_outline : Z → Z → Z → Z → Z → Z → bool)
    (load_image : string → Z → Z → option buffer)
    (self : StarfieldGenerator) (s s' : rng) (img0 img : buffer) :
  parse_background load_image self = Ok img0 →
  shape img0 (height self) (width self) → channels_in_range img0 →
  generate rng random randint pow ellipse_fill ellipse_outline load_image
    self s = (Ok img, s') →
  shape img (height self) (width self) ∧ channels_in_range img.
Proof.
  intros Hparse Hshape Hrange. unfold generate. rewrite Hparse.
  destruct (sample_stars _ _ _ _ _ _ _ _) as [[stars|e] s1]; [|discriminate].
  destruct (glyph_pass_keeps ellipse_fill ellipse_outline stars img0 _ _
              Hshape Hrange) as [Hshape1 Hrange1].
  destruct (spike_pass_ok self stars _ Hshape1 Hrange1)
    as (Hnone & Hshape2 & Hrange2).
  destruct (spike_pass self stars _) as [[e|] a]; simpl in *; [done|].
  by intros [= <- <-].
Qed.

(** The sampling loop runs to its end on every canvas that an image
    fits: an empty canvas asks for no star, and on any other one
    [randint] has a range to draw from. *)
Lemma sample_stars_runs (rng : Type) (random : rng → pyfloat * rng)
    (randint : Z → Z → rng → Z * rng) (pow : pyfloat → pyfloat → pyfloat)
    (self : StarfieldGenerator) (s : rng) (img0 : buffer) :
  randint_in_range randint → shape img0 (height self) (width self) →
  ∃ stars s',
    sample_stars rng random randint pow self (Z.to_nat (num_stars self)) [] s
    = (Ok stars, s').
Proof.
  intros Hrand Hshape.
  destruct (decide (0 < width self ∧ 0 < height self)) as [[Hw Hh]|Hempty].
  - destruct (sample_stars_spec rng random randint pow self Hw Hh Hrand
                (Z.to_nat (num_stars self)) [] s)
      as (stars & s' & Hrun & _).
    by exists stars, s'.
  - assert (Hzero : width self * height self = 0).
    { destruct Hshape as [Hlen Hrows]. destruct img0 as [|row img0].
      - simpl in Hlen. rewrite <- Hlen. lia.
      - apply Forall_cons in Hrows as [Hrow _]. simpl in Hlen. nia. }
    assert (Hnum : num_stars self ≤ 0).
    { apply int_of_float_lt_1. unfold float_of_int. rewrite Hzero.
      change (inject_Z 0) with 0%Q. Lqa.lra. }
    replace (Z.to_nat (num_stars self)) with 0%nat by lia.
    by exists [], s.
Qed.

(** On a background of the canvas's shape [generate] returns. *)
Lemma generate_runs (rng : Type) (random : rng → pyfloat * rng)
    (randint : Z → Z → rng → Z * rng) (pow : pyfloat → pyfloat → pyfloat)
    (ellipse_fill ellipse_outline : Z → Z → Z → Z → Z → Z → bool)
    (load_image : string → Z → Z → option buffer)
    (self : StarfieldGenerator) (s : rng) (img0 : buffer) :
  randint_in_range randint →
  parse_background load_image self = Ok img0 →
  shape img0 (height self) (width self) → channels_in_range img0 →
  ∃ img s',
    generate rng random randint pow ellipse_fill ellipse_outline load_image
      self s
    = (Ok img, s').
Proof.
  intros Hrand Hparse Hshape Hrange.
  destruct (sample_stars_runs rng random randint pow self s img0 Hrand Hshape)
    as (stars & s' & Hrun).
  destruct (glyph_pass_keeps ellipse_fill ellipse_outline stars img0 _ _
              Hshape Hrange) as [Hshape1 Hrange1].
  destruct (spike_pass_ok self stars _ Hshape1 Hrange1) as (Hnone & _).
  unfold generate. rewrite Hparse, Hrun.
  destruct (spike_pass self stars _) as [[e|] a]; simpl in *; [done|].
  by exists a, s'.
Qed.



(** ** The sampler as an inverse distribution function *)

Lemma sampler_value (rng : Type) (random : rng → R * rng) (s : rng) :
  (RealModel.generate_star_brightness rng random s).1
  = RealModel.inverse_cdf (5 / 2) 1 10 (random (random s).2).1.
Proof.
  unfold RealModel.generate_star_brightness, RealModel.inverse_cdf.
  destruct (random s) as [u s1]. simpl.
  destruct (random s1) as [r s2]. simpl.
  by replace (- (5 / 2) + 1)%R with (1 - 5 / 2)%R by Lra.lra.
Qed.

(** The base [1 + r * (10^(-3/2) - 1)] of the outer power. *)
Lemma inverse_cdf_base (r : R) :
  (0 <= r <= 1)%R →
  RealModel.inverse_cdf (5 / 2) 1 10 r
  = Rpower (1 + r * (Rpower 10 (1 - 5 / 2) - 1)) (1 / (1 - 5 / 2))
  ∧ (0 < 1 + r * (Rpower 10 (1 - 5 / 2) - 1))%R.
Proof.
  intros Hr. unfold RealModel.inverse_cdf. rewrite Rpower_1_l.
  split; [done|]. pose proof Rpower_10_range. Lra.nra.
Qed.

(** Over the reals the brightness is the inverse of the power-law
    distribution function with exponent 2.5 on [[1, 10]]: putting the
    brightness sampled from the draw [r] into that function gives [r]
    back. *)
Theorem sampler_inverts_cdf (rng : Type) (random : rng → R * rng) (s : rng) :
  let r := (random (random s).2).1 in
  (0 <= r <= 1)%R →
  power_law_cdf (5 / 2) 1 10 (RealModel.generate_star_brightness rng random s).1
  = r.
Proof.
  intros r Hr. rewrite sampler_value. fold r.
  destruct (inverse_cdf_base r Hr) as [-> Hpos].
  pose proof Rpower_10_range as HB.
  unfold power_law_cdf. rewrite Rpower_mult, Rpower_1_l.
  replace (1 / (1 - 5 / 2) * (1 - 5 / 2))%R with 1%R by (field; Lra.lra).
  rewrite Rpower_1 by done. field. Lra.lra.
Qed.

Lemma sampler_inverts_cdf_witness :
  (0 <= (half_random (half_random 0%nat).2).1 <= 1)%R
  ∧ power_law_cdf (5 / 2) 1 10
      (RealModel.generate_star_brightness nat half_random 0%nat).1
    = (1 / 2)%R.
Proof.
  assert (Hr : (0 <= (half_random (half_random 0%nat).2).1 <= 1)%R)
    by (simpl; Lra.lra).
  split; [exact Hr|].
  exact (sampler_inverts_cdf nat half_random 0%nat Hr).
Defined.

Lemma inverse_cdf_increasing (r1 r2 : R) :
  (0 <= r1)%R → (r1 < r2)%R → (r2 <= 1)%R →
  (RealModel.inverse_cdf (5 / 2) 1 10 r1
   < RealModel.inverse_cdf (5 / 2) 1 10 r2)%R.
Proof.
  intros H0 Hlt H1.
  destruct (inverse_cdf_base r1 ltac:(Lra.lra)) as [-> Hpos1].
  destruct (inverse_cdf_base r2 ltac:(Lra.lra)) as [-> Hpos2].
  pose proof Rpower_10_range as HB.
  set (B := Rpower 10 (1 - 5 / 2)) in *.
  assert (Hln : (ln (1 + r2 * (B - 1)) < ln (1 + r1 * (B - 1)))%R)
    by (apply ln_increasing; [done|Lra.nra]).
  unfold Rpower. apply exp_increasing.
  replace (1 / (1 - 5 / 2))%R with (- (2 / 3))%R by field.
  Lra.lra.
Qed.

(** Over the reals the brightness grows strictly with the draw: the
    draw 0 gives the dimmest star, of brightness exactly 1, and no draw
    below 1 reaches brightness 10. *)
Theorem sampler_increasing (rng : Type) (random : rng → R * rng) (s1 s2 : rng) :
  let r1 := (random (random s1).2).1 in
  let r2 := (random (random s2).2).1 in
  let b1 := (RealModel.generate_star_brightness rng random s1).1 in
  let b2 := (RealModel.generate_star_brightness rng random s2).1 in
  (0 <= r1)%R → (r2 < 1)%R →
  ((r1 < r2)%R → (b1 < b2)%R)
  ∧ (r1 = 0%R → b1 = 1%R)
  ∧ (0 <= r2 → b2 < 10)%R.
Proof.
  intros r1 r2 b1 b2 H0 H1. subst b1 b2. rewrite !sampler_value.
  fold r1 r2. split; [|split].
  - intros Hlt. apply inverse_cdf_increasing; Lra.lra.
  - intros ->. destruct (inverse_cdf_base 0 ltac:(Lra.lra)) as [-> _].
    rewrite Rmult_0_l, Rplus_0_r. apply Rpower_1_l.
  - intros Hr2.
    replace 10%R with (RealModel.inverse_cdf (5 / 2) 1 10 1) at 2.
    + apply inverse_cdf_increasing; Lra.lra.
    + destruct (inverse_cdf_base 1 ltac:(Lra.lra)) as [-> _].
      replace (1 + 1 * (Rpower 10 (1 - 5 / 2) - 1))%R
        with (Rpower 10 (1 - 5 / 2)) by Lra.lra.
      rewrite Rpower_mult.
      replace ((1 - 5 / 2) * (1 / (1 - 5 / 2)))%R with 1%R by (field; Lra.lra).
      apply Rpower_1. Lra.lra.
Qed.

Lemma sampler_increasing_witness :
  (0 <= (half_random (half_random 0%nat).2).1)%R
  ∧ ((half_random (half_random 1%nat).2).1 < 1)%R
  ∧ ((RealModel.generate_star_brightness nat half_random 1%nat).1 < 10)%R.
Proof.
  assert (H0 : (0 <= (half_random (half_random 0%nat).2).1)%R)
    by (simpl; Lra.lra).
  assert (H1 : ((half_random (half_random 1%nat).2).1 < 1)%R)
    by (simpl; Lra.lra).
  split; [exact H0|]. split; [exact H1|].
  apply (proj2 (proj2 (sampler_increasing nat half_random 0%nat 1%nat H0 H1))).
  simpl. Lra.lra.
Defined.

(** ** [parse_size] *)

Lemma span_digits_spec (l : list ascii) :
  l = (span_digits l).1 ++ (span_digits l).2
  ∧ digits (span_digits l).1 ∧ no_digit_ahead (span_digits l).2.
Proof.
  induction l as [|c l (IH1 & IH2 & IH3)]; simpl.
  { split; [done|]. split; [apply Forall_nil_2|]. by intros c l' [=]. }
  destruct (is_digit c) eqn:Hc.
  - destruct (span_digits l) as [ds rest]. simpl in *.
    split; [by f_equal|]. split; [by apply Forall_cons_2|done].
  - simpl. split; [done|]. split; [apply Forall_nil_2|].
    by intros c' l' [= <- <-].
Qed.

(** The run of digits at the head of [ds ++ rest] is [ds] and the run at
    the head of [rest]. *)
Lemma span_digits_app (ds rest : list ascii) :
  digits ds →
  span_digits (ds ++ rest)
  = (ds ++ (span_digits rest).1, (span_digits rest).2).
Proof.
  intros Hds. induction Hds as [|c ds Hc _ IH]; simpl.
  - by destruct (span_digits rest).
  - rewrite Hc, IH. done.
Qed.

Lemma span_digits_stop (l : list ascii) :
  no_digit_ahead l → span_digits l = ([], l).
Proof.
  intros Hl. destruct l as [|c l]; [done|]. simpl.
  by rewrite (Hl c l eq_refl).
Qed.

Lemma separator_no_digit (sep : ascii) (l : list ascii) :
  sep = "x"%char ∨ sep = ":"%char → no_digit_ahead (sep :: l).
Proof. intros [->| ->] c l' [= <- <-]; reflexivity. Qed.

(** A match of the pattern: the first group is as given, the second
    takes all the digits that follow. *)
Lemma re_match_size_prefix (s : string) (g1 g2 : list ascii) (sep : ascii)
    (rest : list ascii) :
  list_ascii_of_string s = g1 ++ sep :: g2 ++ rest →
  g1 ≠ [] → g2 ≠ [] → digits g1 → digits g2 →
  sep = "x"%char ∨ sep = ":"%char →
  re_match_size s = Some (g1, g2 ++ (span_digits rest).1).
Proof.
  intros Hs Hg1 Hg2 Hd1 Hd2 Hsep. unfold re_match_size.
  rewrite Hs, span_digits_app by done.
  rewrite (span_digits_stop (sep :: _)) by (by apply separator_no_digit).
  rewrite app_nil_r. simpl. destruct g1 as [|c1 g1]; [done|].
  assert (Hsepb : Ascii.eqb sep "x" || Ascii.eqb sep ":" = true)
    by (by destruct Hsep as [->| ->]).
  rewrite Hsepb, span_digits_app by done. simpl.
  destruct g2 as [|c2 g2]; done.
Qed.

Lemma re_match_size_Some (s : string) (g1 g2 : list ascii) :
  re_match_size s = Some (g1, g2) → size_prefix (list_ascii_of_string s) g1 g2.
Proof.
  unfold re_match_size.
  destruct (span_digits_spec (list_ascii_of_string s)) as (Hl & Hd1 & _).
  destruct (span_digits (list_ascii_of_string s)) as [ds1 rest1].
  simpl in *. destruct ds1 as [|c1 ds1]; [done|].
  destruct rest1 as [|sep rest1]; [done|].
  destruct (Ascii.eqb sep "x" || Ascii.eqb sep ":") eqn:Hsep; [|done].
  destruct (span_digits_spec rest1) as (Hl2 & Hd2 & _).
  destruct (span_digits rest1) as [ds2 rest2]. simpl in *.
  destruct ds2 as [|c2 ds2]; [done|]. intros [= <- <-].
  exists sep, rest2. split; [by rewrite Hl, Hl2|].
  split; [done|]. split; [done|]. split; [done|]. split; [done|].
  apply orb_true_iff in Hsep as [H|H]; apply Ascii.eqb_eq in H; auto.
Qed.

Lemma digit_value_range (c : ascii) : is_digit c = true → 0 ≤ digit_value c ≤ 9.
Proof.
  unfold is_digit, digit_value. intros H.
  apply andb_true_iff in H as [H1 H2]. apply Nat.leb_le in H1, H2. lia.
Qed.

Lemma int_decimal_nonneg (ds : list ascii) : digits ds → 0 ≤ int_decimal ds.
Proof.
  assert (H : ∀ acc, 0 ≤ acc → digits ds →
              0 ≤ foldl (λ acc c, 10 * acc + digit_value c) acc ds).
  { induction ds as [|c ds IH]; intros acc Hacc Hds; [done|].
    apply Forall_cons in Hds as [Hc Hds]. simpl. apply IH; [|done].
    pose proof (digit_value_range c Hc). lia. }
  intros Hds. by apply H.
Qed.

Lemma int_of_digits_within (limit : nat) (ds : list ascii) :
  within_digit_limit limit ds →
  int_of_digits limit ds = Return (int_decimal ds).
Proof.
  unfold int_of_digits, within_digit_limit. intros [->|H]; [done|].
  destruct (Nat.ltb_spec limit (length ds)); [lia|]. by rewrite andb_false_r.
Qed.

Lemma int_of_digits_cases (limit : nat) (ds : list ascii) :
  int_of_digits limit ds = Return (int_decimal ds)
  ∨ (int_of_digits limit ds = Throw (Exn ValueError) ∧ limit ≠ 0%nat).
Proof.
  unfold int_of_digits. destruct (Nat.ltb_spec 0 limit); simpl; [|by left].
  destruct (limit <? length ds)%nat; [right|by left]. split; [done|lia].
Qed.

(** A string that starts with digits, an 'x' or a ':', and digits again
    is read as these two numbers, which are not negative, whatever
    follows the second number; the numbers must be short enough for
    [int] where the interpreter limits that. *)
Theorem parse_size_accepts (limit : nat) (g1 g2 rest : list ascii) (sep : ascii) :
  g1 ≠ [] → g2 ≠ [] → digits g1 → digits g2 →
  sep = "x"%char ∨ sep = ":"%char → no_digit_ahead rest →
  within_digit_limit limit g1 → within_digit_limit limit g2 →
  parse_size limit (string_of_list_ascii (g1 ++ sep :: g2 ++ rest))
  = Return (int_decimal g1, int_decimal g2)
  ∧ 0 ≤ int_decimal g1 ∧ 0 ≤ int_decimal g2.
Proof.
  intros Hg1 Hg2 Hd1 Hd2 Hsep Hrest Hl1 Hl2.
  split; [|split; by apply int_decimal_nonneg].
  unfold parse_size.
  rewrite (re_match_size_prefix _ g1 g2 sep rest)
    by (done || apply list_ascii_of_string_of_list_ascii).
  rewrite span_digits_stop, app_nil_r by done. simpl.
  by rewrite !int_of_digits_within.
Qed.

Lemma parse_size_accepts_witness :
  parse_size 4300 "10:20abc" = Return (10, 20).
Proof.
  assert (Hd : digits ["1"; "0"]%char)
    by (repeat (apply Forall_cons_2; [reflexivity|]); apply Forall_nil_2).
  assert (Hd' : digits ["2"; "0"]%char)
    by (repeat (apply Forall_cons_2; [reflexivity|]); apply Forall_nil_2).
  assert (Hrest : no_digit_ahead ["a"; "b"; "c"]%char)
    by (by intros c l' [= <- <-]).
  assert (Hl : within_digit_limit 4300 ["1"; "0"]%char)
    by (right; simpl; lia).
  assert (Hl' : within_digit_limit 4300 ["2"; "0"]%char)
    by (right; simpl; lia).
  exact (proj1 (parse_size_accepts 4300 ["1"; "0"]%char ["2"; "0"]%char
                  ["a"; "b"; "c"]%char ":"%char
                  ltac:(discriminate) ltac:(discriminate) Hd Hd'
                  (or_intror eq_refl) Hrest Hl Hl')).
Defined.

(** How [parse_size] ends.  It raises [ArgumentTypeError] exactly when
    the string does not start with digits, an 'x' or a ':', and digits
    (a blank in front, an upper-case 'X' or a missing number are
    refused).  What it returns are two numbers that are not negative,
    read from such a start.  The only other exception is the
    [ValueError] of [int] on a number longer than the interpreter's
    limit. *)
Theorem parse_size_outcomes (limit : nat) (s : string) :
  (parse_size limit s = Throw ArgumentTypeError
   ↔ ¬ ∃ g1 g2, size_prefix (list_ascii_of_string s) g1 g2)
  ∧ (∀ w h, parse_size limit s = Return (w, h) →
       0 ≤ w ∧ 0 ≤ h
       ∧ ∃ g1 g2, size_prefix (list_ascii_of_string s) g1 g2
           ∧ w = int_decimal g1 ∧ h = int_decimal g2)
  ∧ (∀ e, parse_size limit s = Throw e →
       e = ArgumentTypeError ∨ (e = Exn ValueError ∧ limit ≠ 0%nat)).
Proof.
  unfold parse_size. destruct (re_match_size s) as [[g1 g2]|] eqn:Hmatch.
  - pose proof (re_match_size_Some s g1 g2 Hmatch) as Hprefix.
    assert (Hdigits : digits g1 ∧ digits g2).
    { destruct Hprefix as (sep & rest & _ & _ & _ & ? & ? & _). done. }
    destruct Hdigits as [Hd1 Hd2].
    destruct (int_of_digits_cases limit g1) as [->|[-> Hlim]];
      [destruct (int_of_digits_cases limit g2) as [->|[-> Hlim]]|].
    + split; [split; [done|]|split; [|done]].
      * intros Hno. destruct Hno. by exists g1, g2.
      * intros w h [= <- <-].
        split; [by apply int_decimal_nonneg|].
        split; [by apply int_decimal_nonneg|]. by exists g1, g2.
    + split; [split; [done|]|split; [done|]].
      * intros Hno. destruct Hno. by exists g1, g2.
      * intros e [= <-]. by right.
    + split; [split; [done|]|split; [done|]].
      * intros Hno. destruct Hno. by exists g1, g2.
      * intros e [= <-]. by right.
  - split; [split; [|done]|split; [done|]].
    + intros _ (g1 & g2 & sep & rest & Hl & Hg1 & Hg2 & Hd1 & Hd2 & Hsep).
      by rewrite (re_match_size_prefix s g1 g2 sep rest) in Hmatch.
    + intros e [= <-]. by left.
Qed.

Lemma parse_size_outcomes_witness :
  ¬ ∃ g1 g2, size_prefix (list_ascii_of_string " 10x20") g1 g2.
Proof.
  exact (proj1 (proj1 (parse_size_outcomes 4300 " 10x20")) eq_refl).
Defined.

(** ** [main] *)

Section Main.

Variable limit : nat.
Variable rng : Type.
Variable random : rng → pyfloat * rng.
Variable randint : Z → Z → rng → Z * rng.
Variable pow : pyfloat → pyfloat → pyfloat.
Variable ellipse_fill : Z → Z → Z → Z → Z → Z → bool.
Variable ellipse_outline : Z → Z → Z → Z → Z → Z → bool.
Variable load_image : string → Z → Z → option buffer.
Variable Image_save : string → buffer → bool.

(** [main] once the size is parsed and the density is in [[0, 1]]. *)
Lemma main_generates (args : argparse.Namespace) (s : rng) (w h : Z) :
  parse_size limit (argparse.size args) = Return (w, h) →
  (0 <= argparse.density args)%Q → (argparse.density args <= 1)%Q →
  main limit rng random randint pow ellipse_fill ellipse_outline load_image
    Image_save args s
  = match generate rng random randint pow ellipse_fill ellipse_outline
            load_image (generator_of w h args) s with
    | (Raise e, s') =>
        ([print_generating w h (argparse.density args)], Throw (Exn e), s')
    | (Ok img, s') =>
        if Image_save (argparse.output args) img then
          ([print_generating w h (argparse.density args);
            save (argparse.output args) img;
            print_saved (argparse.output args)], Return tt, s')
        else ([print_generating w h (argparse.density args)],
              Throw SaveError, s')
    end.
Proof.
  intros Hsize H0 H1. unfold main. rewrite Hsize.
  apply float_le_true in H0, H1. rewrite H0, H1. done.
Qed.

Lemma main_rejects (args : argparse.Namespace) (s : rng) :
  (∀ e, parse_size limit (argparse.size args) = Throw e →
     main limit rng random randint pow ellipse_fill ellipse_outline
       load_image Image_save args s
     = ([], Throw e, s))
  ∧ (∀ w h, parse_size limit (argparse.size args) = Return (w, h) →
       (argparse.density args < 0)%Q ∨ (1 < argparse.density args)%Q →
       main limit rng random randint pow ellipse_fill ellipse_outline
         load_image Image_save args s
       = ([parser_error "Density must be between 0.0 and 1.0"],
          Throw (SystemExit 2), s)).
Proof.
  unfold main. split.
  - intros e ->. done.
  - intros w h -> Hd.
    destruct Hd as [Hd|Hd]; apply float_le_false in Hd; rewrite Hd;
      [done|by rewrite andb_false_r].
Qed.

End Main.

(** [main] checks its arguments before it does anything: a size that
    [parse_size] refuses ends the call with that exception (not with
    the parser's error exit) and no output of [main], whatever the
    density is; with a size that parses, a density below 0 or above 1
    makes [parser.error] write the usage and its message to standard
    error and end the call with exit status 2.  In both cases nothing
    was printed on standard output, generated or saved, and no random
    number was drawn. *)
Theorem main_rejects_arguments (limit : nat) (rng : Type)
    (random : rng → pyfloat * rng) (randint : Z → Z → rng → Z * rng)
    (pow : pyfloat → pyfloat → pyfloat)
    (ellipse_fill ellipse_outline : Z → Z → Z → Z → Z → Z → bool)
    (load_image : string → Z → Z → option buffer)
    (Image_save : string → buffer → bool)
    (args : argparse.Namespace) (s : rng) :
  (¬ (∃ g1 g2, size_prefix (list_ascii_of_string (argparse.size args)) g1 g2) →
   main limit rng random randint pow ellipse_fill ellipse_outline load_image
     Image_save args s
   = ([], Throw ArgumentTypeError, s))
  ∧ (∀ w h, parse_size limit (argparse.size args) = Return (w, h) →
       (argparse.density args < 0)%Q ∨ (1 < argparse.density args)%Q →
       main limit rng random randint pow ellipse_fill ellipse_outline
         load_image Image_save args s
       = ([parser_error "Density must be between 0.0 and 1.0"],
          Throw (SystemExit 2), s)).
Proof.
  split; [|apply main_rejects].
  intros Hno. apply main_rejects. unfold parse_size.
  destruct (re_match_size (argparse.size args)) as [[g1 g2]|] eqn:Hmatch;
    [|done].
  destruct Hno. exists g1, g2. by apply re_match_size_Some.
Qed.

Lemma main_rejects_arguments_witness :
  parse_size 4300 (argparse.size dense_args) = Return (20, 20)
  ∧ (1 < argparse.density dense_args)%Q
  ∧ main 4300 Z lcg_random lcg_randint pow_int_exponent disc_fill disc_outline
      no_image save_ok dense_args 42
    = ([parser_error "Density must be between 0.0 and 1.0"],
       Throw (SystemExit 2), 42).
Proof.
  assert (Hsize : parse_size 4300 (argparse.size dense_args) = Return (20, 20))
    by reflexivity.
  assert (Hd : (1 < argparse.density dense_args)%Q) by reflexivity.
  split; [exact Hsize|]. split; [exact Hd|].
  exact (proj2 (main_rejects_arguments 4300 Z lcg_random lcg_randint
                  pow_int_exponent disc_fill disc_outline no_image save_ok
                  dense_args 42) 20 20 Hsize (or_intror Hd)).
Defined.

(** Whatever [main] saves is a finished picture: a [save] happens only
    after the size parsed and the density passed its check, it is the
    only [save] of the call, it writes to the output path between the
    two messages, and the call then returns normally.  For a colour
    background the saved image has the parsed height and width and
    bytes in all its channels. *)
Theorem main_saves_canvas (limit : nat) (rng : Type)
    (random : rng → pyfloat * rng) (randint : Z → Z → rng → Z * rng)
    (pow : pyfloat → pyfloat → pyfloat)
    (ellipse_fill ellipse_outline : Z → Z → Z → Z → Z → Z → bool)
    (load_image : string → Z → Z → option buffer)
    (Image_save : string → buffer → bool)
    (args : argparse.Namespace) (s s' : rng) (events : list event)
    (out : outcome unit) (path : string) (img : buffer) :
  main limit rng random randint pow ellipse_fill ellipse_outline load_image
    Image_save args s = (events, out, s') →
  save path img ∈ events →
  ∃ w h,
    parse_size limit (argparse.size args) = Return (w, h)
    ∧ (0 <= argparse.density args <= 1)%Q
    ∧ path = argparse.output args
    ∧ events = [print_generating w h (argparse.density args);
                save path img; print_saved path]
    ∧ out = Return tt
    ∧ (startswith (argparse.background args) "#" = true →
       shape img h w ∧ channels_in_range img).
Proof.
  intros Hmain Hsave.
  destruct (parse_size limit (argparse.size args)) as [[w h]|e] eqn:Hsize.
  2: { rewrite (proj1 (main_rejects limit rng random randint pow ellipse_fill
                         ellipse_outline load_image Image_save args s) e Hsize)
         in Hmain.
       injection Hmain as <- _ _. by apply elem_of_nil in Hsave. }
  destruct (Qlt_le_dec (argparse.density args) 0) as [Hneg|H0].
  { rewrite (proj2 (main_rejects limit rng random randint pow ellipse_fill
                      ellipse_outline load_image Image_save args s) w h Hsize
               (or_introl Hneg)) in Hmain.
    injection Hmain as <- _ _.
    apply elem_of_cons in Hsave as [Hsave|Hsave];
      [discriminate|by apply elem_of_nil in Hsave]. }
  destruct (Qlt_le_dec 1 (argparse.density args)) as [Hbig|H1].
  { rewrite (proj2 (main_rejects limit rng random randint pow ellipse_fill
                      ellipse_outline load_image Image_save args s) w h Hsize
               (or_intror Hbig)) in Hmain.
    injection Hmain as <- _ _.
    apply elem_of_cons in Hsave as [Hsave|Hsave];
      [discriminate|by apply elem_of_nil in Hsave]. }
  rewrite (main_generates limit rng random randint pow ellipse_fill
             ellipse_outline load_image Image_save args s w h) in Hmain
    by done.
  exists w, h. split; [done|]. split; [done|].
  destruct (generate _ _ _ _ _ _ _ _ _) as [[img1|e] s1] eqn:Hgen.
  2: { injection Hmain as <- _ _.
       apply elem_of_cons in Hsave as [Hsave|Hsave];
         [discriminate|by apply elem_of_nil in Hsave]. }
  destruct (Image_save (argparse.output args) img1).
  2: { injection Hmain as <- _ _.
       apply elem_of_cons in Hsave as [Hsave|Hsave];
         [discriminate|by apply elem_of_nil in Hsave]. }
  injection Hmain as <- <- <-.
  apply elem_of_cons in Hsave as [Hsave|Hsave]; [discriminate|].
  apply elem_of_cons in Hsave as [Hsave|Hsave].
  2: { apply elem_of_cons in Hsave as [Hsave|Hsave];
         [discriminate|by apply elem_of_nil in Hsave]. }
  injection Hsave as -> ->.
  split; [done|]. split; [done|]. split; [done|].
  intros Hstart.
  destruct (parse_background load_image (generator_of w h args))
    as [img0|e] eqn:Hparse.
  2: { unfold generate in Hgen. by rewrite Hparse in Hgen. }
  destruct (parse_background_canvas load_image (generator_of w h args) img0
              Hparse) as [Hshape Hrange].
  { simpl. by rewrite Hstart. }
  by apply (generate_Ok_canvas rng random randint pow ellipse_fill
              ellipse_outline load_image (generator_of w h args) s s1 img0).
Qed.


(** With a size that parses, a density in [[0, 1]], a colour background
    that [parse_background] accepts (or an image that loads at the
    requested size), a [randint] that stays in its range and a [save]
    that succeeds, [main] prints its first message, saves one image of
    the parsed height and width with bytes in all channels to the output
    path, prints its second message and returns. *)
Theorem main_succeeds (limit : nat) (rng : Type)
    (random : rng → pyfloat * rng) (randint : Z → Z → rng → Z * rng)
    (pow : pyfloat → pyfloat → pyfloat)
    (ellipse_fill ellipse_outline : Z → Z → Z → Z → Z → Z → bool)
    (load_image : string → Z → Z → option buffer)
    (Image_save : string → buffer → bool)
    (args : argparse.Namespace) (s : rng) (w h : Z) (img0 : buffer) :
  parse_size limit (argparse.size args) = Return (w, h) →
  (0 <= argparse.density args <= 1)%Q →
  randint_in_range randint →
  parse_background load_image (generator_of w h args) = Ok img0 →
  (startswith (argparse.background args) "#" = false →
   shape img0 h w ∧ channels_in_range img0) →
  (∀ img, Image_save (argparse.output args) img = true) →
  ∃ img s',
    main limit rng random randint pow ellipse_fill ellipse_outline load_image
      Image_save args s
    = ([print_generating w h (argparse.density args);
        save (argparse.output args) img;
        print_saved (argparse.output args)], Return tt, s')
    ∧ shape img h w ∧ channels_in_range img.
Proof.
  intros Hsize [H0 H1] Hrand Hparse Hloader Hsave.
  rewrite (main_generates limit rng random randint pow ellipse_fill
             ellipse_outline load_image Image_save args s w h) by done.
  destruct (parse_background_canvas load_image (generator_of w h args) img0
              Hparse Hloader) as [Hshape0 Hrange0].
  destruct (generate_runs rng random randint pow ellipse_fill ellipse_outline
              load_image (generator_of w h args) s img0 Hrand Hparse Hshape0
              Hrange0) as (img & s' & Hrun).
  destruct (generate_Ok_canvas rng random randint pow ellipse_fill
              ellipse_outline load_image (generator_of w h args) s s' img0 img
              Hparse Hshape0 Hrange0 Hrun) as [Hshape Hrange].
  rewrite Hrun, Hsave. by exists img, s'.
Qed.

Lemma square_args_ok :
  parse_size 4300 (argparse.size square_args) = Return (20, 20)
  ∧ (0 <= argparse.density square_args <= 1)%Q
  ∧ parse_background no_image (generator_of 20 20 square_args) = Ok black_square
  ∧ (startswith (argparse.background square_args) "#" = false →
     shape black_square 20 20 ∧ channels_in_range black_square)
  ∧ ∀ img, save_ok (argparse.output square_args) img = true.
Proof.
  split; [reflexivity|]. split; [split; vm_compute; discriminate|].
  split; [reflexivity|]. split; [discriminate|reflexivity].
Defined.

Lemma main_succeeds_witness :
  ∃ img s',
    main 4300 Z lcg_random lcg_randint pow_int_exponent disc_fill disc_outline
      no_image save_ok square_args 42
    = ([print_generating 20 20 (argparse.density square_args);
        save (argparse.output square_args) img;
        print_saved (argparse.output square_args)], Return tt, s')
    ∧ shape img 20 20 ∧ channels_in_range img.
Proof.
  destruct square_args_ok as (Hsize & Hd & Hparse & Hloader & Hsave).
  exact (main_succeeds 4300 Z lcg_random lcg_randint pow_int_exponent
           disc_fill disc_outline no_image save_ok square_args 42 20 20
           black_square Hsize Hd lcg_randint_in_range Hparse Hloader Hsave).
Defined.

Lemma main_saves_canvas_witness :
  ∃ img s',
    main 4300 Z lcg_random lcg_randint pow_int_exponent disc_fill disc_outline
      no_image save_ok square_args 42
    = ([print_generating 20 20 (argparse.density square_args);
        save (argparse.output square_args) img;
        print_saved (argparse.output square_args)], Return tt, s')
    ∧ ∃ w h,
        parse_size 4300 (argparse.size square_args) = Return (w, h)
        ∧ (startswith (argparse.background square_args) "#" = true →
           shape img h w ∧ channels_in_range img).
Proof.
  destruct square_args_ok as (Hsize & [H0 H1] & Hparse & Hloader & Hsave).
  destruct (generate_runs Z lcg_random lcg_randint pow_int_exponent disc_fill
              disc_outline no_image (generator_of 20 20 square_args) 42
              black_square lcg_randint_in_range Hparse black_square_shape
              (channels_in_range_replicate 20 20 (0, 0, 0)
                 (ink_in_range (0, 0, 0))))
    as (img & s' & Hrun).
  pose proof (main_generates 4300 Z lcg_random lcg_randint pow_int_exponent
                disc_fill disc_outline no_image save_ok square_args 42 20 20
                Hsize H0 H1) as Hmain.
  rewrite Hrun in Hmain. change (save_ok _ img) with true in Hmain.
  exists img, s'. split; [exact Hmain|].
  destruct (main_saves_canvas 4300 Z lcg_random lcg_randint pow_int_exponent
              disc_fill disc_outline no_image save_ok square_args 42 s' _ _
              (argparse.output square_args) img Hmain
              ltac:(apply list_elem_of_further, list_elem_of_here))
    as (w & h & Hwh & _ & _ & _ & _ & Hcanvas).
  exists w, h. split; [exact Hwh|exact Hcanvas].
Defined.

(** ** The two passes together: pixels away from every star *)

Lemma star_radius_le_2 (b : pyfloat) :
  (6 <= b)%Q → (b <= 10)%Q → 0 ≤ star_radius b ≤ 2.
Proof.
  intros Hlo Hhi. rewrite star_radius_floor by Lqa.lra. split.
  - transitivity (Qfloor 0%Q); [done|]. apply Qfloor_resp_le.
    apply Qle_shift_div_l; Lqa.lra.
  - transitivity (Qfloor 2%Q); [|done]. apply Qfloor_resp_le.
    apply Qle_shift_div_r; Lqa.lra.
Qed.

(** Up to brightness 10 a glyph stays within 3 pixels of its star. *)
Lemma star_footprint_within
    (ellipse_fill ellipse_outline : Z → Z → Z → Z → Z → Z → bool)
    (x y : Z) (b : pyfloat) (px py : Z) :
  inside_bbox ellipse_fill → inside_bbox ellipse_outline → (b <= 10)%Q →
  star_footprint ellipse_fill ellipse_outline x y b px py = true →
  within 3 x y px py.
Proof.
  intros Hfill Houtline Hb. unfold star_footprint, within.
  destruct (float_lt b 3%Q) eqn:Hb3.
  { intros H. apply bool_decide_eq_true in H. lia. }
  destruct (float_lt b 6%Q) eqn:Hb6.
  { intros H. apply Hfill in H. lia. }
  apply float_lt_false in Hb6.
  pose proof (star_radius_le_2 b Hb6 Hb) as Hradius. simpl.
  intros H. apply orb_true_iff in H as [H|H].
  - apply Hfill in H. lia.
  - apply andb_true_iff in H as [_ H]. apply Houtline in H. lia.
Qed.

(** A call leaves alone what is out of reach of its rays. *)
Lemma spikes_far (self : StarfieldGenerator) (a : buffer) (x y : Z)
    (b : pyfloat) (r c : nat) :
  (b <= 9)%Q ∨ ((b <= 10)%Q ∧ ¬ within 19 x y (Z.of_nat c) (Z.of_nat r)) →
  pixel_at (draw_diffraction_spikes self x y b a).2 r c = pixel_at a r c.
Proof.
  intros Hfar.
  destruct (Qlt_le_dec 9 b) as [Hb|Hb]; [|by rewrite spikes_skip_le_9].
  destruct Hfar as [Hb9|[Hb10 Hout]]; [Lqa.lra|].
  destruct (spike_length_range b Hb) as [_ Hlen]. specialize (Hlen Hb10).
  rewrite spikes_as_steps by done. apply steps_untouched.
  intros t Ht [Hx Hy] Hcell.
  apply elem_of_spike_steps in Ht as (d & i & Hd & Hi & Ht); [|done].
  destruct t as [[tx ty] s]. simpl in *. injection Ht as -> ->.
  unfold cell in Hcell. simpl in Hcell. injection Hcell as Hr Hc.
  apply Hout. unfold within.
  unfold eight_dirs, cardinal_dirs, diagonal_dirs in Hd. simpl in Hd.
  split_elem_of Hd; simpl in *; lia.
Qed.

(** A pixel that is far from every star keeps the colour of the
    background through both passes of [generate]: far means more than
    19 pixels away on one axis, or more than 3 when the star is not
    brighter than 9.  Brightness is at most 10, and the rasteriser stays
    in its bounding box. *)
Theorem passes_keep_distant_pixels (self : StarfieldGenerator)
    (ellipse_fill ellipse_outline : Z → Z → Z → Z → Z → Z → bool)
    (stars : list star) (img : buffer) (r c : nat) :
  inside_bbox ellipse_fill → inside_bbox ellipse_outline →
  (∀ x y b, (x, y, b) ∈ stars →
     (b <= 10)%Q
     ∧ (¬ within 19 x y (Z.of_nat c) (Z.of_nat r)
        ∨ ((b <= 9)%Q ∧ ¬ within 3 x y (Z.of_nat c) (Z.of_nat r)))) →
  pixel_at (spike_pass self stars
              (glyph_pass ellipse_fill ellipse_outline stars img)).2 r c
  = pixel_at img r c.
Proof.
  intros Hfill Houtline Hfar.
  transitivity (pixel_at (glyph_pass ellipse_fill ellipse_outline stars img) r c).
  - unfold spike_pass.
    apply (for_each_preserves
             (λ a, pixel_at a r c
                   = pixel_at (glyph_pass ellipse_fill ellipse_outline stars img)
                       r c)); [|done].
    intros [[x y] b] a Hst Ha. destruct (Hfar x y b Hst) as [Hb Hor].
    destruct (float_gt b 8%Q); [|done]. rewrite <- Ha. apply spikes_far.
    destruct Hor as [Hout|[Hb9 _]]; [by right|by left].
  - clear self. revert img.
    induction stars as [|[[x y] b] stars IH]; intros img; [done|].
    change (pixel_at (glyph_pass ellipse_fill ellipse_outline stars
                        (draw_star ellipse_fill ellipse_outline img x y b)) r c
            = pixel_at img r c).
    rewrite IH by (intros; apply Hfar; by right).
    apply draw_star_frame.
    destruct (Hfar x y b ltac:(left)) as [Hb Hor].
    destruct (star_footprint _ _ _ _ _ _ _) eqn:Hon; [|done].
    apply star_footprint_within in Hon; [|done..].
    unfold within in *. destruct Hor as [Hout|[_ Hout]]; lia.
Qed.

Lemma passes_keep_distant_pixels_witness :
  inside_bbox disc_fill ∧ inside_bbox disc_outline
  ∧ pixel_at (spike_pass square_canvas [(1, 1, 8.5%Q)]
                (glyph_pass disc_fill disc_outline [(1, 1, 8.5%Q)]
                   black_square)).2 10 10
    = pixel_at black_square 10 10.
Proof.
  split; [exact disc_fill_inside|]. split; [exact disc_outline_inside|].
  apply (passes_keep_distant_pixels square_canvas disc_fill disc_outline
           [(1, 1, 8.5%Q)] black_square 10 10 disc_fill_inside
           disc_outline_inside).
  intros x y b Hst. apply elem_of_cons in Hst as [Hst|Hst];
    [|by apply elem_of_nil in Hst].
  injection Hst as -> -> ->. split; [vm_compute; discriminate|].
  right. split; [vm_compute; discriminate|]. unfold within. simpl. lia.
Defined.

(** ** Pass 2 in closed form *)

Lemma spike_steps_nonneg (x y : Z) (b : pyfloat) (t : Z * Z * Z) :
  (9 < b)%Q → t ∈ spike_steps x y b → 0 ≤ t.2.
Proof.
  intros Hb Ht. unfold spike_steps in Ht. apply elem_of_app in Ht as [Ht|Ht].
  - apply elem_of_rays in Ht as (d & i & _ & Hi & ->). simpl.
    by apply cardinal_spike_val_nonneg.
  - destruct (float_gt b 9.5%Q); [|by apply elem_of_nil in Ht].
    apply elem_of_rays in Ht as (d & i & _ & Hi & ->). simpl.
    by apply diagonal_spike_val_nonneg.
Qed.

Lemma pass_steps_nonneg (stars : list star) (t : Z * Z * Z) :
  t ∈ pass_steps stars → 0 ≤ t.2.
Proof.
  unfold pass_steps. intros Ht.
  apply list_elem_of_bind in Ht as ([[x y] b] & Ht & _). simpl in Ht.
  destruct (float_gt b 9%Q) eqn:Hb; [|by apply elem_of_nil in Ht].
  apply float_gt_true in Hb. by eapply spike_steps_nonneg.
Qed.

(** Pass 2 is the run of its writes. *)
Lemma spike_pass_as_steps (self : StarfieldGenerator) (stars : list star)
    (a : buffer) :
  spike_pass self stars a = for_each (pass_steps stars) (step self) a.
Proof.
  revert a. induction stars as [|[[x y] b] stars IH]; intros a; [done|].
  rewrite spike_pass_cons. unfold pass_steps. rewrite bind_cons.
  fold (pass_steps stars). rewrite for_each_app. unfold then_. simpl.
  destruct (float_gt b 9%Q) eqn:Hb9.
  - apply float_gt_true in Hb9.
    rewrite (proj2 (float_gt_true b 8%Q)) by Lqa.lra.
    rewrite spikes_as_steps by done.
    destruct (for_each (spike_steps x y b) (step self) a) as [[e|] a'];
      [done|apply IH].
  - apply float_gt_false in Hb9. simpl.
    destruct (float_gt b 8%Q); [|apply IH].
    rewrite spikes_skip_le_9 by done. apply IH.
Qed.

Lemma sum_list_nonneg (vs : list Z) : Forall (λ v, 0 ≤ v) vs → 0 ≤ sum_list vs.
Proof.
  induction 1 as [|v vs Hv _ IH]; simpl; [done|].
  unfold sum_list in *. simpl. lia.
Qed.

Lemma sum_list_perm (vs1 vs2 : list Z) :
  vs1 ≡ₚ vs2 → sum_list vs1 = sum_list vs2.
Proof. unfold sum_list. induction 1; simpl; lia. Qed.

Lemma composite_perm (vs1 vs2 : list Z) (p : pixel) :
  vs1 ≡ₚ vs2 → composite vs1 p = composite vs2 p.
Proof.
  intros Hperm. pose proof (sum_list_perm _ _ Hperm) as Hsum.
  destruct vs1 as [|v1 vs1], vs2 as [|v2 vs2].
  - done.
  - by apply Permutation_nil_cons in Hperm.
  - symmetry in Hperm. by apply Permutation_nil_cons in Hperm.
  - unfold composite. by rewrite Hsum.
Qed.

(** A write on top of writes: the sums add up under the clamp. *)
Lemma composite_cons (v : Z) (vs : list Z) (p : pixel) :
  Forall (λ v, 0 ≤ v) vs →
  composite vs (grey (Z.min 255 (red p + v))) = composite (v :: vs) p.
Proof.
  intros Hvs. pose proof (sum_list_nonneg vs Hvs) as Hsum.
  destruct vs as [|v' vs]; unfold composite, sum_list in *; simpl in *.
  - f_equal. lia.
  - change (red (grey (Z.min 255 (red p + v)))) with (Z.min 255 (red p + v)).
    f_equal. lia.
Qed.

Section ClosedForm.

Variable self : StarfieldGenerator.

Lemma hits_cons_on (t : Z * Z * Z) (ops : list (Z * Z * Z)) (r c : nat) :
  on_canvas self t.1.1 t.1.2 → cell t = (r, c) →
  hits self (t :: ops) r c = t.2 :: hits self ops r c.
Proof.
  intros Hin Hcell. unfold hits. by rewrite filter_cons_True.
Qed.

Lemma hits_cons_off (t : Z * Z * Z) (ops : list (Z * Z * Z)) (r c : nat) :
  ¬ (on_canvas self t.1.1 t.1.2 ∧ cell t = (r, c)) →
  hits self (t :: ops) r c = hits self ops r c.
Proof.
  intros Hoff. unfold hits. by rewrite filter_cons_False.
Qed.

Lemma hits_nonneg (ops : list (Z * Z * Z)) (r c : nat) :
  (∀ t, t ∈ ops → 0 ≤ t.2) → Forall (λ v, 0 ≤ v) (hits self ops r c).
Proof.
  intros Hops. unfold hits. apply Forall_fmap, Forall_forall.
  intros t Ht. apply list_elem_of_filter in Ht as [_ Ht]. by apply Hops.
Qed.

(** After a run of writes with values that are not negative, on an
    array of the canvas's shape, every pixel is the [composite] of the
    values that landed on it. *)
Lemma steps_closed_form (ops : list (Z * Z * Z)) (a : buffer) (r c : nat) :
  shape a (height self) (width self) → (∀ t, t ∈ ops → 0 ≤ t.2) →
  pixel_at (for_each ops (step self) a).2 r c
  = composite (hits self ops r c) <$> pixel_at a r c.
Proof.
  revert a. induction ops as [|t ops IH]; intros a Hshape Hops.
  { simpl. by destruct (pixel_at a r c). }
  assert (Hops' : ∀ u, u ∈ ops → 0 ≤ u.2) by (intros; apply Hops; by right).
  simpl. unfold then_.
  destruct (decide (on_canvas self t.1.1 t.1.2)) as [Hin|Hout].
  - destruct (step_on_canvas self t a Hshape Hin) as (cur & Hcur & ->).
    rewrite IH by (done || by apply shape_setitem).
    rewrite pixel_at_setitem by (by rewrite Hcur).
    destruct (decide _) as [Heq|Hne].
    + rewrite hits_cons_on by done. inversion Heq; subst.
      unfold getitem in Hcur. rewrite Hcur. simpl. f_equal.
      apply composite_cons. by apply hits_nonneg.
    + rewrite hits_cons_off; [done|]. intros [_ Hcell]. by apply Hne.
  - rewrite step_off_canvas by done.
    rewrite hits_cons_off; [by apply IH|]. by intros [? _].
Qed.

End ClosedForm.



(** * The values in binary64 *)

(** ** [int] on a double *)

(** [int] returns for the finite doubles, and what it returns is the
    exact value of the double with its fraction cut off. *)
Lemma double_int_of_float_finite (f : float) :
  Double.finite f = true →
  Double.int_of_float f = Ok (int_of_float (Double.value f)).
Proof.
  unfold Double.finite, Double.int_of_float, Double.value, int_of_float.
  destruct (Prim2SF f) as [s|s| |s m e]; try discriminate; intros _.
  { reflexivity. }
  destruct (Z.leb_spec 0 e) as [He|He].
  - destruct s; simpl; f_equal.
    + rewrite Z.quot_1_r. reflexivity.
    + rewrite Z.quot_1_r. reflexivity.
  - assert (Hden : Z.pos (2 ^ Z.to_pos (- e)) = 2 ^ (- e)).
    { rewrite Pos2Z.inj_pow, Z2Pos.id by lia. reflexivity. }
    destruct s; simpl; f_equal.
    + rewrite Hden. change (Z.neg m) with (- Z.pos m).
      rewrite Z.quot_opp_l by lia. f_equal.
      symmetry. apply Z.quot_div_nonneg; lia.
    + rewrite Hden. symmetry. apply Z.quot_div_nonneg; lia.
Qed.

Lemma double_int_of_float_Ok (f : float) (z : Z) :
  Double.int_of_float f = Ok z →
  Double.finite f = true ∧ z = int_of_float (Double.value f).
Proof.
  intros Hf.
  assert (Hfin : Double.finite f = true).
  { revert Hf. unfold Double.finite, Double.int_of_float.
    by destruct (Prim2SF f). }
  split; [done|]. rewrite double_int_of_float_finite in Hf by done.
  by injection Hf.
Qed.

Lemma double_int_of_float_not_finite (f : float) :
  Double.finite f = false →
  Double.int_of_float f = Raise OverflowError
  ∨ Double.int_of_float f = Raise ValueError.
Proof.
  unfold Double.finite, Double.int_of_float.
  destruct (Prim2SF f); try discriminate; auto.
Qed.

(** ** Intensity *)

(** The claim C4 as it is written fails on the doubles: at brightness
    9.8 the double [(brightness / 10.0) * 255] is 249.9 and a little,
    both intensities are 249, and the nearest integer, of that double
    as of the exact product, is 250; at brightness 1.4 the point that
    [draw_star] stores is (35, 35, 35), where rounding gives 36. *)
Lemma intensity_is_not_rounded :
  Double.star_intensity 9.8 = Ok 249 ∧ Double.base_intensity 9.8 = Ok 249
  ∧ py_round (Double.value (9.8 / 10 * 255)%float) = 250
  ∧ py_round (Double.value 9.8 / 10 * 255)%Q = 250
  ∧ pixel_at (Double.draw_star (λ _ _ _ _ _ _, false) (λ _ _ _ _ _ _, false)
                1 0 1.4 green_row).2 0 1 = Some (35, 35, 35)
  ∧ py_round (Double.value (1.4 / 10 * 255)%float) = 36.
Proof. repeat split; vm_compute; reflexivity. Qed.

(** C4, amended: the intensity of the glyph and the base intensity of
    the spikes are the same number, [int] of the double
    [(brightness / 10.0) * 255] as binary64 arithmetic rounds it.  When
    that double is finite, it is its exact value with the fraction cut
    off, so the floor of the double when it is not negative (not the
    nearest integer, and not always the floor of the exact product
    either); when it is a NaN or an infinity, both raise. *)
Theorem intensity_is_truncated_double (b : float) :
  let x := (b / 10 * 255)%float in
  Double.star_intensity b = Double.base_intensity b
  ∧ (Double.finite x = true →
     Double.star_intensity b = Ok (int_of_float (Double.value x))
     ∧ ((0 <= Double.value x)%Q →
        int_of_float (Double.value x) = Qfloor (Double.value x)))
  ∧ (Double.finite x = false →
     Double.star_intensity b = Raise OverflowError
     ∨ Double.star_intensity b = Raise ValueError).
Proof.
  intros x. split; [reflexivity|]. split.
  - intros Hfin. split; [by apply double_int_of_float_finite|].
    apply int_of_float_floor.
  - apply double_int_of_float_not_finite.
Qed.

Lemma intensity_is_truncated_double_witness :
  Double.finite (9.8 / 10 * 255)%float = true
  ∧ (0 <= Double.value (9.8 / 10 * 255)%float)%Q
  ∧ Double.star_intensity 9.8
    = Ok (int_of_float (Double.value (9.8 / 10 * 255)%float))
  ∧ int_of_float (Double.value (9.8 / 10 * 255)%float)
    = Qfloor (Double.value (9.8 / 10 * 255)%float).
Proof.
  assert (Hfin : Double.finite (9.8 / 10 * 255)%float = true)
    by (vm_compute; reflexivity).
  assert (Hpos : (0 <= Double.value (9.8 / 10 * 255)%float)%Q)
    by (vm_compute; discriminate).
  split; [exact Hfin|]. split; [exact Hpos|].
  destruct (proj1 (proj2 (intensity_is_truncated_double 9.8)) Hfin)
    as [Hint Hfloor].
  split; [exact Hint|exact (Hfloor Hpos)].
Defined.

(** ** The compositor in binary64 *)

Lemma for_each_ext_in {A} (l : list A) (body1 body2 : A → stmt) (a : buffer) :
  (∀ v a', v ∈ l → body1 v a' = body2 v a') →
  for_each l body1 a = for_each l body2 a.
Proof.
  revert a. induction l as [|v l IH]; intros a Hext; simpl; [done|].
  unfold then_. rewrite Hext by left.
  destruct (body2 v a) as [[e|] a']; [done|].
  apply IH. intros u a'' Hu. apply Hext. by right.
Qed.

(** With a value that was computed, the body of the loops is the write
    of that value. *)
Lemma double_brighten_Ok (self : StarfieldGenerator) (px py v : Z) (a : buffer) :
  Double.brighten self px py (Ok v) a = brighten self px py v a.
Proof. reflexivity. Qed.

Lemma double_pass_rays (self : StarfieldGenerator) (x y len : Z)
    (val : Z → result Z) (dirs : list (Z * Z)) (a : buffer) :
  (∀ i, 1 ≤ i < len → defined (val i)) →
  for_each dirs (λ d,
    for_each (range 1 len) (λ i,
      Double.brighten self (x + d.1 * i) (y + d.2 * i) (val i))) a
  = for_each (rays x y len (λ i, value_or_zero (val i)) dirs) (step self) a.
Proof.
  intros Hdef. rewrite <- for_each_rays. apply for_each_ext. intros d a'.
  apply for_each_ext_in. intros i a'' Hi. apply elem_of_range in Hi.
  destruct (Hdef i Hi) as [v Hv]. rewrite Hv. apply double_brighten_Ok.
Qed.

(** A call whose conversions all succeed is the run of its writes. *)
Lemma double_spikes_as_steps (self : StarfieldGenerator) (x y : Z) (b : float)
    (B L : Z) (a : buffer) :
  (b <=? 9)%float = false →
  Double.base_intensity b = Ok B → Double.spike_length b = Ok L →
  spikes_defined b B L →
  Double.draw_diffraction_spikes self x y b a
  = for_each (double_spike_steps x y b B L) (step self) a.
Proof.
  intros Hb HB HL [Hc Hd].
  unfold Double.draw_diffraction_spikes, double_spike_steps.
  rewrite Hb, HB, HL, for_each_app.
  unfold then_, Double.cardinal_pass, Double.diagonal_pass.
  rewrite double_pass_rays by done.
  destruct (for_each (rays _ _ _ _ _) _ a) as [[e|] a']; [done|].
  destruct (9.5 <? b)%float; [|done]. apply double_pass_rays. by apply Hd.
Qed.

Lemma NoDup_double_spike_steps (x y : Z) (b : float) (B L : Z) :
  NoDup (double_spike_steps x y b B L).*1.
Proof.
  pose proof NoDup_eight_dirs as Hnd.
  apply NoDup_app in Hnd as (Hcard & Hdisj & Hdiag).
  unfold double_spike_steps. rewrite fmap_app. apply NoDup_app.
  split; [|split].
  - apply NoDup_rays; [done|].
    intros d Hd. apply elem_of_app. by left.
  - intros c Hc Hc'. destruct (9.5 <? b)%float; [|by apply elem_of_nil in Hc'].
    apply elem_of_rays_targets in Hc as (d & i & Hd & Hi & ->).
    apply elem_of_rays_targets in Hc' as (d' & j & Hd' & Hj & Heq).
    apply (ray_point_inj x y d d' i j) in Heq as [<- _]; [| | |lia|lia].
    + by apply (Hdisj d).
    + apply elem_of_app. by left.
    + apply elem_of_app. by right.
  - destruct (9.5 <? b)%float; [|apply NoDup_nil_2].
    apply NoDup_rays; [done|].
    intros d Hd. apply elem_of_app. by right.
Qed.

Lemma is_ok_defined {A} (r : result A) : is_ok r = true → defined r.
Proof. destruct r as [v|e]; [by exists v|discriminate]. Qed.

(** The conversions of a call can be checked by running them. *)
Lemma spikes_defined_check (b : float) (B L : Z) :
  forallb (λ i, is_ok (Double.cardinal_spike_val b B L i)) (range 1 L) = true →
  (if (9.5 <? b)%float
   then forallb (λ i, is_ok (Double.diagonal_spike_val b B L i))
          (range 1 (floor_div L 2))
   else true) = true →
  spikes_defined b B L.
Proof.
  intros Hc Hd. split.
  - intros i Hi. apply is_ok_defined.
    rewrite forallb_forall in Hc. apply Hc.
    by apply list_elem_of_In, elem_of_range.
  - intros Hb i Hi. rewrite Hb in Hd. apply is_ok_defined.
    rewrite forallb_forall in Hd. apply Hd.
    by apply list_elem_of_In, elem_of_range.
Qed.

(** The claim C2 as it is written fails on the doubles: at brightness
    10.0 the base intensity is 255 and the length 20, and at step 16
    the exact formula gives [floor(255 * 1 * (1 - 16/20)) = 51], but
    the doubles give [1.0 - 16/20 = 0.19999999999999996] and a product
    just below 51, so [int] gives 50: on a black canvas the pixel 16
    to the right of the star ends as (50, 50, 50), not (51, 51, 51). *)
Lemma cardinal_spike_is_not_exact_floor :
  Double.base_intensity 10 = Ok 255 ∧ Double.spike_length 10 = Ok 20
  ∧ Double.cardinal_spike_val 10 255 20 16 = Ok 50
  ∧ Qfloor (inject_Z 255 * (Double.value 10 - 9)
            * (1 - inject_Z 16 / inject_Z 20))%Q = 51
  ∧ pixel_at black_square 10 18 = Some (0, 0, 0)
  ∧ pixel_at (Double.draw_diffraction_spikes square_canvas 2 10 10
                black_square).2 10 18 = Some (50, 50, 50)
  ∧ grey (Z.min 255 (0 + 51)) ≠ (50, 50, 50).
Proof.
  repeat split; try (vm_compute; reflexivity). discriminate.
Qed.

(** C2, amended: the arithmetic is that of the doubles.  With
    brightness not at most 9, base intensity [B] and spike length [L]
    as [int] returns them ([L] is the double [8 + (brightness - 9) * 12]
    with its fraction cut off), no conversion in the loops raising, and
    an array of the canvas's shape: the call raises nothing and keeps
    the shape; for each cardinal direction and each step [i] from 1 to
    [L - 1] the pixel [(x + dx * i, y + dy * i)], when it is on the
    canvas, ends with all three channels equal to
    [min(255, red + v)], where [red] is its red channel before the call
    and [v] is the double
    [B * ((brightness - 9) / 1.0) * (1.0 - i / L)], every operation
    rounded to the nearest double, with its fraction cut off; a step
    outside the canvas writes nothing, and a pixel that no step aims at
    keeps its value. *)
Theorem cardinal_spikes (self : StarfieldGenerator) (a : buffer) (x y : Z)
    (b : float) (B L : Z) (d : Z * Z) (i : Z) :
  (b <=? 9)%float = false →
  Double.base_intensity b = Ok B → Double.spike_length b = Ok L →
  spikes_defined b B L →
  shape a (height self) (width self) →
  d ∈ cardinal_dirs → 1 ≤ i < L →
  L = int_of_float (Double.value (8 + (b - 9) * 12)%float)
  ∧ (Double.draw_diffraction_spikes self x y b a).1 = None
  ∧ shape (Double.draw_diffraction_spikes self x y b a).2
      (height self) (width self)
  ∧ (on_canvas self (x + d.1 * i) (y + d.2 * i) →
     ∃ current v,
       Double.cardinal_spike_val b B L i = Ok v
       ∧ v = int_of_float
               (Double.value (Double.float_of_int B * ((b - 9) / 1)
                              * (1 - Double.true_div i L))%float)
       ∧ getitem a (y + d.2 * i) (x + d.1 * i) = Some current
       ∧ getitem (Double.draw_diffraction_spikes self x y b a).2
           (y + d.2 * i) (x + d.1 * i)
         = Some (grey (Z.min 255 (red current + v))))
  ∧ (∀ r c,
       (∀ t, t ∈ double_spike_steps x y b B L → on_canvas self t.1.1 t.1.2 →
             cell t ≠ (r, c)) →
       pixel_at (Double.draw_diffraction_spikes self x y b a).2 r c
       = pixel_at a r c).
Proof.
  intros Hb HB HL Hdef Hshape Hd Hi.
  rewrite (double_spikes_as_steps self x y b B L) by done.
  split; [by apply double_int_of_float_Ok in HL as [_ ->]|].
  destruct (steps_ok self (double_spike_steps x y b B L) a Hshape)
    as [Hnone Hshape'].
  split; [done|]. split; [done|]. split.
  - intros Hcanvas. destruct (proj1 Hdef i Hi) as [v Hv].
    destruct (steps_once self (double_spike_steps x y b B L) a
                (x + d.1 * i) (y + d.2 * i) v Hshape
                (NoDup_double_spike_steps x y b B L))
      as (current & Hcur & Hafter); [|done|].
    + unfold double_spike_steps. apply elem_of_app. left.
      apply elem_of_rays. exists d, i. split; [done|]. split; [done|].
      by rewrite Hv.
    + exists current, v. split; [done|].
      split; [|done]. by apply double_int_of_float_Ok in Hv as [_ ->].
  - intros r c Hfree. by apply steps_untouched.
Qed.

Lemma spikes_defined_at_10 : spikes_defined 10 255 20.
Proof. apply spikes_defined_check; vm_compute; reflexivity. Defined.

Lemma cardinal_spikes_witness :
  (10 <=? 9)%float = false
  ∧ Double.base_intensity 10 = Ok 255 ∧ Double.spike_length 10 = Ok 20
  ∧ spikes_defined 10 255 20
  ∧ shape black_square (height square_canvas) (width square_canvas)
  ∧ (1, 0) ∈ cardinal_dirs ∧ 1 ≤ 16 < 20
  ∧ on_canvas square_canvas (2 + 1 * 16) (10 + 0 * 16)
  ∧ ∃ current v,
      Double.cardinal_spike_val 10 255 20 16 = Ok v
      ∧ v = int_of_float
              (Double.value (Double.float_of_int 255 * ((10 - 9) / 1)
                             * (1 - Double.true_div 16 20))%float)
      ∧ getitem black_square (10 + 0 * 16) (2 + 1 * 16) = Some current
      ∧ getitem (Double.draw_diffraction_spikes square_canvas 2 10 10
                   black_square).2 (10 + 0 * 16) (2 + 1 * 16)
        = Some (grey (Z.min 255 (red current + v))).
Proof.
  assert (Hb : (10 <=? 9)%float = false) by (vm_compute; reflexivity).
  assert (HB : Double.base_intensity 10 = Ok 255) by (vm_compute; reflexivity).
  assert (HL : Double.spike_length 10 = Ok 20) by (vm_compute; reflexivity).
  assert (Hd : (1, 0) ∈ cardinal_dirs) by apply list_elem_of_here.
  assert (Hi : 1 ≤ 16 < 20) by lia.
  assert (Hc : on_canvas square_canvas (2 + 1 * 16) (10 + 0 * 16))
    by (unfold on_canvas; simpl; lia).
  split; [exact Hb|]. split; [exact HB|]. split; [exact HL|].
  split; [exact spikes_defined_at_10|]. split; [exact black_square_shape|].
  split; [exact Hd|]. split; [exact Hi|]. split; [exact Hc|].
  exact (proj1 (proj2 (proj2 (proj2
           (cardinal_spikes square_canvas black_square 2 10 10 255 20 (1, 0) 16
              Hb HB HL spikes_defined_at_10 black_square_shape Hd Hi)))) Hc).
Defined.

(** *** The diagonals *)

(** Comparing doubles with the same sign and exponent compares their
    mantissas (stated over any mantissas and exponent). *)
Lemma SFltb_SFleb_above (p q : positive) (e0 : Z) (f : spec_float) :
  (q < p)%positive →
  SFltb (S754_finite false p e0) f = true →
  SFleb f (S754_finite false q e0) = false.
Proof.
  intros Hqp. unfold SFltb, SFleb.
  destruct f as [s|s| |s m e].
  - destruct s; discriminate.
  - destruct s; [discriminate|reflexivity].
  - discriminate.
  - destruct s; [discriminate|].
    unfold SFcompare.
    destruct (e0 ?= e)%Z eqn:He.
    + apply Z.compare_eq_iff in He. subst e. rewrite Z.compare_refl.
      fold (Pos.compare p m). fold (Pos.compare m q).
      destruct (p ?= m)%positive eqn:Hm; intros Hlt; try discriminate Hlt.
      apply Pos.compare_lt_iff in Hm.
      assert (Hgt : (m ?= q)%positive = Gt).
      { apply Pos.compare_gt_iff. eapply Pos.lt_trans; eassumption. }
      rewrite Hgt. reflexivity.
    + intros _. rewrite Z.compare_antisym, He. reflexivity.
    + discriminate.
Qed.

Lemma Prim2SF_9_5 : Prim2SF 9.5 = S754_finite false 5348024557502464 (-49).
Proof. vm_compute. reflexivity. Qed.

Lemma Prim2SF_9 : Prim2SF 9 = S754_finite false 5066549580791808 (-49).
Proof. vm_compute. reflexivity. Qed.

(** A double above 9.5 is not at most 9. *)
Lemma double_above_9_5 (b : float) :
  (9.5 <? b)%float = true → (b <=? 9)%float = false.
Proof.
  rewrite ltb_spec, leb_spec, Prim2SF_9_5, Prim2SF_9.
  apply SFltb_SFleb_above. vm_compute. reflexivity.
Qed.

(** The three ways a step can go when its value may have raised. *)
Lemma double_brighten_cases (self : StarfieldGenerator) (px py : Z)
    (r : result Z) (a : buffer) :
  (Double.brighten self px py r a).2 = a
  ∨ ∃ current v, r = Ok v ∧ on_canvas self px py
      ∧ getitem a py px = Some current
      ∧ Double.brighten self px py r a
        = (None, setitem a py px (grey (Z.min 255 (red current + v)))).
Proof.
  destruct r as [v|e].
  - rewrite double_brighten_Ok.
    destruct (brighten_cases self px py v a) as [Hsame|(cur & Hin & Hget & Heq)];
      [by left|].
    right. by exists cur, v.
  - left. unfold Double.brighten. by destruct (_ && _).
Qed.

(** With brightness not above 9.5 only the cardinal rays are written,
    whatever the call does otherwise. *)
Lemma double_spikes_cardinal_only (self : StarfieldGenerator) (x y : Z)
    (b : float) (a : buffer) (r c : nat) :
  (9.5 <? b)%float = false →
  (∀ d i, d ∈ cardinal_dirs → 1 ≤ i →
          on_canvas self (x + d.1 * i) (y + d.2 * i) →
          (Z.to_nat (y + d.2 * i), Z.to_nat (x + d.1 * i)) ≠ (r, c)) →
  pixel_at (Double.draw_diffraction_spikes self x y b a).2 r c = pixel_at a r c.
Proof.
  intros Hb Hfree. unfold Double.draw_diffraction_spikes.
  destruct (b <=? 9)%float; [done|].
  destruct (Double.base_intensity b) as [B|e]; [|done].
  destruct (Double.spike_length b) as [L|e]; [|done].
  rewrite Hb.
  apply (then_preserves (λ a', pixel_at a' r c = pixel_at a r c)); [|done].
  unfold Double.cardinal_pass.
  apply (for_each_preserves (λ a', pixel_at a' r c = pixel_at a r c)); [|done].
  intros d a1 Hd Ha1.
  apply (for_each_preserves (λ a', pixel_at a' r c = pixel_at a r c)); [|done].
  intros i a2 Hi Ha2. apply elem_of_range in Hi.
  destruct (double_brighten_cases self (x + d.1 * i) (y + d.2 * i)
              (Double.cardinal_spike_val b B L i) a2)
    as [->|(cur & v & _ & Hin & Hget & ->)]; [done|].
  simpl. rewrite pixel_at_setitem_ne; [done|].
  intros Heq. apply (Hfree d i Hd ltac:(lia) Hin). by rewrite Heq.
Qed.

(** The claim C5 as it is written fails on the doubles: at the double
    nearest to 9.84 the base intensity is 250, the length 18 and the
    diagonal length 9, and at step 3 the exact formula gives
    [floor(250 * 0.8399999... * (1 - 3/9) * 0.5) = 69], but the product
    of the doubles is rounded up to 70.0 and [int] gives 70: on a black
    canvas the third pixel of a diagonal ends as (70, 70, 70), not
    (69, 69, 69). *)
Lemma diagonal_spike_is_not_exact_floor :
  Double.base_intensity 9.84 = Ok 250 ∧ Double.spike_length 9.84 = Ok 18
  ∧ floor_div 18 2 = 9
  ∧ Double.diagonal_spike_val 9.84 250 18 3 = Ok 70
  ∧ Qfloor (inject_Z 250 * (Double.value 9.84 - 9)
            * (1 - inject_Z 3 / inject_Z 9) * 0.5)%Q = 69
  ∧ pixel_at black_square 13 13 = Some (0, 0, 0)
  ∧ pixel_at (Double.draw_diffraction_spikes square_canvas 10 10 9.84
                black_square).2 13 13 = Some (70, 70, 70)
  ∧ grey (Z.min 255 (0 + 69)) ≠ (70, 70, 70).
Proof.
  repeat split; try (vm_compute; reflexivity). discriminate.
Qed.

(** C5, amended: the arithmetic is that of the doubles.  On an array of
    the canvas's shape, for a pixel [(x + dx * i, y + dy * i)] on the
    canvas along a diagonal direction with [i] at least 1: with
    brightness above 9.5, base intensity [B] and spike length [L] as
    [int] returns them, no conversion in the loops raising, and [i]
    below [diagonal_length = floor(L / 2)], the pixel ends with all
    three channels equal to [min(255, red + v)], where [red] is its red
    channel before the call and [v] is the double
    [B * ((brightness - 9) / 1.0) * (1.0 - i / diagonal_length) * 0.5],
    every operation rounded to the nearest double, with its fraction cut
    off; with brightness not above 9.5 the pixel keeps its value,
    whether or not the call raises. *)
Theorem diagonal_spikes (self : StarfieldGenerator) (a : buffer) (x y : Z)
    (b : float) (B L : Z) (d : Z * Z) (i : Z) :
  shape a (height self) (width self) → d ∈ diagonal_dirs → 1 ≤ i →
  on_canvas self (x + d.1 * i) (y + d.2 * i) →
  floor_div L 2 = Qfloor (inject_Z L / 2)%Q
  ∧ ((9.5 <? b)%float = true →
     Double.base_intensity b = Ok B → Double.spike_length b = Ok L →
     spikes_defined b B L → i < floor_div L 2 →
     ∃ current v,
       Double.diagonal_spike_val b B L i = Ok v
       ∧ v = int_of_float
               (Double.value (Double.float_of_int B * ((b - 9) / 1)
                              * (1 - Double.true_div i (floor_div L 2))
                              * 0.5)%float)
       ∧ getitem a (y + d.2 * i) (x + d.1 * i) = Some current
       ∧ getitem (Double.draw_diffraction_spikes self x y b a).2
           (y + d.2 * i) (x + d.1 * i)
         = Some (grey (Z.min 255 (red current + v))))
  ∧ ((9.5 <? b)%float = false →
     getitem (Double.draw_diffraction_spikes self x y b a).2
       (y + d.2 * i) (x + d.1 * i)
     = getitem a (y + d.2 * i) (x + d.1 * i)).
Proof.
  intros Hshape Hd Hi Hcanvas. split; [apply Zdiv_Qdiv|]. split.
  - intros Hb HB HL Hdef Hlen.
    rewrite (double_spikes_as_steps self x y b B L)
      by (done || by apply double_above_9_5).
    destruct (proj2 Hdef Hb i ltac:(lia)) as [v Hv].
    destruct (steps_once self (double_spike_steps x y b B L) a
                (x + d.1 * i) (y + d.2 * i) v Hshape
                (NoDup_double_spike_steps x y b B L))
      as (current & Hcur & Hafter); [|done|].
    + unfold double_spike_steps. apply elem_of_app. right. rewrite Hb.
      apply elem_of_rays. exists d, i. split; [done|]. split; [lia|].
      by rewrite Hv.
    + exists current, v. split; [done|].
      split; [|done]. by apply double_int_of_float_Ok in Hv as [_ ->].
  - intros Hb. unfold getitem.
    apply double_spikes_cardinal_only; [done|].
    intros d' j Hd' Hj Hin Heq.
    apply (cell_inj self (x + d'.1 * j, y + d'.2 * j, 0)
             (x + d.1 * i, y + d.2 * i, 0)) in Heq; [|done..].
    simpl in Heq.
    apply (ray_point_inj x y d' d j i) in Heq as [-> _]; [| | |lia|lia].
    + by apply (cardinal_not_diagonal d).
    + apply elem_of_app. by left.
    + apply elem_of_app. by right.
Qed.

Lemma spikes_defined_at_9_84 : spikes_defined 9.84 250 18.
Proof. apply spikes_defined_check; vm_compute; reflexivity. Defined.

Lemma diagonal_spikes_witness :
  shape black_square (height square_canvas) (width square_canvas)
  ∧ (1, 1) ∈ diagonal_dirs ∧ 1 ≤ 3
  ∧ on_canvas square_canvas (10 + 1 * 3) (10 + 1 * 3)
  ∧ (9.5 <? 9.84)%float = true
  ∧ Double.base_intensity 9.84 = Ok 250 ∧ Double.spike_length 9.84 = Ok 18
  ∧ spikes_defined 9.84 250 18 ∧ 3 < floor_div 18 2
  ∧ ∃ current v,
      Double.diagonal_spike_val 9.84 250 18 3 = Ok v
      ∧ v = int_of_float
              (Double.value (Double.float_of_int 250 * ((9.84 - 9) / 1)
                             * (1 - Double.true_div 3 (floor_div 18 2))
                             * 0.5)%float)
      ∧ getitem black_square (10 + 1 * 3) (10 + 1 * 3) = Some current
      ∧ getitem (Double.draw_diffraction_spikes square_canvas 10 10 9.84
                   black_square).2 (10 + 1 * 3) (10 + 1 * 3)
        = Some (grey (Z.min 255 (red current + v))).
Proof.
  assert (Hd : (1, 1) ∈ diagonal_dirs) by apply list_elem_of_here.
  assert (Hi : 1 ≤ 3) by lia.
  assert (Hc : on_canvas square_canvas (10 + 1 * 3) (10 + 1 * 3))
    by (unfold on_canvas; simpl; lia).
  assert (Hb : (9.5 <? 9.84)%float = true) by (vm_compute; reflexivity).
  assert (HB : Double.base_intensity 9.84 = Ok 250) by (vm_compute; reflexivity).
  assert (HL : Double.spike_length 9.84 = Ok 18) by (vm_compute; reflexivity).
  assert (Hlen : 3 < floor_div 18 2) by (vm_compute; reflexivity).
  split; [exact black_square_shape|]. split; [exact Hd|]. split; [exact Hi|].
  split; [exact Hc|]. split; [exact Hb|]. split; [exact HB|]. split; [exact HL|].
  split; [exact spikes_defined_at_9_84|]. split; [exact Hlen|].
  exact (proj1 (proj2 (diagonal_spikes square_canvas black_square 10 10 9.84
                         250 18 (1, 1) 3 black_square_shape Hd Hi Hc))
           Hb HB HL spikes_defined_at_9_84 Hlen).
Defined.

(** ** Sampling in binary64 *)

(** The loop runs to its end and appends one star per iteration. *)
Lemma double_sample_stars_spec (rng : Type) (random : rng → float * rng)
    (randint : Z → Z → rng → Z * rng) (pow : float → float → float)
    (self : StarfieldGenerator) :
  0 < width self → 0 < height self → randint_in_range randint →
  ∀ (n : nat) (acc : list Double.star) (s : rng),
  ∃ stars s',
    Double.sample_stars rng random randint pow self n acc s
    = (Ok (acc ++ stars), s')
    ∧ length stars = n
    ∧ Forall (double_sampled_star random pow self) stars.
Proof.
  intros Hw Hh Hrand n. induction n as [|n IH]; intros acc s.
  { exists [], s. by rewrite app_nil_r. }
  simpl.
  destruct (py_randint_ok rng randint Hrand (width self - 1) s)
    as (x & s1 & -> & Hx); [lia|].
  destruct (py_randint_ok rng randint Hrand (height self - 1) s1)
    as (y & s2 & -> & Hy); [lia|].
  destruct (Double.generate_star_brightness rng random pow s2) as [b s3] eqn:Hb.
  destruct (IH (acc ++ [(x, y, b)]) s3) as (stars & s' & -> & Hlen & Hall).
  exists ((x, y, b) :: stars), s'. split; [|split].
  - by rewrite <- app_assoc.
  - simpl. by rewrite Hlen.
  - apply Forall_cons_2; [|done]. unfold double_sampled_star. simpl.
    split; [lia|]. split; [lia|]. exists s2. by rewrite Hb.
Qed.

(** The claim C8 as it is written fails on the doubles: on a canvas of
    3 by 1 pixels with density 0.3333333333333333 the exact product is
    below 1, so [floor(width * height * density) = 0], but the product
    of the doubles is rounded to 1.0 and one star is sampled; on 1920
    by 1080 pixels with density 0.03 the code samples 62208 stars, not
    62207. *)
Lemma num_stars_is_not_exact_floor :
  Double.num_stars third_canvas 0.3333333333333333 = Ok 1
  ∧ Qfloor (inject_Z (width third_canvas * height third_canvas)
            * Double.value 0.3333333333333333)%Q = 0
  ∧ match (Double.sample_stars Z lcg_random_double lcg_randint pow_sample
             third_canvas (Z.to_nat 1) [] 42).1 with
    | Ok stars => length stars
    | Raise _ => 0%nat
    end = 1%nat
  ∧ Double.num_stars
      {| width := 1920; height := 1080; density := 0%Q;
         background := "#000000" |} 0.03 = Ok 62208
  ∧ Qfloor (inject_Z (1920 * 1080) * Double.value 0.03)%Q = 62207.
Proof.
  repeat split; vm_compute; reflexivity.
Qed.

(** C8, amended: the product is that of the doubles.  On a canvas of
    positive width and height, with a generator whose [randint] stays in
    its range, and [width * height] and its product with the density
    finite as doubles: [num_stars] is the double nearest to
    [width * height * density] with its fraction cut off; the sampling
    loop returns exactly that many stars (none when it is negative),
    each with [x] in [[0, width)], [y] in [[0, height)] and a brightness
    returned by [generate_star_brightness]; and [generate] draws from
    that one list: all glyphs of the list first, then the spikes of
    the list. *)
Theorem generate_samples_stars (rng : Type) (random : rng → float * rng)
    (randint : Z → Z → rng → Z * rng) (pow : float → float → float)
    (ellipse_fill ellipse_outline : Z → Z → Z → Z → Z → Z → bool)
    (load_image : string → Z → Z → option buffer)
    (self : StarfieldGenerator) (density : float) (s : rng) :
  let product :=
    (Double.float_of_int (width self * height self) * density)%float in
  let n := int_of_float (Double.value product) in
  0 < width self → 0 < height self → randint_in_range randint →
  Double.finite (Double.float_of_int (width self * height self)) = true →
  Double.finite product = true →
  Double.num_stars self density = Ok n
  ∧ ∃ stars s',
      Double.sample_stars rng random randint pow self (Z.to_nat n) [] s
      = (Ok stars, s')
      ∧ Z.of_nat (length stars) = Z.max 0 n
      ∧ Forall (double_sampled_star random pow self) stars
      ∧ ∀ img, parse_background load_image self = Ok img →
          Double.generate rng random randint pow ellipse_fill ellipse_outline
            load_image self density s
          = (match Double.glyph_pass ellipse_fill ellipse_outline stars img with
             | (Some e, _) => Raise e
             | (None, img1) =>
                 match Double.spike_pass self stars img1 with
                 | (Some e, _) => Raise e
                 | (None, img_array) => Ok img_array
                 end
             end, s').
Proof.
  intros product n Hw Hh Hrand Htotal Hproduct.
  assert (Hnum : Double.num_stars self density = Ok n).
  { unfold Double.num_stars. cbv zeta. rewrite Htotal.
    by apply double_int_of_float_finite. }
  split; [done|].
  destruct (double_sample_stars_spec rng random randint pow self Hw Hh Hrand
              (Z.to_nat n) [] s)
    as (stars & s' & Hrun & Hlen & Hall).
  simpl in Hrun. exists stars, s'. split; [done|]. split; [|split; [done|]].
  - rewrite Hlen. lia.
  - intros img Himg. unfold Double.generate. rewrite Himg, Hnum, Hrun.
    destruct (Double.glyph_pass _ _ stars img) as [[e|] img1]; [done|].
    by destruct (Double.spike_pass self stars img1) as [[e|] a].
Qed.

Lemma generate_samples_stars_witness :
  0 < width square_canvas ∧ 0 < height square_canvas
  ∧ randint_in_range lcg_randint
  ∧ Double.finite
      (Double.float_of_int (width square_canvas * height square_canvas)) = true
  ∧ Double.finite
      (Double.float_of_int (width square_canvas * height square_canvas)
       * 0.05)%float = true
  ∧ Double.num_stars square_canvas 0.05
    = Ok (int_of_float
            (Double.value
               (Double.float_of_int (width square_canvas * height square_canvas)
                * 0.05)%float)).
Proof.
  assert (Hw : 0 < width square_canvas) by reflexivity.
  assert (Hh : 0 < height square_canvas) by reflexivity.
  assert (Htotal : Double.finite
            (Double.float_of_int (width square_canvas * height square_canvas))
          = true) by (vm_compute; reflexivity).
  assert (Hproduct : Double.finite
            (Double.float_of_int (width square_canvas * height square_canvas)
             * 0.05)%float = true) by (vm_compute; reflexivity).
  split; [exact Hw|]. split; [exact Hh|].
  split; [exact lcg_randint_in_range|].
  split; [exact Htotal|]. split; [exact Hproduct|].
  exact (proj1 (generate_samples_stars Z lcg_random_double lcg_randint
                  pow_sample disc_fill disc_outline no_image square_canvas
                  0.05 42 Hw Hh lcg_randint_in_range Htotal Hproduct)).
Defined.

(** ** Glyphs in binary64: the colours *)

(** When the intensity that [int] returns is a byte nothing is clipped:
    the call raises nothing in the first two tiers, nor in the third
    once the radius is computed, and a pixel of the image that the glyph
    covers ends grey with the intensity, the double
    [brightness / 10.0 * 255] with its fraction cut off, except under
    the ring of a star brighter than 8, which is drawn last and stores
    half the intensity (integer division) even where the disc was.  The
    tiers are those of the comparisons of doubles that the code makes,
    the radius is the double [brightness / 5] with its fraction cut
    off. *)
Theorem draw_star_colours
    (ellipse_fill ellipse_outline : Z → Z → Z → Z → Z → Z → bool)
    (img : buffer) (x y : Z) (b : float) (intensity : Z) (r c : nat)
    (p : pixel) :
  Double.star_intensity b = Ok intensity → 0 ≤ intensity ≤ 255 →
  pixel_at img r c = Some p →
  let out := Double.draw_star ellipse_fill ellipse_outline x y b img in
  let px := Z.of_nat c in
  let py := Z.of_nat r in
  intensity = int_of_float (Double.value (b / 10 * 255)%float)
  ∧ ((b <? 3)%float = true → px = x → py = y →
     out.1 = None ∧ pixel_at out.2 r c = Some (grey intensity))
  ∧ ((b <? 3)%float = false → (b <? 6)%float = true →
     ellipse_fill (x - 1) (y - 1) (x + 1) (y + 1) px py = true →
     out.1 = None ∧ pixel_at out.2 r c = Some (grey intensity))
  ∧ (∀ radius,
       (b <? 3)%float = false → (b <? 6)%float = false →
       Double.star_radius b = Ok radius →
       radius = int_of_float (Double.value (b / 5)%float)
       ∧ out.1 = None
       ∧ ((8 <? b)%float = false →
          ellipse_fill (x - radius) (y - radius) (x + radius) (y + radius)
            px py = true →
          pixel_at out.2 r c = Some (grey intensity))
       ∧ ((8 <? b)%float = true →
          ellipse_outline (x - radius - 1) (y - radius - 1) (x + radius + 1)
            (y + radius + 1) px py = true →
          pixel_at out.2 r c = Some (grey (intensity / 2)))
       ∧ ((8 <? b)%float = true →
          ellipse_fill (x - radius) (y - radius) (x + radius) (y + radius)
            px py = true →
          ellipse_outline (x - radius - 1) (y - radius - 1) (x + radius + 1)
            (y + radius + 1) px py = false →
          pixel_at out.2 r c = Some (grey intensity))).
Proof.
  intros Hint Hrange Hp out px py. subst out px py.
  assert (Hhalf : 0 ≤ intensity / 2 ≤ 255).
  { split; [apply Z.div_pos; lia|]. apply Z.div_le_upper_bound; lia. }
  split; [by apply double_int_of_float_Ok in Hint as [_ ->]|].
  unfold Double.draw_star, ImageDraw_point, ImageDraw_ellipse_fill,
    ImageDraw_ellipse_outline, floor_div. cbv zeta. rewrite Hint.
  split; [|split].
  - intros Hb Hx Hy. rewrite Hb. split; [done|]. simpl.
    rewrite pixel_at_paint_on, Hp by (by apply bool_decide_eq_true_2).
    simpl. by rewrite ink_grey_byte.
  - intros Hb3 Hb6 Hon. rewrite Hb3, Hb6. split; [done|]. simpl.
    rewrite pixel_at_paint_on, Hp by done.
    simpl. by rewrite ink_grey_byte.
  - intros radius Hb3 Hb6 Hradius. rewrite Hb3, Hb6, Hradius.
    split; [by apply double_int_of_float_Ok in Hradius as [_ ->]|].
    split; [by destruct (8 <? b)%float|].
    split; [|split].
    + intros Hb8 Hon. rewrite Hb8. simpl.
      rewrite pixel_at_paint_on, Hp by done.
      simpl. by rewrite ink_grey_byte.
    + intros Hb8 Hon. rewrite Hb8. simpl.
      rewrite pixel_at_paint_on by done. rewrite pixel_at_paint, Hp.
      simpl. by rewrite ink_grey_byte.
    + intros Hb8 Hon Hoff. rewrite Hb8. simpl.
      rewrite pixel_at_paint_off by done.
      rewrite pixel_at_paint_on, Hp by done.
      simpl. by rewrite ink_grey_byte.
Qed.

Lemma draw_star_colours_witness :
  Double.star_intensity 9.2 = Ok 234 ∧ 0 ≤ 234 ≤ 255
  ∧ pixel_at black_square 10 12 = Some (0, 0, 0)
  ∧ (9.2 <? 3)%float = false ∧ (9.2 <? 6)%float = false
  ∧ Double.star_radius 9.2 = Ok 1 ∧ (8 <? 9.2)%float = true
  ∧ pixel_at (Double.draw_star disc_fill disc_outline 10 10 9.2
                black_square).2 10 12
    = Some (grey (234 / 2)).
Proof.
  assert (Hint : Double.star_intensity 9.2 = Ok 234) by (vm_compute; reflexivity).
  assert (Hrange : 0 ≤ 234 ≤ 255) by lia.
  assert (Hp : pixel_at black_square 10 12 = Some (0, 0, 0)) by reflexivity.
  assert (Hb3 : (9.2 <? 3)%float = false) by (vm_compute; reflexivity).
  assert (Hb6 : (9.2 <? 6)%float = false) by (vm_compute; reflexivity).
  assert (Hradius : Double.star_radius 9.2 = Ok 1) by (vm_compute; reflexivity).
  assert (Hb8 : (8 <? 9.2)%float = true) by (vm_compute; reflexivity).
  split; [exact Hint|]. split; [exact Hrange|]. split; [exact Hp|].
  split; [exact Hb3|]. split; [exact Hb6|]. split; [exact Hradius|].
  split; [exact Hb8|].
  exact (proj1 (proj2 (proj2 (proj2
           (proj2 (proj2 (proj2
              (draw_star_colours disc_fill disc_outline black_square 10 10 9.2
                 234 10 12 (0, 0, 0) Hint Hrange Hp))) 1 Hb3 Hb6 Hradius))))
           Hb8 eq_refl).
Defined.

(** ** [generate] in binary64: fewer than one star *)

Lemma digits2_pos_size (m : positive) : digits2_pos m = Pos.size m.
Proof. induction m as [m IH|m IH|]; simpl; by rewrite ?IH. Qed.

(** The mantissa of a double has at most [prec] digits. *)
Lemma bounded_mantissa (m : positive) (e : Z) :
  bounded prec emax m e = true → Z.pos m < 2 ^ prec.
Proof.
  unfold bounded, canonical_mantissa, fexp.
  intros [Hcanon _]%andb_prop. apply Z.eqb_eq in Hcanon.
  rewrite digits2_pos_size in Hcanon.
  assert (Hsize : Z.pos (Pos.size m) ≤ prec) by lia.
  pose proof (Pos.size_gt m) as Hgt.
  apply Pos2Z.pos_lt_pos in Hgt. rewrite Pos2Z.inj_pow in Hgt.
  eapply Z.lt_le_trans; [exact Hgt|].
  apply Z.pow_le_mono_r; lia.
Qed.

(** Below a positive double: a smaller exponent, or the same exponent
    and a smaller mantissa. *)
Lemma SFltb_finite (m p : positive) (e e0 : Z) :
  SFltb (S754_finite false m e) (S754_finite false p e0) = true →
  e < e0 ∨ (e = e0 ∧ Z.pos m < Z.pos p).
Proof.
  unfold SFltb, SFcompare.
  destruct (e ?= e0)%Z eqn:He; [|left; by apply Z.compare_lt_iff|discriminate].
  apply Z.compare_eq_iff in He. subst e0.
  fold (Pos.compare m p).
  destruct (m ?= p)%positive eqn:Hm; try discriminate.
  intros _. right. split; [done|]. by apply Pos.compare_lt_iff in Hm.
Qed.

Lemma Prim2SF_1 : Prim2SF 1 = S754_finite false 4503599627370496 (-52).
Proof. vm_compute. reflexivity. Qed.

(** [int] of a double below 1.0 is not positive. *)
Lemma double_int_below_1 (f : float) (n : Z) :
  (f <? 1)%float = true → Double.int_of_float f = Ok n → n ≤ 0.
Proof.
  rewrite ltb_spec, Prim2SF_1. unfold Double.int_of_float.
  pose proof (Prim2SF_valid f) as Hvalid.
  destruct (Prim2SF f) as [s|s| |s m e]; try discriminate.
  - intros _ [= <-]. lia.
  - simpl in Hvalid. apply bounded_mantissa in Hvalid.
    destruct s.
    + intros _ [= <-].
      destruct (Z.leb_spec 0 e) as [He|He].
      * pose proof (Z.pow_pos_nonneg 2 e ltac:(lia) He). nia.
      * pose proof (Z.pow_pos_nonneg 2 (- e) ltac:(lia) ltac:(lia)) as Hpow.
        pose proof (Z.div_pos (Z.pos m) (2 ^ (- e)) ltac:(lia) Hpow). lia.
    + intros Hlt%SFltb_finite [= <-].
      assert (He : e ≤ -52) by lia.
      destruct (Z.leb_spec 0 e) as [?|_]; [lia|].
      rewrite Z.div_small; [lia|]. split; [lia|].
      destruct Hlt as [Hlt|[-> Hm]].
      * eapply Z.lt_le_trans; [exact Hvalid|].
        apply Z.pow_le_mono_r; unfold prec; lia.
      * exact Hm.
Qed.

(** When the double [width * height * density] is finite and below
    1.0, so with density 0, with an empty canvas or with a negative
    density, [int] gives a number that is not positive and [generate]
    samples no star, draws nothing and leaves the random generator
    alone: it returns what [parse_background] returns, or raises what it
    raises.  The product is the rounded one: on 3 by 1 pixels with
    density 0.3333333333333333 it is 1.0, and one star is sampled. *)
Theorem generate_without_stars (rng : Type) (random : rng → float * rng)
    (randint : Z → Z → rng → Z * rng) (pow : float → float → float)
    (ellipse_fill ellipse_outline : Z → Z → Z → Z → Z → Z → bool)
    (load_image : string → Z → Z → option buffer)
    (self : StarfieldGenerator) (density : float) (s : rng) :
  let product :=
    (Double.float_of_int (width self * height self) * density)%float in
  Double.finite (Double.float_of_int (width self * height self)) = true →
  Double.finite product = true → (product <? 1)%float = true →
  (∃ n, Double.num_stars self density = Ok n ∧ n ≤ 0)
  ∧ Double.generate rng random randint pow ellipse_fill ellipse_outline
      load_image self density s
    = (parse_background load_image self, s).
Proof.
  intros product Htotal Hfinite Hsmall.
  assert (Hnum : Double.num_stars self density
                 = Ok (int_of_float (Double.value product))).
  { unfold Double.num_stars. cbv zeta. rewrite Htotal.
    by apply double_int_of_float_finite. }
  assert (Hle : int_of_float (Double.value product) ≤ 0).
  { apply (double_int_below_1 product); [done|].
    by apply double_int_of_float_finite. }
  split; [by eexists|].
  unfold Double.generate. rewrite Hnum.
  destruct (parse_background load_image self) as [img|e]; [|done].
  replace (Z.to_nat (int_of_float (Double.value product))) with 0%nat by lia.
  done.
Qed.

Lemma generate_without_stars_witness :
  Double.finite
    (Double.float_of_int (width third_canvas * height third_canvas)) = true
  ∧ Double.finite
      (Double.float_of_int (width third_canvas * height third_canvas)
       * 0.3)%float = true
  ∧ (Double.float_of_int (width third_canvas * height third_canvas) * 0.3 <? 1)%float
    = true
  ∧ Double.generate Z lcg_random_double lcg_randint pow_sample disc_fill
      disc_outline no_image third_canvas 0.3 42
    = (parse_background no_image third_canvas, 42).
Proof.
  assert (Htotal : Double.finite
            (Double.float_of_int (width third_canvas * height third_canvas))
          = true) by (vm_compute; reflexivity).
  assert (Hfinite : Double.finite
            (Double.float_of_int (width third_canvas * height third_canvas)
             * 0.3)%float = true) by (vm_compute; reflexivity).
  assert (Hsmall : (Double.float_of_int
                      (width third_canvas * height third_canvas) * 0.3 <? 1)%float
                   = true) by (vm_compute; reflexivity).
  split; [exact Htotal|]. split; [exact Hfinite|]. split; [exact Hsmall|].
  exact (proj2 (generate_without_stars Z lcg_random_double lcg_randint
                  pow_sample disc_fill disc_outline no_image third_canvas
                  0.3 42 Htotal Hfinite Hsmall)).
Defined.
